(** * STIR (STatistical Inference Relief) feature selection

    A shallow embedding of [ITMO_FS/filters/multivariate/STIR.py] and the
    properties its specification states about it, followed by what the
    code itself shows of [max_diff], [distance_matrix], [find_neighbors],
    [fit], [transform] and [fit_transform].

    Numbers.  The feature matrix holds exact rationals.  The float64 arrays
    the code builds from it are modelled by [float64]: a finite value is an
    exact rational (no rounding, no overflow), and the IEEE special values
    that a division by zero produces are kept, so that "no NaN, no Inf" is
    a statement about the model.

    Library calls.  [np.argsort] is a parameter of the development: every
    result about the code is proved for any function that meets numpy's
    contract (the indices that put the keys in ascending order; the default
    kind is not stable).  [argsort_stable] is one such function; the
    concrete runs use it.  [pairwise_distances] is the exact Euclidean
    distance, kept as a square root of a rational. *)

From Stdlib Require Import String Bool Arith ZArith QArith Qabs Qminmax Lia Lqa.
From Stdlib Require Import Reals Qreals.
From Stdlib Require Import List Permutation Sorted.
Import ListNotations.

Set Implicit Arguments.
Close Scope R_scope.
Close Scope Q_scope.

(* ------------------------------------------------------------------ *)
(** ** Exceptions and the two monads of the model *)

(** The Python exceptions the code can raise, and the two the specification
    names ([NotFittedError], [InsufficientSamplesError]). *)
Inductive exn : Type :=
| ValueError (msg : string)
| IndexError (msg : string)
| ZeroDivisionError
| AttributeError (attr : string)
| NotFittedError
| InsufficientSamplesError.

Inductive result (A : Type) : Type :=
| Ok (a : A)
| Raise (e : exn).

Arguments Ok {A} a.
Arguments Raise {A} e.

Definition bind {A B : Type} (r : result A) (f : A -> result B) : result B :=
  match r with
  | Ok a => f a
  | Raise e => Raise e
  end.

Declare Scope py_scope.
Delimit Scope py_scope with py.
Notation "x <- r ;; k" := (bind r (fun x => k))
  (at level 61, r at next level, right associativity) : py_scope.
Notation "' p <- r ;; k" := (bind r (fun x => let p := x in k))
  (at level 61, p pattern, r at next level, right associativity) : py_scope.
Local Open Scope py_scope.

(** [[f x for x in l]], stopping at the first exception. *)
Fixpoint mapM {A B : Type} (f : A -> result B) (l : list A) : result (list B) :=
  match l with
  | [] => Ok []
  | x :: l' => b <- f x ;; bs <- mapM f l' ;; Ok (b :: bs)
  end.

(** [seq[i]] for a non-negative index. *)
Definition py_index {A : Type} (l : list A) (i : nat) : result A :=
  match nth_error l i with
  | Some a => Ok a
  | None => Raise (IndexError "index out of bounds")
  end.

(** Python's slice bounds: a negative bound counts from the end, and both
    are clamped to the sequence. *)
Definition py_clamp (len i : Z) : Z :=
  if (i <? 0)%Z then Z.max 0 (len + i) else Z.min i len.

(** [l[start:stop]]. *)
Definition py_slice {A : Type} (start stop : Z) (l : list A) : list A :=
  let len := Z.of_nat (length l) in
  let lo := py_clamp len start in
  let hi := py_clamp len stop in
  firstn (Z.to_nat (hi - lo)) (skipn (Z.to_nat lo) l).

(** Elementwise operation on two arrays of the same length. *)
Fixpoint zip_with {A B C : Type} (f : A -> B -> C) (l : list A) (m : list B) : list C :=
  match l, m with
  | a :: l', b :: m' => f a b :: zip_with f l' m'
  | _, _ => []
  end.

(* ------------------------------------------------------------------ *)
(** ** float64 values *)

Inductive float64 : Type :=
| Fin (q : Q)
| PInf
| NInf
| NaN.

Definition is_finite (x : float64) : bool :=
  match x with Fin _ => true | _ => false end.

Definition fin_val (x : float64) : Q :=
  match x with Fin q => q | _ => 0%Q end.

(** The literal [1e-14]. *)
Definition eps : Q := (1 # 100000000000000)%Q.

Definition Qltb (a b : Q) : bool := negb (Qle_bool b a).

Definition np_neg (a : float64) : float64 :=
  match a with
  | Fin x => Fin (- x)%Q
  | PInf => NInf
  | NInf => PInf
  | NaN => NaN
  end.

Definition np_add (a b : float64) : float64 :=
  match a, b with
  | Fin x, Fin y => Fin (x + y)%Q
  | NaN, _ | _, NaN => NaN
  | PInf, NInf | NInf, PInf => NaN
  | PInf, _ | _, PInf => PInf
  | NInf, _ | _, NInf => NInf
  end.

Definition np_sub (a b : float64) : float64 := np_add a (np_neg b).

(** The sign a non-finite product or quotient takes from a finite factor
    (a zero counts as [+0]). *)
Definition signed_inf (negative : bool) : float64 :=
  if negative then NInf else PInf.

Definition np_mul (a b : float64) : float64 :=
  match a, b with
  | Fin x, Fin y => Fin (x * y)%Q
  | NaN, _ | _, NaN => NaN
  | Fin x, PInf | PInf, Fin x =>
      if Qeq_bool x 0 then NaN else signed_inf (Qltb x 0)
  | Fin x, NInf | NInf, Fin x =>
      if Qeq_bool x 0 then NaN else signed_inf (negb (Qltb x 0))
  | PInf, PInf | NInf, NInf => PInf
  | PInf, NInf | NInf, PInf => NInf
  end.

(** numpy's true division of float64: dividing by zero does not raise, it
    yields an infinity, or NaN for [0 / 0]. *)
Definition np_div (a b : float64) : float64 :=
  match a, b with
  | Fin x, Fin y =>
      if Qeq_bool y 0
      then (if Qeq_bool x 0 then NaN else signed_inf (Qltb x 0))
      else Fin (x / y)%Q
  | NaN, _ | _, NaN => NaN
  | Fin _, PInf | Fin _, NInf => Fin 0
  | PInf, Fin y => signed_inf (Qltb y 0)
  | NInf, Fin y => signed_inf (negb (Qltb y 0))
  | PInf, PInf | PInf, NInf | NInf, PInf | NInf, NInf => NaN
  end.

(** [a == b] on float64. *)
Definition np_eqb (a b : float64) : bool :=
  match a, b with
  | Fin x, Fin y => Qeq_bool x y
  | PInf, PInf | NInf, NInf => true
  | _, _ => false
  end.

(** The order numpy sorts float64 by: NaN goes last. *)
Definition np_leb (a b : float64) : bool :=
  match a, b with
  | _, NaN => true
  | NaN, _ => false
  | NInf, _ => true
  | _, NInf => false
  | _, PInf => true
  | PInf, _ => false
  | Fin x, Fin y => Qle_bool x y
  end.

(** [np.sum] of a one-dimensional array. *)
Definition np_sum (l : list float64) : float64 := fold_left np_add l (Fin 0).

(** Python's [1 / n] on ints. *)
Definition py_true_div (a b : nat) : result float64 :=
  match b with
  | O => Raise ZeroDivisionError
  | S _ => Ok (Fin (inject_Z (Z.of_nat a) / inject_Z (Z.of_nat b))%Q)
  end.

(** Value equality of float64 (rationals up to [Qeq]). *)
Definition float_eq (a b : float64) : Prop :=
  match a, b with
  | Fin x, Fin y => (x == y)%Q
  | PInf, PInf | NInf, NInf => True
  | _, _ => False
  end.

(* ------------------------------------------------------------------ *)
(** ** Arrays *)

(** A two-dimensional array of numbers, as the list of its rows. *)
Definition matrix : Type := list (list Q).

(** [X.shape[0]] *)
Definition n_samples (X : matrix) : nat := length X.

(** [X.shape[1]] *)
Definition n_features (X : matrix) : nat := length (hd [] X).

(** [X.T[j]], the column of feature [j]. *)
Definition column (X : matrix) (j : nat) : list Q :=
  map (fun row => nth j row 0%Q) X.

Definition list_max (c : list Q) : Q :=
  match c with
  | [] => 0%Q
  | x :: l => fold_left Qmax l x
  end.

Definition list_min (c : list Q) : Q :=
  match c with
  | [] => 0%Q
  | x :: l => fold_left Qmin l x
  end.

(** [np.max(X, axis=0)]: numpy refuses to reduce over an axis of length 0. *)
Definition np_max_axis0 (X : matrix) : result (list Q) :=
  match X with
  | [] => Raise (ValueError "zero-size array to reduction operation maximum which has no identity")
  | _ :: _ => Ok (map (fun j => list_max (column X j)) (seq 0 (n_features X)))
  end.

(** [np.min(X, axis=0)], [X.min(axis=0)] *)
Definition np_min_axis0 (X : matrix) : result (list Q) :=
  match X with
  | [] => Raise (ValueError "zero-size array to reduction operation minimum which has no identity")
  | _ :: _ => Ok (map (fun j => list_min (column X j)) (seq 0 (n_features X)))
  end.

(** [a.astype('float64')] *)
Definition astype_float64 (v : list Q) : list float64 := map Fin v.

(** [v[v == 0] = 1e-14] *)
Definition assign_where_zero (v : list float64) : list float64 :=
  map (fun r => if np_eqb r (Fin 0) then Fin eps else r) v.

(** A Euclidean distance, the square root of a non-negative rational. *)
Inductive dist : Type :=
| Sqrt (radicand : Q).

Definition radicand (d : dist) : Q :=
  match d with Sqrt q => q end.

(** The real number a distance stands for. *)
Definition dist_value (d : dist) : R := sqrt (Q2R (radicand d)).

(** [a <= b] on distances: [sqrt a <= sqrt b] exactly when [a <= b]
    ([dist_leb_sqrt] below). *)
Definition dist_leb (a b : dist) : bool := Qle_bool (radicand a) (radicand b).

Definition sq_diff (a b : float64) : Q :=
  ((fin_val a - fin_val b) * (fin_val a - fin_val b))%Q.

Definition euclidean (a b : list float64) : dist :=
  Sqrt (fold_left Qplus (zip_with sq_diff a b) 0%Q).

(** [sklearn.metrics.pairwise_distances(A)] with its default metric: the
    input is validated (at least one sample and one feature, every entry
    finite), then every pair of rows gets its Euclidean distance. *)
Definition pairwise_distances (A : list (list float64)) : result (list (list dist)) :=
  match A with
  | [] => Raise (ValueError "Found array with 0 sample(s)")
  | [] :: _ => Raise (ValueError "Found array with 0 feature(s)")
  | _ :: _ =>
      if forallb (forallb is_finite) A
      then Ok (map (fun a => map (fun b => euclidean a b) A) A)
      else Raise (ValueError "Input contains NaN or infinity")
  end.

(** [np.column_stack((a, b))] of two one-dimensional arrays. *)
Definition column_stack (a b : list nat) : result (list (nat * nat)) :=
  if length a =? length b
  then Ok (combine a b)
  else Raise (ValueError "all the input array dimensions except for the concatenation axis must match exactly").

(** The type of [np.argsort]: the indices of the keys, in sorted order. *)
Definition argsort_fn : Type :=
  forall A : Type, (A -> A -> bool) -> list A -> list nat.

(* ------------------------------------------------------------------ *)
(** ** The collaborators from [ITMO_FS.utils] *)

Inductive feature_name : Type :=
| Generated (i : nat)
| Named (s : string).

(** Modelled from the spec: [generate_features] of [ITMO_FS.utils] is not
    among the sources.  Features are "addressed by integer index
    0..n_features-1". *)
Definition generate_features (X : matrix) : list nat := seq 0 (n_features X).

(** Modelled from the spec: [DataChecker._check_input] of [ITMO_FS.utils]
    is not among the sources.  It does the "coercion of X/y into numeric
    arrays, alignment checking (len(y) == n_samples), feature-name list
    length checking"; arrays that are already clean pass unchanged. *)
Definition _check_input (X : matrix) (y : list Z) (feature_names : option (list string))
  : result (matrix * list Z * list feature_name) :=
  if negb (forallb (fun row => length row =? n_features X) X)
  then Raise (ValueError "X is not a two-dimensional array")
  else if negb (length y =? n_samples X)
  then Raise (ValueError "X and y have different lengths")
  else match feature_names with
       | None => Ok (X, y, map Generated (generate_features X))
       | Some names =>
           if length names =? n_features X
           then Ok (X, y, map Named names)
           else Raise (ValueError "feature_names has the wrong length")
       end.

(* ------------------------------------------------------------------ *)
(** ** The STIR object *)

(** The attributes of an instance.  [feature_scores] and [top_features]
    are [None] after [__init__]; [feature_names] and [selected_features]
    do not exist until [fit] assigns them ([None] here is "no such
    attribute"). *)
Record STIR : Type := mkSTIR {
  n_features_to_keep : Z;
  feature_scores : option (list float64);
  top_features : option (list nat);
  feature_names : option (list (nat * feature_name));
  selected_features : option (list nat)
}.

Definition __init__ (n_features_to_keep : Z) : STIR :=
  {| n_features_to_keep := n_features_to_keep;
     feature_scores := None;
     top_features := None;
     feature_names := None;
     selected_features := None |}.

Definition set_feature_names (self : STIR) (v : list (nat * feature_name)) : STIR :=
  {| n_features_to_keep := n_features_to_keep self;
     feature_scores := feature_scores self;
     top_features := top_features self;
     feature_names := Some v;
     selected_features := selected_features self |}.

Definition set_feature_scores (self : STIR) (v : list float64) : STIR :=
  {| n_features_to_keep := n_features_to_keep self;
     feature_scores := Some v;
     top_features := top_features self;
     feature_names := feature_names self;
     selected_features := selected_features self |}.

Definition set_selected_features (self : STIR) (v : list nat) : STIR :=
  {| n_features_to_keep := n_features_to_keep self;
     feature_scores := feature_scores self;
     top_features := top_features self;
     feature_names := feature_names self;
     selected_features := Some v |}.

(** A method that reads or assigns attributes of [self]: the object it
    leaves behind is returned next to the result, also when it raises. *)
Definition method (A : Type) : Type := STIR -> result A * STIR.

Definition then_ {A B : Type} (m : method A) (f : A -> method B) : method B :=
  fun self =>
    match m self with
    | (Ok a, self') => f a self'
    | (Raise e, self') => (Raise e, self')
    end.

(* ------------------------------------------------------------------ *)
(** ** The methods of [STIR] *)

Section Model.

Variable argsort : argsort_fn.

(** [max_diff]: the max difference in each column. *)
Definition max_diff (X : matrix) : result (list Q) :=
  mx <- np_max_axis0 X ;;
  mn <- np_min_axis0 X ;;
  Ok (zip_with Qminus mx mn).

(** The range vector of [distance_matrix], lines 63 and 67. *)
Definition scaling_vec (X : matrix) : result (list float64) :=
  d <- max_diff X ;;
  let max_diff_vec := astype_float64 d in
  Ok (assign_where_zero max_diff_vec).

(** [X_centered / max_diff_vec] for [X_centered = X - min_vec]. *)
Definition normalize (X : matrix) (min_vec : list Q) (max_diff_vec : list float64)
  : list (list float64) :=
  let X_centered := map (fun row => zip_with Qminus row min_vec) X in
  map (fun row => zip_with (fun c r => np_div (Fin c) r) row max_diff_vec) X_centered.

Definition distance_matrix (X : matrix) : result (list (list dist)) :=
  d <- max_diff X ;;
  let max_diff_vec := astype_float64 d in
  min_vec <- np_min_axis0 X ;;
  let max_diff_vec := assign_where_zero max_diff_vec in
  let X_scaled := normalize X min_vec max_diff_vec in
  pairwise_distances X_scaled.

(** [nearest] of the loop body: the samples by distance from sample [i]. *)
Definition nearest (distances : list dist) : list nat :=
  argsort dist_leb distances.

(** The body of the loop of [find_neighbors] (lines 104 to 112) for one row
    of the distance matrix: the [k] nearest hits and misses. *)
Definition k_nearest (y : list Z) (k : Z) (distances : list dist)
  : result (list nat * list nat) :=
  let nearest := nearest distances in
  labels <- mapM (py_index y) nearest ;;
  let nearest_matrix := combine nearest labels in
  (* nearest_matrix[0, 1]; the two filters read it once per row of the
     matrix, so it is never read when the matrix has no row *)
  let ref := snd (hd (O, 0%Z) nearest_matrix) in
  let nearest_hits := filter (fun row => (snd row =? ref)%Z) nearest_matrix in
  let nearest_misses := filter (fun row => negb (snd row =? ref)%Z) nearest_matrix in
  let k_nearest_hits := map fst (py_slice 1 (k + 1) nearest_hits) in
  let k_nearest_misses := map fst (py_slice 0 k nearest_misses) in
  Ok (k_nearest_hits, k_nearest_misses).

(** [find_neighbors]: the (sample, hit) pairs and the (sample, miss) pairs.
    The three lists the loop appends to are the concatenations of what each
    sample contributes. *)
Definition find_neighbors (X : matrix) (y : list Z) (k : Z)
  : result (list (nat * nat) * list (nat * nat)) :=
  X_distances <- distance_matrix X ;;
  let num_samples := n_samples X in
  per_sample <- mapM (fun i => distances <- py_index X_distances i ;; k_nearest y k distances)
                     (seq 0 num_samples) ;;
  let indexes := flat_map (fun i => repeat i (Z.to_nat k)) (seq 0 num_samples) in
  let hits := concat (map fst per_sample) in
  let misses := concat (map snd per_sample) in
  hit_pairs <- column_stack indexes hits ;;
  miss_pairs <- column_stack indexes misses ;;
  Ok (hit_pairs, miss_pairs).

(** The range vector of [fit], lines 153 and 154. *)
Definition range_vec (X : matrix) : result (list float64) :=
  d <- max_diff X ;;
  let range_vec := astype_float64 d in
  Ok (assign_where_zero range_vec).

(** [np.abs(a - b) * s] over two arrays of values of one feature. *)
Definition attr_diff (neighbors values : list Q) (s : float64) : list float64 :=
  map (fun d => np_mul (Fin d) s) (zip_with (fun a b => Qabs (a - b)) neighbors values).

(** The body of the loop over the features (lines 167 to 181): the weight
    of one feature. *)
Definition feature_weight (X : matrix) (n_samples : nat) (one_over_range : list float64)
  (hit_index hits miss_index misses : list nat) (feature_index : nat) : result float64 :=
  let attr_values := column X feature_index in
  hit_neighbors <- mapM (py_index attr_values) hits ;;
  miss_neighbors <- mapM (py_index attr_values) misses ;;
  hit_values <- mapM (py_index attr_values) hit_index ;;
  miss_values <- mapM (py_index attr_values) miss_index ;;
  s <- py_index one_over_range feature_index ;;
  let attr_diff_hits := attr_diff hit_neighbors hit_values s in
  let attr_diff_misses := attr_diff miss_neighbors miss_values s in
  let n := Fin (inject_Z (Z.of_nat n_samples)) in
  let mu_hits := np_div (np_sum attr_diff_hits) n in
  let mu_misses := np_div (np_sum attr_diff_misses) n in
  Ok (np_sub mu_misses mu_hits).

(** Lines 155 to 183 of [fit]: the scores, from the neighbours and the
    range vector. *)
Definition aggregate (X : matrix) (neighbors_index : list (nat * nat) * list (nat * nat))
  (range_vec : list float64) (new_features : list nat) : result (list float64) :=
  let n_samples := n_samples X in
  let one_over_range := map (np_div (Fin 1)) range_vec in
  one_over_m <- py_true_div 1 n_samples ;;
  let hit_index := map fst (fst neighbors_index) in
  let hits := map snd (fst neighbors_index) in
  let miss_index := map fst (snd neighbors_index) in
  let misses := map snd (snd neighbors_index) in
  weights <- mapM (feature_weight X n_samples one_over_range hit_index hits miss_index misses)
                  new_features ;;
  Ok (map (fun w => np_mul (np_mul w one_over_m) (Fin 1000)) weights).

(** Lines 148 to 183 of [fit]: the feature scores. *)
Definition compute_scores (X : matrix) (y : list Z) (k : Z) (new_features : list nat)
  : result (list float64) :=
  neighbors_index <- find_neighbors X y k ;;
  range_vec <- range_vec X ;;
  aggregate X neighbors_index range_vec new_features.

(** Line 184 of [fit]:
    [features[np.argsort(scores)[::-1][:n_features_to_keep]]]. *)
Definition select_features (features : list nat) (scores : list float64) (keep : Z)
  : result (list nat) :=
  mapM (py_index features) (py_slice 0 keep (rev (argsort np_leb scores))).

Definition fit (X : matrix) (y : list Z) (feature_names : option (list string)) (k : Z)
  : method unit :=
  fun self =>
    let features := generate_features X in
    match _check_input X y feature_names with
    | Raise e => (Raise e, self)
    | Ok (X, y, feature_names) =>
        let new_features := generate_features X in
        let self := set_feature_names self (combine features feature_names) in
        match compute_scores X y k new_features with
        | Raise e => (Raise e, self)
        | Ok scores =>
            let self := set_feature_scores self scores in
            match select_features features scores (n_features_to_keep self) with
            | Raise e => (Raise e, self)
            | Ok selected => (Ok tt, set_selected_features self selected)
            end
        end
    end.

(** [transform] of a numpy array: [X[:, self.selected_features.astype(int)]]. *)
Definition transform (X : matrix) : method matrix :=
  fun self =>
    match selected_features self with
    | None => (Raise (AttributeError "selected_features"), self)
    | Some selected => (mapM (fun row => mapM (py_index row) selected) X, self)
    end.

Definition fit_transform (X : matrix) (y : list Z) (feature_names : option (list string))
  (k : Z) : method matrix :=
  then_ (fit X y feature_names k) (fun _ => transform X).

End Model.

(* ------------------------------------------------------------------ *)
(** ** A stable argsort *)

(** Insertion of [x] before the first pair it does not exceed. *)
Fixpoint insert_key {A : Type} (leb : A -> A -> bool) (x : A * nat) (l : list (A * nat))
  : list (A * nat) :=
  match l with
  | [] => [x]
  | h :: t => if leb (fst x) (fst h) then x :: l else h :: insert_key leb x t
  end.

Definition sort_keys {A : Type} (leb : A -> A -> bool) (l : list (A * nat)) : list (A * nat) :=
  fold_right (insert_key leb) [] l.

(** An argsort that keeps equal keys in the order of their indices. *)
Definition argsort_stable : argsort_fn :=
  fun A leb keys => map snd (sort_keys leb (combine keys (seq 0 (length keys)))).

(** An argsort that puts equal keys in the reverse order of their indices. *)
Definition argsort_last_first : argsort_fn :=
  fun A leb keys => map snd (sort_keys leb (rev (combine keys (seq 0 (length keys))))).

(* ------------------------------------------------------------------ *)
(** ** The contract of [np.argsort] *)

Definition total_preorder {A : Type} (leb : A -> A -> bool) : Prop :=
  (forall a b, leb a b = true \/ leb b a = true) /\
  (forall a b c, leb a b = true -> leb b c = true -> leb a c = true).

(** The keys, read in the given order, never decrease. *)
Definition ascending {A : Type} (leb : A -> A -> bool) (keys : list A) (order : list nat)
  : Prop :=
  forall p q i j a b,
    p <= q ->
    nth_error order p = Some i -> nth_error order q = Some j ->
    nth_error keys i = Some a -> nth_error keys j = Some b ->
    leb a b = true.

(** What numpy documents of [argsort] with its default kind: the result is
    a permutation of the indices and sorts the keys; nothing is promised
    about equal keys. *)
Definition argsort_spec (argsort : argsort_fn) : Prop :=
  forall (A : Type) (leb : A -> A -> bool) (keys : list A),
    Permutation (argsort A leb keys) (seq 0 (length keys)) /\
    (total_preorder leb -> ascending leb keys (argsort A leb keys)).

(** Equal keys come in the order of their indices. *)
Definition ties_by_index {A : Type} (leb : A -> A -> bool) (keys : list A) (order : list nat)
  : Prop :=
  forall p q i j a b,
    p < q ->
    nth_error order p = Some i -> nth_error order q = Some j ->
    nth_error keys i = Some a -> nth_error keys j = Some b ->
    leb b a = true -> i < j.

(* ------------------------------------------------------------------ *)
(** ** The quantities of the specification *)

(** [X[s, f]] *)
Definition entry (X : matrix) (s f : nat) : Q := nth f (nth s X []) 0%Q.

(** [max(X[:,f]) - min(X[:,f])] *)
Definition col_range (X : matrix) (f : nat) : Q :=
  (list_max (column X f) - list_min (column X f))%Q.

(** [range_f]: max minus min of feature [f], or [1e-14] when that is 0. *)
Definition spec_range (X : matrix) (f : nat) : Q :=
  let r := col_range X f in
  if Qeq_bool r 0 then eps else r.

Definition Qsum (l : list Q) : Q := fold_right Qplus 0%Q l.

(** [mu_hit[f]] (or [mu_miss[f]]): the sum over the (sample, neighbour)
    pairs of [|X[sample,f] - X[neighbour,f]| / range_f], divided by
    [n_samples]. *)
Definition spec_mu (X : matrix) (pairs : list (nat * nat)) (f : nat) : Q :=
  (Qsum (map (fun p => Qabs (entry X (fst p) f - entry X (snd p) f) / spec_range X f) pairs)
   / inject_Z (Z.of_nat (n_samples X)))%Q.

(** [score[f] = (mu_miss[f] - mu_hit[f]) / n_samples * 1000] *)
Definition spec_score (X : matrix) (hit_pairs miss_pairs : list (nat * nat)) (f : nat) : Q :=
  ((spec_mu X miss_pairs f - spec_mu X hit_pairs f)
   / inject_Z (Z.of_nat (n_samples X)) * 1000)%Q.

(** The square of the distance of samples [i] and [j] in closed form:
    the sum over the features of [((X[i,f] - X[j,f]) / range_f)^2]. *)
Definition spec_sq_distance (X : matrix) (i j : nat) : Q :=
  Qsum (map (fun f => let t := ((entry X i f - entry X j f) / spec_range X f)%Q in
                      (t * t)%Q)
            (seq 0 (n_features X))).

Definition count_label (y : list Z) (c : Z) : nat :=
  length (filter (fun l => (l =? c)%Z) y).

(** The rows of [nearest_matrix]: an index of [order] next to its label. *)
Definition labelled (y : list Z) (order : list nat) : list (nat * Z) :=
  map (fun j => (j, nth j y 0%Z)) order.

(** The neighbour precondition: every class has at least [k + 1] members,
    and next to every class there is another one with at least [k]. *)
Definition neighbor_precondition (y : list Z) (k : Z) : Prop :=
  (0 <= k)%Z /\
  forall c, In c y ->
    (k + 1 <= Z.of_nat (count_label y c))%Z /\
    exists c', c' <> c /\ (k <= Z.of_nat (count_label y c'))%Z.

(** Arrays as the validation leaves them: a matrix with at least one
    sample and one feature, one label per sample, one name per feature. *)
Definition clean_input (X : matrix) (y : list Z) (names : option (list string)) : Prop :=
  0 < n_samples X /\ 0 < n_features X /\
  Forall (fun row => length row = n_features X) X /\
  length y = n_samples X /\
  match names with None => True | Some l => length l = n_features X end.

(** The hit list and the miss list of sample [i] in the pairs that
    [find_neighbors] returns. *)
Definition neighbors_of (pairs : list (nat * nat)) (i : nat) : list nat :=
  map snd (filter (fun p => fst p =? i) pairs).

(* ------------------------------------------------------------------ *)
(** ** Concrete inputs *)

(** Four samples of one feature; samples 0 and 1 coincide. *)
Definition X_dup : matrix := [[0]; [0]; [1]; [1]]%Q.

Definition y_alt : list Z := [1; -1; 1; -1]%Z.

Definition y_blocks : list Z := [1; 1; -1; -1]%Z.

(** Two features with the same values. *)
Definition X_twin : matrix := [[0; 0]; [0; 0]; [1; 1]; [1; 1]]%Q.

(** The scenario of the specification, with a constant third feature. *)
Definition X_demo : matrix := [[0; 1; 7]; [1; 1; 7]; [0; 0; 7]; [1; 0; 7]]%Q.

Definition X_single : matrix := [[5]]%Q.

(** Labels with a class of one member. *)
Definition y_lone : list Z := [1; 1; 1; -1]%Z.

(** [X_dup] in another unit: every value [x] became [2 * x + 3]. *)
Definition X_dup_shifted : matrix := [[3]; [3]; [5]; [5]]%Q.

(** The distance matrix of [X_dup]. *)
Definition D_dup : list (list dist) :=
  [[Sqrt 0; Sqrt 0; Sqrt 1; Sqrt 1]; [Sqrt 0; Sqrt 0; Sqrt 1; Sqrt 1];
   [Sqrt 1; Sqrt 1; Sqrt 0; Sqrt 0]; [Sqrt 1; Sqrt 1; Sqrt 0; Sqrt 0]].

(* ================================================================== *)
(** * Properties *)

Unset Implicit Arguments.

(* ------------------------------------------------------------------ *)
(** ** Lists and exceptions *)

Lemma bind_ok_inv {A B : Type} (r : result A) (f : A -> result B) (b : B) :
  bind r f = Ok b -> exists a, r = Ok a /\ f a = Ok b.
Proof.
  destruct r as [a | e]; simpl; intros H; [exists a; auto | discriminate].
Qed.

Lemma py_index_ok {A : Type} (l : list A) (i : nat) (d : A) :
  i < length l -> py_index l i = Ok (nth i l d).
Proof.
  intros H. unfold py_index. rewrite (nth_error_nth' l d H). reflexivity.
Qed.

Lemma py_index_inv {A : Type} (l : list A) (i : nat) (a : A) :
  py_index l i = Ok a -> nth_error l i = Some a.
Proof.
  unfold py_index. destruct (nth_error l i); intros H; inversion H; reflexivity.
Qed.

Lemma mapM_ok_map {A B : Type} (f : A -> result B) (g : A -> B) (l : list A) :
  (forall x, In x l -> f x = Ok (g x)) -> mapM f l = Ok (map g l).
Proof.
  induction l as [| x l IH]; intros H; simpl; [reflexivity |].
  rewrite (H x (or_introl eq_refl)). simpl.
  rewrite IH by (intros z Hz; apply H; right; exact Hz). reflexivity.
Qed.

Lemma mapM_inv {A B : Type} (f : A -> result B) (l : list A) (r : list B) :
  mapM f l = Ok r -> Forall2 (fun x b => f x = Ok b) l r.
Proof.
  revert r. induction l as [| x l IH]; simpl; intros r H.
  - inversion H. constructor.
  - apply bind_ok_inv in H. destruct H as [b [Hb H]].
    apply bind_ok_inv in H. destruct H as [bs [Hbs H]].
    inversion H; subst. constructor; auto.
Qed.

Lemma mapM_In_inv {A B : Type} (f : A -> result B) (l : list A) (r : list B) (b : B) :
  mapM f l = Ok r -> In b r -> exists x, In x l /\ f x = Ok b.
Proof.
  intros H. apply mapM_inv in H.
  induction H as [| x b' l r Hx _ IH]; intros Hb; [contradiction |].
  destruct Hb as [-> | Hb].
  - exists x. split; [left; reflexivity | exact Hx].
  - destruct (IH Hb) as [x' [Hin Hx']]. exists x'. split; [right; exact Hin | exact Hx'].
Qed.

Lemma mapM_length {A B : Type} (f : A -> result B) (l : list A) (r : list B) :
  mapM f l = Ok r -> length r = length l.
Proof.
  intros H. apply mapM_inv in H. symmetry. exact (Forall2_length H).
Qed.

Lemma zip_with_length {A B C : Type} (f : A -> B -> C) (l : list A) (m : list B) :
  length (zip_with f l m) = Nat.min (length l) (length m).
Proof.
  revert m. induction l as [| a l IH]; intros [| b m]; simpl; auto.
Qed.

Lemma zip_with_nth_error {A B C : Type} (f : A -> B -> C) (l : list A) (m : list B)
  (j : nat) (c : C) :
  nth_error (zip_with f l m) j = Some c ->
  exists a b, nth_error l j = Some a /\ nth_error m j = Some b /\ c = f a b.
Proof.
  revert m j. induction l as [| a l IH]; intros [| b m] [| j]; simpl; intros H;
    try discriminate.
  - inversion H. exists a, b. auto.
  - apply IH in H. exact H.
Qed.

Lemma zip_with_map_pairs {A B C : Type} (f : B -> B -> C) (g : A -> B) (h k : (A * A) -> A)
  (l : list (A * A)) :
  zip_with f (map g (map h l)) (map g (map k l)) = map (fun p => f (g (h p)) (g (k p))) l.
Proof.
  induction l as [| p l IH]; simpl; [reflexivity | rewrite IH; reflexivity].
Qed.

Lemma py_slice_prefix {A : Type} (stop : Z) (l : list A) :
  exists m, py_slice 0 stop l = firstn m l.
Proof.
  unfold py_slice. exists (Z.to_nat (py_clamp (Z.of_nat (length l)) stop - 0)).
  replace (py_clamp (Z.of_nat (length l)) 0) with 0%Z.
  - reflexivity.
  - unfold py_clamp. simpl. lia.
Qed.

Lemma py_slice_prefix_eq {A : Type} (stop : Z) (l : list A) :
  (0 <= stop)%Z -> py_slice 0 stop l = firstn (Z.to_nat stop) l.
Proof.
  intros H. unfold py_slice, py_clamp.
  destruct (Z.ltb_spec stop 0); [lia |]. change (0 <? 0)%Z with false. cbv iota.
  replace (Z.min 0 (Z.of_nat (length l))) with 0%Z by lia.
  rewrite Z.sub_0_r. cbn [Z.to_nat skipn].
  destruct (Z.le_ge_cases stop (Z.of_nat (length l))) as [Hle | Hge].
  - f_equal. lia.
  - rewrite !firstn_all2 by lia. reflexivity.
Qed.

Lemma py_slice_prefix_length {A : Type} (stop : Z) (l : list A) :
  (0 <= stop)%Z ->
  Z.of_nat (length (py_slice 0 stop l)) = Z.min stop (Z.of_nat (length l)).
Proof.
  intros H. unfold py_slice.
  rewrite length_firstn, length_skipn. unfold py_clamp.
  destruct (Z.ltb_spec stop 0); [lia |]. simpl. lia.
Qed.

Lemma py_slice_tail_length {A : Type} (k : Z) (l : list A) :
  (0 <= k)%Z -> (k + 1 <= Z.of_nat (length l))%Z ->
  length (py_slice 1 (k + 1) l) = Z.to_nat k.
Proof.
  intros H0 H1. unfold py_slice.
  rewrite length_firstn, length_skipn. unfold py_clamp.
  destruct (Z.ltb_spec (k + 1) 0); [lia |]. simpl. lia.
Qed.

Lemma In_firstn {A : Type} (n : nat) (l : list A) (x : A) :
  In x (firstn n l) -> In x l.
Proof.
  intros H. rewrite <- (firstn_skipn n l). apply in_or_app. left. exact H.
Qed.

Lemma In_skipn {A : Type} (n : nat) (l : list A) (x : A) :
  In x (skipn n l) -> In x l.
Proof.
  intros H. rewrite <- (firstn_skipn n l). apply in_or_app. right. exact H.
Qed.

Lemma py_slice_from_one {A : Type} (stop : Z) (a : A) (l : list A) (x : A) :
  In x (py_slice 1 stop (a :: l)) -> In x l.
Proof.
  unfold py_slice. intros H. apply In_firstn in H.
  replace (Z.to_nat (py_clamp (Z.of_nat (length (a :: l))) 1)) with 1 in H.
  - exact H.
  - unfold py_clamp. cbn [Z.ltb Z.compare length]. lia.
Qed.

Lemma py_slice_incl {A : Type} (start stop : Z) (l : list A) (x : A) :
  In x (py_slice start stop l) -> In x l.
Proof.
  unfold py_slice. intros H. apply In_firstn in H. apply In_skipn in H. exact H.
Qed.

(* ------------------------------------------------------------------ *)
(** ** The two argsorts meet the contract *)

Section SortKeys.

Context (A : Type) (leb : A -> A -> bool).

Let key_le (x y : A * nat) : Prop := leb (fst x) (fst y) = true.

Lemma insert_key_perm (x : A * nat) (l : list (A * nat)) :
  Permutation (insert_key leb x l) (x :: l).
Proof.
  induction l as [| h t IH]; simpl; [apply Permutation_refl |].
  destruct (leb (fst x) (fst h)).
  - apply Permutation_refl.
  - eapply perm_trans; [apply perm_skip; exact IH | apply perm_swap].
Qed.

Lemma sort_keys_perm (l : list (A * nat)) : Permutation (sort_keys leb l) l.
Proof.
  induction l as [| x l IH]; simpl; [constructor |].
  eapply perm_trans; [apply insert_key_perm | apply perm_skip; exact IH].
Qed.

Lemma insert_key_sorted (x : A * nat) (l : list (A * nat)) :
  total_preorder leb ->
  StronglySorted key_le l -> StronglySorted key_le (insert_key leb x l).
Proof.
  intros [Htot Htrans] Hs. induction Hs as [| h t Hs IH Hall]; simpl.
  - repeat constructor.
  - destruct (leb (fst x) (fst h)) eqn:E.
    + constructor; [constructor; assumption |].
      constructor; [exact E |].
      rewrite Forall_forall in *. intros z Hz.
      unfold key_le in *. eapply Htrans; [exact E | apply Hall; exact Hz].
    + constructor; [exact IH |].
      rewrite Forall_forall in *. intros z Hz.
      apply (Permutation_in _ (insert_key_perm x t)) in Hz.
      destruct Hz as [<- | Hz]; [| apply Hall; exact Hz].
      unfold key_le. destruct (Htot (fst x) (fst h)) as [H | H]; congruence.
Qed.

Lemma sort_keys_sorted (l : list (A * nat)) :
  total_preorder leb -> StronglySorted key_le (sort_keys leb l).
Proof.
  intros H. induction l as [| x l IH]; simpl; [constructor |].
  apply insert_key_sorted; assumption.
Qed.

Lemma StronglySorted_nth_error (R : A * nat -> A * nat -> Prop) (l : list (A * nat))
  (p q : nat) (x y : A * nat) :
  StronglySorted R l -> p < q ->
  nth_error l p = Some x -> nth_error l q = Some y -> R x y.
Proof.
  intros Hs. revert p q. induction Hs as [| h t Hs IH Hall]; intros p q Hpq Hx Hy.
  - destruct p; discriminate.
  - destruct q as [| q]; [lia |]. simpl in Hy. destruct p as [| p]; simpl in Hx.
    + inversion Hx; subst. rewrite Forall_forall in Hall.
      apply Hall. eapply nth_error_In; exact Hy.
    + apply (IH p q); [lia | assumption | assumption].
Qed.

Lemma combine_seq_lookup (keys : list A) (s : nat) (a : A) (i : nat) :
  In (a, i) (combine keys (seq s (length keys))) ->
  s <= i /\ nth_error keys (i - s) = Some a.
Proof.
  revert s. induction keys as [| k keys IH]; simpl; intros s H; [contradiction |].
  destruct H as [H | H].
  - inversion H; subst. rewrite Nat.sub_diag. split; [lia | reflexivity].
  - apply IH in H. destruct H as [Hle Hn]. split; [lia |].
    replace (i - s) with (S (i - S s)) by lia. exact Hn.
Qed.

Lemma map_snd_combine_seq (keys : list A) (s : nat) :
  map snd (combine keys (seq s (length keys))) = seq s (length keys).
Proof.
  revert s. induction keys as [| k keys IH]; simpl; intros s; [reflexivity |].
  rewrite IH. reflexivity.
Qed.

(** Sorting any arrangement of the (key, index) pairs gives an argsort. *)
Lemma sort_keys_argsort (keys : list A) (l : list (A * nat)) :
  Permutation l (combine keys (seq 0 (length keys))) ->
  Permutation (map snd (sort_keys leb l)) (seq 0 (length keys)) /\
  (total_preorder leb -> ascending leb keys (map snd (sort_keys leb l))).
Proof.
  intros Hl. split.
  - rewrite <- (map_snd_combine_seq keys 0).
    apply Permutation_map. eapply perm_trans; [apply sort_keys_perm | exact Hl].
  - intros Hord p q i j a b Hpq Hi Hj Ha Hb.
    rewrite nth_error_map in Hi, Hj.
    destruct (nth_error (sort_keys leb l) p) as [[a' i'] |] eqn:Ep; [| discriminate].
    destruct (nth_error (sort_keys leb l) q) as [[b' j'] |] eqn:Eq; [| discriminate].
    simpl in Hi, Hj. inversion Hi; inversion Hj; subst i' j'.
    assert (Hin : forall x, In x (sort_keys leb l) ->
                            In x (combine keys (seq 0 (length keys)))).
    { intros x Hx. eapply Permutation_in; [exact Hl |].
      eapply Permutation_in; [apply sort_keys_perm | exact Hx]. }
    pose proof (combine_seq_lookup keys 0 a' i (Hin _ (nth_error_In _ _ Ep))) as [_ Ha'].
    pose proof (combine_seq_lookup keys 0 b' j (Hin _ (nth_error_In _ _ Eq))) as [_ Hb'].
    rewrite Nat.sub_0_r in Ha', Hb'.
    assert (a' = a) by congruence. assert (b' = b) by congruence. subst a' b'.
    destruct (Nat.eq_dec p q) as [-> | Hne].
    + assert (a = b) by congruence. subst b.
      destruct Hord as [Htot _]. destruct (Htot a a); assumption.
    + apply (StronglySorted_nth_error key_le (sort_keys leb l) p q (a, i) (b, j));
        [apply sort_keys_sorted; exact Hord | lia | exact Ep | exact Eq].
Qed.

End SortKeys.

Lemma argsort_stable_spec : argsort_spec argsort_stable.
Proof.
  intros A leb keys. unfold argsort_stable.
  apply sort_keys_argsort. apply Permutation_refl.
Qed.

Lemma argsort_last_first_spec : argsort_spec argsort_last_first.
Proof.
  intros A leb keys. unfold argsort_last_first.
  apply sort_keys_argsort. apply Permutation_sym, Permutation_rev.
Qed.

(* ------------------------------------------------------------------ *)
(** ** Numbers *)

Lemma Qle_bool_total (x y : Q) : Qle_bool x y = true \/ Qle_bool y x = true.
Proof.
  rewrite !Qle_bool_iff. destruct (Qlt_le_dec x y) as [H | H].
  - left. apply Qlt_le_weak. exact H.
  - right. exact H.
Qed.

Lemma Qle_bool_trans (x y z : Q) :
  Qle_bool x y = true -> Qle_bool y z = true -> Qle_bool x z = true.
Proof.
  rewrite !Qle_bool_iff. apply Qle_trans.
Qed.

Lemma dist_leb_total_preorder : total_preorder dist_leb.
Proof.
  split.
  - intros a b. apply Qle_bool_total.
  - intros a b c. apply Qle_bool_trans.
Qed.

(** Comparing two distances by their radicands is comparing the square
    roots. *)
Lemma dist_leb_sqrt (a b : dist) :
  (0 <= radicand a)%Q -> (0 <= radicand b)%Q ->
  (dist_leb a b = true <-> (dist_value a <= dist_value b)%R).
Proof.
  intros Ha Hb. unfold dist_leb, dist_value. rewrite Qle_bool_iff.
  apply Qle_Rle in Ha, Hb. rewrite RMicromega.Q2R_0 in Ha, Hb. split.
  - intros H. apply sqrt_le_1_alt. apply Qle_Rle. exact H.
  - intros H. apply Rle_Qle. apply sqrt_le_0; assumption.
Qed.

Lemma np_leb_total_preorder : total_preorder np_leb.
Proof.
  split.
  - intros [x | | |] [y | | |]; simpl; auto using Qle_bool_total.
  - intros [x | | |] [y | | |] [z | | |]; simpl; auto; try discriminate.
    apply Qle_bool_trans.
Qed.

Lemma np_div_fin (c q : Q) :
  Qeq_bool q 0 = false -> np_div (Fin c) (Fin q) = Fin (c / q).
Proof.
  intros H. simpl. rewrite H. reflexivity.
Qed.

(** After the zero guard every range is a finite, non-zero number. *)
Lemma guard_nonzero (d : list Q) (r : float64) :
  In r (assign_where_zero (astype_float64 d)) ->
  exists q, r = Fin q /\ Qeq_bool q 0 = false.
Proof.
  unfold assign_where_zero, astype_float64. rewrite map_map.
  intros H. apply in_map_iff in H. destruct H as [x [Hx _]].
  simpl in Hx. destruct (Qeq_bool x 0) eqn:E.
  - exists eps. split; [symmetry; exact Hx | reflexivity].
  - exists x. split; [symmetry; exact Hx | exact E].
Qed.

Lemma guard_length (d : list Q) :
  length (assign_where_zero (astype_float64 d)) = length d.
Proof.
  unfold assign_where_zero, astype_float64. rewrite !length_map. reflexivity.
Qed.

Lemma guard_nth_error (d : list Q) (j : nat) :
  nth_error (assign_where_zero (astype_float64 d)) j =
  option_map (fun r => Fin (if Qeq_bool r 0 then eps else r)) (nth_error d j).
Proof.
  unfold assign_where_zero, astype_float64. rewrite map_map, nth_error_map.
  destruct (nth_error d j) as [r |]; simpl; [| reflexivity].
  destruct (Qeq_bool r 0); reflexivity.
Qed.

Lemma fold_np_add_fin (qs : list Q) (a : Q) :
  fold_left np_add (map Fin qs) (Fin a) = Fin (fold_left Qplus qs a).
Proof.
  revert a. induction qs as [| q qs IH]; intros a; simpl; [reflexivity | apply IH].
Qed.

Lemma np_sum_fin (qs : list Q) : np_sum (map Fin qs) = Fin (fold_left Qplus qs 0%Q).
Proof.
  apply fold_np_add_fin.
Qed.

Lemma fold_left_Qplus (qs : list Q) (a : Q) :
  (fold_left Qplus qs a == a + Qsum qs)%Q.
Proof.
  revert a. induction qs as [| q qs IH]; intros a; simpl.
  - ring.
  - rewrite IH. ring.
Qed.

Lemma Qsum_ext {A : Type} (f g : A -> Q) (l : list A) :
  (forall x, In x l -> (f x == g x)%Q) -> (Qsum (map f l) == Qsum (map g l))%Q.
Proof.
  induction l as [| x l IH]; intros H; simpl; [reflexivity |].
  rewrite (H x (or_introl eq_refl)), IH; [reflexivity |].
  intros z Hz. apply H. right. exact Hz.
Qed.

Lemma Qsum_nonneg (l : list Q) :
  (forall x, In x l -> (0 <= x)%Q) -> (0 <= Qsum l)%Q.
Proof.
  induction l as [| x l IH]; intros H; simpl; [apply Qle_refl |].
  replace 0%Q with (0 + 0)%Q by reflexivity.
  apply Qplus_le_compat; [apply H; left; reflexivity |].
  apply IH. intros z Hz. apply H. right. exact Hz.
Qed.

Lemma Qsum_zero (l : list Q) :
  (forall x, In x l -> (x == 0)%Q) -> (Qsum l == 0)%Q.
Proof.
  induction l as [| x l IH]; intros H; simpl; [reflexivity |].
  rewrite (H x (or_introl eq_refl)), IH; [ring |].
  intros z Hz. apply H. right. exact Hz.
Qed.

(* ------------------------------------------------------------------ *)
(** ** Column maxima and minima *)

Lemma fold_Qmax_ge (l : list Q) (x : Q) :
  (x <= fold_left Qmax l x)%Q /\ forall z, In z l -> (z <= fold_left Qmax l x)%Q.
Proof.
  revert x. induction l as [| y l IH]; intros x; simpl.
  - split; [apply Qle_refl | contradiction].
  - destruct (IH (Qmax x y)) as [H1 H2]. split.
    + eapply Qle_trans; [apply Q.le_max_l | exact H1].
    + intros z [<- | Hz]; [| apply H2; exact Hz].
      eapply Qle_trans; [apply Q.le_max_r | exact H1].
Qed.

Lemma fold_Qmin_le (l : list Q) (x : Q) :
  (fold_left Qmin l x <= x)%Q /\ forall z, In z l -> (fold_left Qmin l x <= z)%Q.
Proof.
  revert x. induction l as [| y l IH]; intros x; simpl.
  - split; [apply Qle_refl | contradiction].
  - destruct (IH (Qmin x y)) as [H1 H2]. split.
    + eapply Qle_trans; [exact H1 | apply Q.le_min_l].
    + intros z [<- | Hz]; [| apply H2; exact Hz].
      eapply Qle_trans; [exact H1 | apply Q.le_min_r].
Qed.

Lemma list_max_ge (c : list Q) (x : Q) : In x c -> (x <= list_max c)%Q.
Proof.
  destruct c as [| h t]; simpl; [contradiction |].
  destruct (fold_Qmax_ge t h) as [H1 H2].
  intros [<- | H]; [exact H1 | apply H2; exact H].
Qed.

Lemma list_min_le (c : list Q) (x : Q) : In x c -> (list_min c <= x)%Q.
Proof.
  destruct c as [| h t]; simpl; [contradiction |].
  destruct (fold_Qmin_le t h) as [H1 H2].
  intros [<- | H]; [exact H1 | apply H2; exact H].
Qed.

(** In a column whose range is zero every value is the minimum. *)
Lemma zero_range_constant (c : list Q) (x : Q) :
  (list_max c - list_min c == 0)%Q -> In x c -> (x - list_min c == 0)%Q.
Proof.
  intros H Hx.
  pose proof (list_max_ge c x Hx) as Hmax.
  pose proof (list_min_le c x Hx) as Hmin.
  assert (Heq : (list_max c == list_min c)%Q).
  { rewrite <- (Qplus_0_r (list_min c)), <- H. ring. }
  rewrite Heq in Hmax.
  assert (x == list_min c)%Q by (apply Qle_antisym; assumption).
  rewrite H0. ring.
Qed.

(* ------------------------------------------------------------------ *)
(** ** The range vector and the distance matrix *)

Lemma zip_with_map_same {A B C D : Type} (f : B -> C -> D) (g : A -> B) (h : A -> C)
  (l : list A) :
  zip_with f (map g l) (map h l) = map (fun x => f (g x) (h x)) l.
Proof.
  induction l as [| x l IH]; simpl; [reflexivity | rewrite IH; reflexivity].
Qed.

Lemma max_diff_ok (X : matrix) :
  0 < n_samples X -> max_diff X = Ok (map (col_range X) (seq 0 (n_features X))).
Proof.
  unfold max_diff, np_max_axis0, np_min_axis0, n_samples.
  destruct X as [| r X']; simpl length; [lia |]. intros _.
  cbn [bind]. rewrite zip_with_map_same. reflexivity.
Qed.

Lemma max_diff_length (X : matrix) (d : list Q) :
  max_diff X = Ok d -> length d = n_features X /\ 0 < n_samples X.
Proof.
  destruct X as [| r X'].
  - discriminate.
  - rewrite max_diff_ok by (simpl; lia). intros H. inversion H.
    rewrite length_map, length_seq. simpl. split; [reflexivity | lia].
Qed.

Lemma range_vec_ok (X : matrix) :
  0 < n_samples X ->
  range_vec X = Ok (map (fun j => Fin (spec_range X j)) (seq 0 (n_features X))).
Proof.
  intros H. unfold range_vec. rewrite (max_diff_ok X H). cbn [bind].
  unfold assign_where_zero, astype_float64. rewrite !map_map. f_equal.
  apply map_ext. intros j. unfold spec_range. simpl.
  destruct (Qeq_bool (col_range X j) 0); reflexivity.
Qed.

Lemma normalize_finite (X : matrix) (mn d : list Q) :
  forallb (forallb is_finite) (normalize X mn (assign_where_zero (astype_float64 d))) = true.
Proof.
  unfold normalize. rewrite map_map. apply forallb_forall. intros row Hrow.
  apply in_map_iff in Hrow. destruct Hrow as [r [<- _]].
  apply forallb_forall. intros z Hz.
  destruct (In_nth_error _ _ Hz) as [j Hj].
  apply zip_with_nth_error in Hj. destruct Hj as [c [g [_ [Hg ->]]]].
  apply nth_error_In in Hg. apply guard_nonzero in Hg.
  destruct Hg as [q [-> Hq]]. rewrite np_div_fin by exact Hq. reflexivity.
Qed.

Lemma normalize_length (X : matrix) (mn : list Q) (v : list float64) :
  length (normalize X mn v) = n_samples X.
Proof.
  unfold normalize, n_samples. rewrite !length_map. reflexivity.
Qed.

(** The shape of what [pairwise_distances] returns. *)
Lemma pairwise_distances_inv (S : list (list float64)) (D : list (list dist)) :
  pairwise_distances S = Ok D -> D = map (fun a => map (fun b => euclidean a b) S) S.
Proof.
  unfold pairwise_distances. destruct S as [| [| z r] S']; try discriminate.
  destruct (forallb _ _); [| discriminate]. intros H. inversion H. reflexivity.
Qed.

Lemma distance_matrix_inv (X : matrix) (D : list (list dist)) :
  distance_matrix X = Ok D ->
  exists S, length S = n_samples X /\ D = map (fun a => map (fun b => euclidean a b) S) S.
Proof.
  unfold distance_matrix. intros H.
  apply bind_ok_inv in H. destruct H as [d [_ H]].
  apply bind_ok_inv in H. destruct H as [mn [_ H]].
  eexists. split; [| apply pairwise_distances_inv; exact H].
  apply normalize_length.
Qed.

Lemma np_min_axis0_ok (X : matrix) :
  0 < n_samples X ->
  np_min_axis0 X = Ok (map (fun j => list_min (column X j)) (seq 0 (n_features X))).
Proof.
  destruct X as [| r X']; simpl; [lia | reflexivity].
Qed.

Lemma normalize_hd_length (X : matrix) (mn : list Q) (v : list float64) :
  length (hd [] (normalize X mn v)) =
  Nat.min (Nat.min (n_features X) (length mn)) (length v).
Proof.
  unfold normalize, n_features. destruct X as [| r X']; simpl; [reflexivity |].
  rewrite !zip_with_length. reflexivity.
Qed.

Lemma distance_matrix_ok (X : matrix) :
  0 < n_samples X -> 0 < n_features X ->
  exists S, length S = n_samples X /\
            distance_matrix X = Ok (map (fun a => map (fun b => euclidean a b) S) S).
Proof.
  intros Hn Hm. unfold distance_matrix.
  rewrite (max_diff_ok X Hn), (np_min_axis0_ok X Hn). cbn [bind].
  set (mn := map _ (seq 0 (n_features X))).
  set (v := assign_where_zero _).
  exists (normalize X mn v). split; [apply normalize_length |].
  pose proof (normalize_length X mn v) as HL.
  pose proof (normalize_hd_length X mn v) as HH.
  pose proof (normalize_finite X mn (map (col_range X) (seq 0 (n_features X)))) as HF.
  fold v in HF.
  assert (Hv : length v = n_features X).
  { subst v. rewrite guard_length, length_map, length_seq. reflexivity. }
  assert (Hmn : length mn = n_features X).
  { subst mn. rewrite length_map, length_seq. reflexivity. }
  rewrite Hv, Hmn in HH.
  unfold pairwise_distances.
  destruct (normalize X mn v) as [| [| z row] S'].
  - simpl in HL. lia.
  - simpl in HH. lia.
  - rewrite HF. reflexivity.
Qed.

Lemma Qsquare_nonneg (x : Q) : (0 <= x * x)%Q.
Proof.
  unfold Qle, Qmult. simpl. nia.
Qed.

Lemma fold_Qplus_nonneg (l : list Q) (a : Q) :
  (0 <= a)%Q -> (forall x, In x l -> (0 <= x)%Q) -> (0 <= fold_left Qplus l a)%Q.
Proof.
  intros Ha Hl. rewrite fold_left_Qplus.
  replace 0%Q with (0 + 0)%Q by reflexivity.
  apply Qplus_le_compat; [exact Ha | apply Qsum_nonneg; exact Hl].
Qed.

Lemma euclidean_nonneg (a b : list float64) : (0 <= radicand (euclidean a b))%Q.
Proof.
  unfold euclidean. simpl. apply fold_Qplus_nonneg; [apply Qle_refl |].
  intros x Hx. destruct (In_nth_error _ _ Hx) as [j Hj].
  apply zip_with_nth_error in Hj. destruct Hj as [u [w [_ [_ ->]]]].
  unfold sq_diff. apply Qsquare_nonneg.
Qed.

Lemma euclidean_self (a : list float64) : (radicand (euclidean a a) == 0)%Q.
Proof.
  unfold euclidean. simpl. rewrite fold_left_Qplus, Qsum_zero; [ring |].
  intros x Hx. destruct (In_nth_error _ _ Hx) as [j Hj].
  apply zip_with_nth_error in Hj. destruct Hj as [u [w [Hu [Hw ->]]]].
  assert (u = w) by congruence. subst w. unfold sq_diff. ring.
Qed.

(* ------------------------------------------------------------------ *)
(** ** Counting labels *)

Lemma map_nth_seq_id {A : Type} (l : list A) (d : A) :
  map (fun j => nth j l d) (seq 0 (length l)) = l.
Proof.
  induction l as [| x l IH]; simpl; [reflexivity |].
  rewrite <- seq_shift, map_map. simpl. rewrite IH. reflexivity.
Qed.

Lemma filter_length_perm {A : Type} (p : A -> bool) (l l' : list A) :
  Permutation l l' -> length (filter p l) = length (filter p l').
Proof.
  induction 1 as [| x l l' _ IH | x z l | l l' l'' _ IH1 _ IH2]; simpl.
  - reflexivity.
  - destruct (p x); simpl; rewrite IH; reflexivity.
  - destruct (p x), (p z); reflexivity.
  - rewrite IH1. exact IH2.
Qed.

Lemma filter_map_length {A B : Type} (p : B -> bool) (f : A -> B) (l : list A) :
  length (filter (fun x => p (f x)) l) = length (filter p (map f l)).
Proof.
  induction l as [| x l IH]; simpl; [reflexivity |].
  destruct (p (f x)); simpl; rewrite IH; reflexivity.
Qed.

(** Labelling a permutation of the samples and keeping the rows that pass
    a test on the label counts the labels that pass it. *)
Lemma labelled_filter_length (y : list Z) (order : list nat) (p : Z -> bool) :
  Permutation order (seq 0 (length y)) ->
  length (filter (fun row => p (snd row)) (labelled y order)) = length (filter p y).
Proof.
  intros H. rewrite (filter_map_length p snd). unfold labelled. rewrite map_map. simpl.
  rewrite (filter_length_perm p _ _ (Permutation_map (fun j => nth j y 0%Z) H)).
  rewrite map_nth_seq_id. reflexivity.
Qed.

Lemma count_other_label (y : list Z) (c c' : Z) :
  c' <> c -> count_label y c' <= length (filter (fun l => negb (l =? c)%Z) y).
Proof.
  intros Hne. unfold count_label. induction y as [| l y IH]; simpl; [lia |].
  destruct (Z.eqb_spec l c'), (Z.eqb_spec l c); simpl; lia.
Qed.

Lemma count_label_pos (y : list Z) (c : Z) : In c y -> 0 < count_label y c.
Proof.
  unfold count_label. induction y as [| l y IH]; simpl; [contradiction |].
  intros [-> | H].
  - rewrite Z.eqb_refl. simpl. lia.
  - destruct (l =? c)%Z; simpl; [lia | apply IH; exact H].
Qed.

Lemma labelled_fst (y : list Z) (order : list nat) (row : nat * Z) :
  In row (labelled y order) -> In (fst row) order /\ snd row = nth (fst row) y 0%Z.
Proof.
  unfold labelled. intros H. apply in_map_iff in H. destruct H as [j [<- Hj]].
  simpl. auto.
Qed.

Lemma combine_map_self {A B : Type} (f : A -> B) (l : list A) :
  combine l (map f l) = map (fun x => (x, f x)) l.
Proof.
  induction l as [| x l IH]; simpl; [reflexivity | rewrite IH; reflexivity].
Qed.

(* ------------------------------------------------------------------ *)
(** ** The neighbour search *)

Section Properties.

Variable argsort : argsort_fn.
Hypothesis argsort_ok : argsort_spec argsort.

Lemma argsort_perm {A : Type} (leb : A -> A -> bool) (keys : list A) :
  Permutation (argsort A leb keys) (seq 0 (length keys)).
Proof.
  apply argsort_ok.
Qed.

Lemma argsort_length {A : Type} (leb : A -> A -> bool) (keys : list A) :
  length (argsort A leb keys) = length keys.
Proof.
  rewrite (Permutation_length (argsort_perm leb keys)). apply length_seq.
Qed.

Lemma argsort_lt {A : Type} (leb : A -> A -> bool) (keys : list A) (j : nat) :
  In j (argsort A leb keys) -> j < length keys.
Proof.
  intros H. apply (Permutation_in _ (argsort_perm leb keys)) in H.
  apply in_seq in H. lia.
Qed.

(** With a label for every sample, the loop body computes this. *)
Lemma k_nearest_eq (y : list Z) (k : Z) (row : list dist) :
  length row = length y -> 0 < length y ->
  k_nearest argsort y k row =
  Ok (map fst (py_slice 1 (k + 1)
                 (filter (fun r => Z.eqb (snd r) (nth (hd O (nearest argsort row)) y 0%Z))
                         (labelled y (nearest argsort row)))),
      map fst (py_slice 0 k
                 (filter (fun r => negb (Z.eqb (snd r) (nth (hd O (nearest argsort row)) y 0%Z)))
                         (labelled y (nearest argsort row))))).
Proof.
  intros Hlen Hpos. unfold k_nearest.
  rewrite (mapM_ok_map (py_index y) (fun j => nth j y 0%Z)).
  - cbn [bind]. rewrite combine_map_self. fold (labelled y (nearest argsort row)).
    pose proof (argsort_length dist_leb row) as HL. fold (nearest argsort row) in HL.
    destruct (nearest argsort row) as [| j0 rest]; [simpl in HL; lia |].
    reflexivity.
  - intros j Hj. apply py_index_ok. rewrite <- Hlen.
    apply (argsort_lt dist_leb). exact Hj.
Qed.

(** Under the neighbour precondition every sample gets exactly [k] hits
    and [k] misses, all of them sample indices. *)
Lemma k_nearest_ok (y : list Z) (k : Z) (row : list dist) :
  neighbor_precondition y k -> length row = length y -> 0 < length y ->
  exists h m,
    k_nearest argsort y k row = Ok (h, m) /\
    length h = Z.to_nat k /\ length m = Z.to_nat k /\
    (forall j, In j h -> j < length y) /\ (forall j, In j m -> j < length y).
Proof.
  intros [Hk Hpre] Hlen Hpos. rewrite (k_nearest_eq y k row Hlen Hpos).
  pose proof (argsort_perm dist_leb row) as Hperm.
  fold (nearest argsort row) in Hperm. rewrite Hlen in Hperm.
  set (order := nearest argsort row) in *.
  set (ref := nth (hd 0 order) y 0%Z).
  assert (Hin : forall j, In j order -> j < length y).
  { intros j Hj. apply (Permutation_in _ Hperm) in Hj. apply in_seq in Hj. lia. }
  assert (Href : In ref y).
  { subst ref. apply nth_In. apply Hin.
    destruct order as [| j0 rest]; [| left; reflexivity].
    apply Permutation_length in Hperm. rewrite length_seq in Hperm. simpl in Hperm. lia. }
  destruct (Hpre ref Href) as [Hhits [c' [Hne Hmiss]]].
  do 2 eexists. split; [reflexivity |].
  assert (Hsub : forall p lo hi j,
             In j (map fst (py_slice lo hi (filter p (labelled y order)))) ->
             j < length y).
  { intros p lo hi j Hj. apply in_map_iff in Hj. destruct Hj as [r [<- Hr]].
    apply py_slice_incl in Hr. apply filter_In in Hr. destruct Hr as [Hr _].
    apply labelled_fst in Hr. apply Hin. apply Hr. }
  repeat split.
  - rewrite length_map. apply py_slice_tail_length; [exact Hk |].
    rewrite (labelled_filter_length y order (fun l => (l =? ref)%Z) Hperm).
    exact Hhits.
  - rewrite length_map.
    pose proof (py_slice_prefix_length k
                  (filter (fun r => negb (snd r =? ref)%Z) (labelled y order)) Hk) as HL.
    rewrite (labelled_filter_length y order (fun l => negb (l =? ref)%Z) Hperm) in HL.
    pose proof (count_other_label y ref c' Hne). lia.
  - apply Hsub.
  - apply Hsub.
Qed.

Lemma mapM_ok_exists {A B : Type} (f : A -> result B) (P : B -> Prop) (l : list A) :
  (forall x, In x l -> exists b, f x = Ok b /\ P b) ->
  exists bs, mapM f l = Ok bs /\ Forall P bs.
Proof.
  induction l as [| x l IH]; intros H; simpl.
  - exists []. split; [reflexivity | constructor].
  - destruct (H x (or_introl eq_refl)) as [b [Hb HP]].
    destruct IH as [bs [Hbs HF]]; [intros z Hz; apply H; right; exact Hz |].
    exists (b :: bs). rewrite Hb, Hbs. split; [reflexivity | constructor; assumption].
Qed.

Lemma length_concat_uniform {A : Type} (c : nat) (ls : list (list A)) :
  Forall (fun l => length l = c) ls -> length (concat ls) = length ls * c.
Proof.
  induction 1 as [| l ls Hl _ IH]; simpl; [reflexivity |].
  rewrite length_app, Hl, IH. reflexivity.
Qed.

Lemma length_flat_map_repeat (c : nat) (l : list nat) :
  length (flat_map (fun i => repeat i c) l) = length l * c.
Proof.
  induction l as [| i l IH]; simpl; [reflexivity |].
  rewrite length_app, repeat_length, IH. reflexivity.
Qed.

Lemma column_stack_ok (a b : list nat) :
  length a = length b -> column_stack a b = Ok (combine a b).
Proof.
  intros H. unfold column_stack. rewrite H, Nat.eqb_refl. reflexivity.
Qed.

Lemma distance_row_length (S : list (list float64)) (i : nat) (row : list dist) :
  nth_error (map (fun a => map (fun b => euclidean a b) S) S) i = Some row ->
  length row = length S.
Proof.
  intros H. apply nth_error_In in H. apply in_map_iff in H.
  destruct H as [a [<- _]]. apply length_map.
Qed.

(** What [find_neighbors] returns on clean input under the neighbour
    precondition: pairs of sample indices. *)
Lemma find_neighbors_ok (X : matrix) (y : list Z) (k : Z) :
  0 < n_samples X -> 0 < n_features X -> length y = n_samples X ->
  neighbor_precondition y k ->
  exists hp mp,
    find_neighbors argsort X y k = Ok (hp, mp) /\
    (forall p, In p hp -> fst p < n_samples X /\ snd p < n_samples X) /\
    (forall p, In p mp -> fst p < n_samples X /\ snd p < n_samples X).
Proof.
  intros Hn Hm Hy Hpre.
  destruct (distance_matrix_ok X Hn Hm) as [S [HS HD]].
  unfold find_neighbors. rewrite HD. cbn [bind].
  set (D := map (fun a => map (fun b => euclidean a b) S) S).
  set (K := Z.to_nat k).
  destruct (mapM_ok_exists
              (fun i => distances <- py_index D i ;; k_nearest argsort y k distances)
              (fun hm => (length (fst hm) = K /\ length (snd hm) = K) /\
                         (forall j, In j (fst hm) -> j < n_samples X) /\
                         (forall j, In j (snd hm) -> j < n_samples X))
              (seq 0 (n_samples X))) as [per_sample [Hmap HP]].
  { intros i Hi. apply in_seq in Hi.
    destruct (nth_error D i) as [row |] eqn:Erow.
    - unfold py_index. rewrite Erow. cbn [bind].
      apply distance_row_length in Erow.
      destruct (k_nearest_ok y k row Hpre) as [h [m [Hk [Hh [Hmm [Hjh Hjm]]]]]];
        [lia | lia |].
      exists (h, m). rewrite <- Hy. simpl. auto.
    - apply nth_error_None in Erow. subst D. rewrite length_map in Erow. lia. }
  rewrite Hmap. cbn [bind].
  pose proof (mapM_length _ _ _ Hmap) as Hlen. rewrite length_seq in Hlen.
  assert (Hhits : length (concat (map fst per_sample)) = n_samples X * K).
  { rewrite (length_concat_uniform K), length_map, Hlen; [reflexivity |].
    apply Forall_map. eapply Forall_impl; [| exact HP]. intros a Ha. apply Ha. }
  assert (Hmisses : length (concat (map snd per_sample)) = n_samples X * K).
  { rewrite (length_concat_uniform K), length_map, Hlen; [reflexivity |].
    apply Forall_map. eapply Forall_impl; [| exact HP]. intros a Ha. apply Ha. }
  assert (Hidx : length (flat_map (fun i => repeat i K) (seq 0 (n_samples X)))
                 = n_samples X * K).
  { rewrite length_flat_map_repeat, length_seq. reflexivity. }
  rewrite !column_stack_ok by congruence. cbn [bind].
  assert (Hfst : forall s, In s (flat_map (fun i => repeat i K) (seq 0 (n_samples X))) ->
                           s < n_samples X).
  { intros s Hs. apply in_flat_map in Hs. destruct Hs as [i [Hi Hs]].
    apply repeat_spec in Hs. subst s. apply in_seq in Hi. lia. }
  rewrite Forall_forall in HP.
  do 2 eexists. split; [reflexivity |]. split; intros [s j] Hp; simpl.
  - split; [apply Hfst; eapply in_combine_l; exact Hp |].
    apply in_combine_r in Hp. apply in_concat in Hp. destruct Hp as [l [Hl Hj]].
    apply in_map_iff in Hl. destruct Hl as [hm [<- Hhm]].
    destruct (HP hm Hhm) as [_ [H1 _]]. apply H1. exact Hj.
  - split; [apply Hfst; eapply in_combine_l; exact Hp |].
    apply in_combine_r in Hp. apply in_concat in Hp. destruct Hp as [l [Hl Hj]].
    apply in_map_iff in Hl. destruct Hl as [hm [<- Hhm]].
    destruct (HP hm Hhm) as [_ [_ H2]]. apply H2. exact Hj.
Qed.

(* ------------------------------------------------------------------ *)
(** ** The weight aggregation *)

Lemma column_nth (X : matrix) (f s : nat) : nth s (column X f) 0%Q = entry X s f.
Proof.
  unfold column, entry. revert s. induction X as [| r X IH]; intros s.
  - destruct s, f; reflexivity.
  - destruct s; simpl; [reflexivity | apply IH].
Qed.

Lemma column_length (X : matrix) (f : nat) : length (column X f) = n_samples X.
Proof.
  apply length_map.
Qed.

Lemma spec_range_nonzero (X : matrix) (f : nat) : Qeq_bool (spec_range X f) 0 = false.
Proof.
  unfold spec_range. destruct (Qeq_bool (col_range X f) 0) eqn:E; [reflexivity | exact E].
Qed.

Lemma inject_nat_nonzero (n : nat) :
  0 < n -> Qeq_bool (inject_Z (Z.of_nat n)) 0 = false.
Proof.
  destruct n as [| n]; [lia | reflexivity].
Qed.

(** The mean that the loop body computes for one list of pairs is the
    [mu] of the specification. *)
Lemma mu_code_spec (X : matrix) (pairs : list (nat * nat)) (f : nat) :
  0 < n_samples X ->
  exists q,
    np_div (np_sum (attr_diff (map (fun i => nth i (column X f) 0%Q) (map snd pairs))
                              (map (fun i => nth i (column X f) 0%Q) (map fst pairs))
                              (Fin (1 / spec_range X f))))
           (Fin (inject_Z (Z.of_nat (n_samples X)))) = Fin q /\
    (q == spec_mu X pairs f)%Q.
Proof.
  intros Hn. unfold attr_diff.
  rewrite (zip_with_map_pairs (fun a b => Qabs (a - b))
             (fun i => nth i (column X f) 0%Q) snd fst).
  rewrite map_map.
  change (map (fun p : nat * nat => np_mul (Fin _) (Fin (1 / spec_range X f))) pairs)
    with (map (fun p : nat * nat =>
                 Fin (Qabs (nth (snd p) (column X f) 0%Q - nth (fst p) (column X f) 0%Q)
                      * (1 / spec_range X f))) pairs).
  rewrite <- (map_map
                (fun p : nat * nat =>
                   (Qabs (nth (snd p) (column X f) 0%Q - nth (fst p) (column X f) 0%Q)
                    * (1 / spec_range X f))%Q) Fin).
  rewrite np_sum_fin, np_div_fin by (apply inject_nat_nonzero; exact Hn).
  eexists. split; [reflexivity |].
  unfold spec_mu. rewrite fold_left_Qplus.
  rewrite (Qsum_ext _
             (fun p => (Qabs (entry X (fst p) f - entry X (snd p) f) / spec_range X f)%Q)).
  - unfold Qdiv. ring.
  - intros p _. rewrite !column_nth, Qabs_Qminus. unfold Qdiv. ring.
Qed.

Lemma mapM_index_column (X : matrix) (f : nat) (idx : list nat) :
  (forall i, In i idx -> i < n_samples X) ->
  mapM (py_index (column X f)) idx = Ok (map (fun i => nth i (column X f) 0%Q) idx).
Proof.
  intros H. apply mapM_ok_map. intros i Hi. apply py_index_ok.
  rewrite column_length. apply H. exact Hi.
Qed.

(** The weight of one feature is [mu_miss - mu_hit]. *)
Lemma feature_weight_ok (X : matrix) (hp mp : list (nat * nat)) (f : nat) :
  0 < n_samples X -> f < n_features X ->
  (forall p, In p hp -> fst p < n_samples X /\ snd p < n_samples X) ->
  (forall p, In p mp -> fst p < n_samples X /\ snd p < n_samples X) ->
  exists w,
    feature_weight X (n_samples X)
      (map (np_div (Fin 1)) (map (fun j => Fin (spec_range X j)) (seq 0 (n_features X))))
      (map fst hp) (map snd hp) (map fst mp) (map snd mp) f = Ok (Fin w) /\
    (w == spec_mu X mp f - spec_mu X hp f)%Q.
Proof.
  intros Hn Hf Hhp Hmp. unfold feature_weight.
  assert (Hidx : forall (pairs : list (nat * nat)) (g : nat * nat -> nat),
             (forall p, In p pairs -> g p < n_samples X) ->
             forall i, In i (map g pairs) -> i < n_samples X).
  { intros pairs g Hg i Hi. apply in_map_iff in Hi. destruct Hi as [p [<- Hp]].
    apply Hg. exact Hp. }
  rewrite (mapM_index_column X f (map snd hp))
    by (apply Hidx; intros p Hp; apply (Hhp p Hp)).
  cbn [bind].
  rewrite (mapM_index_column X f (map snd mp))
    by (apply Hidx; intros p Hp; apply (Hmp p Hp)).
  cbn [bind].
  rewrite (mapM_index_column X f (map fst hp))
    by (apply Hidx; intros p Hp; apply (Hhp p Hp)).
  cbn [bind].
  rewrite (mapM_index_column X f (map fst mp))
    by (apply Hidx; intros p Hp; apply (Hmp p Hp)).
  cbn [bind].
  unfold py_index.
  rewrite (map_map (fun j => Fin (spec_range X j)) (np_div (Fin 1))), nth_error_map,
    nth_error_seq.
  destruct (Nat.ltb_spec f (n_features X)) as [_ | Hge]; [| lia].
  cbn [option_map bind]. rewrite Nat.add_0_l.
  rewrite np_div_fin by apply spec_range_nonzero.
  destruct (mu_code_spec X hp f Hn) as [qh [Eh Hh]].
  destruct (mu_code_spec X mp f Hn) as [qm [Em Hm]].
  rewrite Eh, Em. eexists. split; [reflexivity |].
  rewrite Hh, Hm. ring.
Qed.

Lemma mapM_ok_forall2 {A B : Type} (f : A -> result B) (R : A -> B -> Prop) (l : list A) :
  (forall x, In x l -> exists b, f x = Ok b /\ R x b) ->
  exists bs, mapM f l = Ok bs /\ Forall2 R l bs.
Proof.
  induction l as [| x l IH]; intros H; simpl.
  - exists []. split; [reflexivity | constructor].
  - destruct (H x (or_introl eq_refl)) as [b [Hb HR]].
    destruct IH as [bs [Hbs HF]]; [intros z Hz; apply H; right; exact Hz |].
    exists (b :: bs). rewrite Hb, Hbs. split; [reflexivity | constructor; assumption].
Qed.

Lemma Forall2_seq_nth_error {B : Type} (R : nat -> B -> Prop) (s m : nat) (bs : list B)
  (f : nat) :
  Forall2 R (seq s m) bs -> f < m -> exists b, nth_error bs f = Some b /\ R (s + f) b.
Proof.
  revert s bs f. induction m as [| m IH]; intros s bs f H Hf; [lia |].
  simpl in H. inversion H as [| x b l bs' HR HF]; subst.
  destruct f as [| f].
  - exists b. rewrite Nat.add_0_r. split; [reflexivity | exact HR].
  - destruct (IH (S s) bs' f HF) as [b' [Hb' HR']]; [lia |].
    exists b'. split; [exact Hb' |]. replace (s + S f) with (S s + f) by lia. exact HR'.
Qed.

Lemma py_true_div_ok (a b : nat) :
  0 < b -> py_true_div a b = Ok (Fin (inject_Z (Z.of_nat a) / inject_Z (Z.of_nat b))).
Proof.
  destruct b; [lia | reflexivity].
Qed.

(** The scores that [aggregate] computes from pairs of sample indices are
    the scores of the specification. *)
Lemma aggregate_ok (X : matrix) (hp mp : list (nat * nat)) :
  0 < n_samples X ->
  (forall p, In p hp -> fst p < n_samples X /\ snd p < n_samples X) ->
  (forall p, In p mp -> fst p < n_samples X /\ snd p < n_samples X) ->
  exists scores,
    aggregate X (hp, mp) (map (fun j => Fin (spec_range X j)) (seq 0 (n_features X)))
              (seq 0 (n_features X)) = Ok scores /\
    length scores = n_features X /\
    forall f, f < n_features X ->
      exists s, nth_error scores f = Some s /\ float_eq s (Fin (spec_score X hp mp f)).
Proof.
  intros Hn Hhp Hmp. unfold aggregate.
  rewrite (py_true_div_ok 1 (n_samples X) Hn). cbn [bind fst snd].
  destruct (mapM_ok_forall2
              (feature_weight X (n_samples X)
                 (map (np_div (Fin 1))
                      (map (fun j => Fin (spec_range X j)) (seq 0 (n_features X))))
                 (map fst hp) (map snd hp) (map fst mp) (map snd mp))
              (fun f w => exists q, w = Fin q /\
                                    (q == spec_mu X mp f - spec_mu X hp f)%Q)
              (seq 0 (n_features X))) as [ws [Hws HF]].
  { intros f Hf. apply in_seq in Hf.
    destruct (feature_weight_ok X hp mp f Hn) as [w [Hw Hq]]; [lia | exact Hhp | exact Hmp |].
    exists (Fin w). split; [exact Hw |]. exists w. split; [reflexivity | exact Hq]. }
  rewrite Hws. cbn [bind]. eexists. split; [reflexivity |]. split.
  - rewrite length_map, (mapM_length _ _ _ Hws), length_seq. reflexivity.
  - intros f Hf.
    destruct (Forall2_seq_nth_error _ 0 (n_features X) ws f HF Hf) as [w [Hw [q [-> Hq]]]].
    rewrite nth_error_map, Hw. cbn [option_map np_mul]. eexists. split; [reflexivity |].
    cbn [float_eq]. unfold spec_score. rewrite Hq, Nat.add_0_l.
    change (inject_Z (Z.of_nat 1)) with 1%Q. unfold Qdiv. ring.
Qed.

Lemma compute_scores_ok (X : matrix) (y : list Z) (k : Z) :
  0 < n_samples X -> 0 < n_features X -> length y = n_samples X ->
  neighbor_precondition y k ->
  exists hp mp scores,
    find_neighbors argsort X y k = Ok (hp, mp) /\
    compute_scores argsort X y k (generate_features X) = Ok scores /\
    length scores = n_features X /\
    forall f, f < n_features X ->
      exists s, nth_error scores f = Some s /\ float_eq s (Fin (spec_score X hp mp f)).
Proof.
  intros Hn Hm Hy Hpre.
  destruct (find_neighbors_ok X y k Hn Hm Hy Hpre) as [hp [mp [Hfn [Hhp Hmp]]]].
  destruct (aggregate_ok X hp mp Hn Hhp Hmp) as [scores [Hagg Hsc]].
  exists hp, mp, scores. split; [exact Hfn |]. split; [| exact Hsc].
  unfold compute_scores. rewrite Hfn. cbn [bind].
  rewrite (range_vec_ok X Hn). cbn [bind]. exact Hagg.
Qed.

(** Line 184 on a score vector of the right length. *)
Lemma select_features_ok (m : nat) (scores : list float64) (keep : Z) :
  length scores = m ->
  select_features argsort (seq 0 m) scores keep =
  Ok (py_slice 0 keep (rev (argsort float64 np_leb scores))).
Proof.
  intros Hlen. unfold select_features.
  rewrite (mapM_ok_map _ (fun i => i)); [rewrite map_id; reflexivity |].
  intros i Hi. apply py_slice_incl in Hi. apply in_rev in Hi.
  apply (argsort_lt np_leb) in Hi. rewrite Hlen in Hi.
  rewrite (py_index_ok (seq 0 m) i 0) by (rewrite length_seq; exact Hi).
  rewrite seq_nth by exact Hi. reflexivity.
Qed.

Lemma check_input_ok (X : matrix) (y : list Z) (names : option (list string)) :
  clean_input X y names -> exists fn, _check_input X y names = Ok (X, y, fn).
Proof.
  intros [_ [_ [Hrect [Hy Hnames]]]]. unfold _check_input.
  assert (E : forallb (fun row => length row =? n_features X) X = true).
  { apply forallb_forall. intros row Hrow. apply Nat.eqb_eq.
    rewrite Forall_forall in Hrect. apply Hrect. exact Hrow. }
  rewrite E, Hy, Nat.eqb_refl. simpl.
  destruct names as [l |]; [rewrite Hnames, Nat.eqb_refl |]; eexists; reflexivity.
Qed.

Lemma check_input_inv (X : matrix) (y : list Z) (names : option (list string))
  (X' : matrix) (y' : list Z) (fn : list feature_name) :
  _check_input X y names = Ok (X', y', fn) ->
  X' = X /\ y' = y /\ Forall (fun row => length row = n_features X) X /\
  length y = n_samples X.
Proof.
  unfold _check_input.
  destruct (forallb (fun row => length row =? n_features X) X) eqn:E; [| discriminate].
  destruct (length y =? n_samples X) eqn:Ey; [| discriminate]. simpl.
  assert (Hrect : Forall (fun row => length row = n_features X) X).
  { apply Forall_forall. intros row Hrow. apply Nat.eqb_eq.
    rewrite forallb_forall in E. apply E. exact Hrow. }
  apply Nat.eqb_eq in Ey.
  destruct names as [l |]; [destruct (length l =? n_features X); [| discriminate] |];
    intros H; inversion H; subst; repeat split; assumption.
Qed.

(** On clean input under the neighbour precondition [fit] returns, and
    leaves this object behind. *)
Lemma fit_ok (X : matrix) (y : list Z) (names : option (list string)) (k : Z) (self : STIR) :
  clean_input X y names -> neighbor_precondition y k ->
  exists hp mp scores fn,
    find_neighbors argsort X y k = Ok (hp, mp) /\
    length scores = n_features X /\
    (forall f, f < n_features X ->
       exists s, nth_error scores f = Some s /\ float_eq s (Fin (spec_score X hp mp f))) /\
    fit argsort X y names k self =
    (Ok tt,
     set_selected_features
       (set_feature_scores
          (set_feature_names self (combine (generate_features X) fn)) scores)
       (py_slice 0 (n_features_to_keep self) (rev (argsort float64 np_leb scores)))).
Proof.
  intros Hclean Hpre.
  destruct (check_input_ok X y names Hclean) as [fn Hcheck].
  destruct Hclean as [Hn [Hm [_ [Hy _]]]].
  destruct (compute_scores_ok X y k Hn Hm Hy Hpre) as [hp [mp [scores [Hfn [Hcs [Hlen Hsc]]]]]].
  exists hp, mp, scores, fn. repeat split; try assumption.
  unfold fit. rewrite Hcheck, Hcs. cbn [n_features_to_keep set_feature_scores set_feature_names].
  unfold generate_features. rewrite (select_features_ok _ scores _ Hlen). reflexivity.
Qed.

Lemma compute_scores_length (X : matrix) (y : list Z) (k : Z) (feats : list nat)
  (scores : list float64) :
  compute_scores argsort X y k feats = Ok scores -> length scores = length feats.
Proof.
  unfold compute_scores, aggregate. intros H.
  apply bind_ok_inv in H. destruct H as [nb [_ H]].
  apply bind_ok_inv in H. destruct H as [rv [_ H]].
  apply bind_ok_inv in H. destruct H as [oom [_ H]].
  apply bind_ok_inv in H. destruct H as [ws [Hws H]].
  inversion H. rewrite length_map. exact (mapM_length _ _ _ Hws).
Qed.

(** What a call of [fit] that returns has done. *)
Lemma fit_inv (X : matrix) (y : list Z) (names : option (list string)) (k : Z)
  (self self' : STIR) :
  fit argsort X y names k self = (Ok tt, self') ->
  exists fn scores,
    compute_scores argsort X y k (generate_features X) = Ok scores /\
    length scores = n_features X /\
    self' =
    set_selected_features
      (set_feature_scores
         (set_feature_names self (combine (generate_features X) fn)) scores)
      (py_slice 0 (n_features_to_keep self) (rev (argsort float64 np_leb scores))).
Proof.
  unfold fit. destruct (_check_input X y names) as [[[X' y'] fn] | e] eqn:Ec;
    [| intros H; inversion H].
  apply check_input_inv in Ec. destruct Ec as [-> [-> _]].
  destruct (compute_scores argsort X y k (generate_features X)) as [scores | e] eqn:Es;
    [| intros H; inversion H].
  pose proof (compute_scores_length _ _ _ _ _ Es) as Hlen.
  unfold generate_features in Hlen. rewrite length_seq in Hlen.
  cbn [n_features_to_keep set_feature_scores set_feature_names].
  unfold generate_features at 2. rewrite (select_features_ok _ scores _ Hlen).
  intros H. inversion H. exists fn, scores. auto.
Qed.

(* ------------------------------------------------------------------ *)
(** ** The claims about [fit] *)


(** C4.  After a [fit] that returns, on a model constructed with a
    non-negative [n_features_to_keep], the number of selected features is
    [min(n_features_to_keep, n_features)]; when [n_features_to_keep] is at
    least [n_features] the selection holds every feature once. *)
Theorem selection_size (X : matrix) (y : list Z) (names : option (list string))
  (k : Z) (self self' : STIR) :
  (0 <= n_features_to_keep self)%Z ->
  fit argsort X y names k self = (Ok tt, self') ->
  exists selected,
    selected_features self' = Some selected /\
    Z.of_nat (length selected) = Z.min (n_features_to_keep self) (Z.of_nat (n_features X)) /\
    ((Z.of_nat (n_features X) <= n_features_to_keep self)%Z ->
     Permutation selected (seq 0 (n_features X))).
Proof.
  intros Hkeep Hfit.
  destruct (fit_inv _ _ _ _ _ _ Hfit) as [fn [scores [_ [Hlen ->]]]].
  eexists. split; [reflexivity |].
  pose proof (py_slice_prefix_length (n_features_to_keep self)
                (rev (argsort float64 np_leb scores)) Hkeep) as HL.
  rewrite length_rev, argsort_length, Hlen in HL. split; [exact HL |].
  intros Hall. rewrite (py_slice_prefix_eq _ _ Hkeep), firstn_all2.
  - eapply perm_trans; [apply Permutation_sym, Permutation_rev |].
    rewrite <- Hlen. apply argsort_perm.
  - rewrite length_rev, argsort_length, Hlen. lia.
Qed.

(** C3, as amended.  After a [fit] that returns, the selection is a prefix
    of the reversed argsort of the scores, so the scores of the selected
    features never increase along it.  (Features with equal scores come in
    the reverse of the order [np.argsort] gave them.) *)
Theorem selection_descending (X : matrix) (y : list Z) (names : option (list string))
  (k : Z) (self self' : STIR) :
  fit argsort X y names k self = (Ok tt, self') ->
  exists scores selected m,
    feature_scores self' = Some scores /\
    selected_features self' = Some selected /\
    selected = firstn m (rev (argsort float64 np_leb scores)) /\
    forall p q i j si sj,
      p <= q ->
      nth_error selected p = Some i -> nth_error selected q = Some j ->
      nth_error scores i = Some si -> nth_error scores j = Some sj ->
      np_leb sj si = true.
Proof.
  intros Hfit.
  destruct (fit_inv _ _ _ _ _ _ Hfit) as [fn [scores [_ [Hlen ->]]]].
  destruct (py_slice_prefix (n_features_to_keep self)
              (rev (argsort float64 np_leb scores))) as [m Hm].
  exists scores. eexists. exists m. split; [reflexivity |]. split; [reflexivity |].
  split; [exact Hm |].
  cbn [selected_features set_selected_features]. rewrite Hm.
  intros p q i j si sj Hpq Hi Hj Hsi Hsj.
  rewrite nth_error_firstn in Hi, Hj.
  destruct (Nat.ltb p m); [| discriminate]. destruct (Nat.ltb q m); [| discriminate].
  rewrite nth_error_rev in Hi, Hj.
  destruct (Nat.ltb_spec p (length (argsort float64 np_leb scores))); [| discriminate].
  destruct (Nat.ltb_spec q (length (argsort float64 np_leb scores))); [| discriminate].
  destruct (argsort_ok float64 np_leb scores) as [_ Hasc].
  apply (Hasc np_leb_total_preorder
           (length (argsort float64 np_leb scores) - S q)
           (length (argsort float64 np_leb scores) - S p) j i sj si);
    [lia | assumption | assumption | assumption | assumption].
Qed.

(** C5, as amended.  For every sample [i], [nearest] is a permutation of
    all the sample indices, the distances from [i] never decrease along it,
    and its first position holds a sample at distance 0 from [i]. *)
Theorem nearest_sorted (X : matrix) (D : list (list dist)) (i : nat) (row : list dist) :
  distance_matrix X = Ok D -> nth_error D i = Some row ->
  Permutation (nearest argsort row) (seq 0 (n_samples X)) /\
  ascending dist_leb row (nearest argsort row) /\
  exists j d,
    nth_error (nearest argsort row) 0 = Some j /\ nth_error row j = Some d /\
    (radicand d == 0)%Q.
Proof.
  intros HD Hrow. apply distance_matrix_inv in HD. destruct HD as [S [HS ->]].
  pose proof (distance_row_length S i row Hrow) as Hlen.
  rewrite nth_error_map in Hrow.
  destruct (nth_error S i) as [a |] eqn:Ea; [| discriminate].
  simpl in Hrow. inversion Hrow as [Hr]. clear Hrow.
  destruct (argsort_ok dist dist_leb row) as [Hperm Hasc].
  specialize (Hasc dist_leb_total_preorder).
  fold (nearest argsort row) in Hperm, Hasc. rewrite Hr in *.
  rewrite Hlen, HS in Hperm. split; [exact Hperm |]. split; [exact Hasc |].
  assert (Hi : i < n_samples X).
  { rewrite <- HS. apply nth_error_Some. congruence. }
  assert (Hself : nth_error row i = Some (euclidean a a)).
  { rewrite <- Hr. exact (map_nth_error (fun b => euclidean a b) i S Ea). }
  assert (Hin : In i (nearest argsort row)).
  { apply (Permutation_in _ (Permutation_sym Hperm)). apply in_seq. lia. }
  destruct (In_nth_error _ _ Hin) as [q Hq].
  destruct (nearest argsort row) as [| j rest] eqn:En.
  - destruct q; discriminate.
  - assert (Hj : j < n_samples X).
    { assert (In j (seq 0 (n_samples X)))
        by (apply (Permutation_in _ Hperm); left; reflexivity).
      apply in_seq in H. lia. }
    destruct (nth_error row j) as [d |] eqn:Ed.
    + exists j, d. split; [reflexivity |]. split; [exact Ed |].
      pose proof (Hasc 0 q j i d (euclidean a a) (Nat.le_0_l q) eq_refl Hq Ed Hself) as Hle.
      unfold dist_leb in Hle. apply Qle_bool_iff in Hle.
      rewrite euclidean_self in Hle.
      apply Qle_antisym; [exact Hle |].
      apply nth_error_In in Ed. rewrite <- Hr in Ed. apply in_map_iff in Ed.
      destruct Ed as [b [<- _]]. apply euclidean_nonneg.
    + apply nth_error_None in Ed. lia.
Qed.

(* ------------------------------------------------------------------ *)
(** ** Division by zero *)










(** A neighbour search that returns had at least one sample to look at. *)
Lemma find_neighbors_nonempty (X : matrix) (y : list Z) (k : Z)
  (nb : list (nat * nat) * list (nat * nat)) :
  find_neighbors argsort X y k = Ok nb -> 0 < n_samples X.
Proof.
  unfold find_neighbors, distance_matrix. intros H.
  apply bind_ok_inv in H. destruct H as [D [H _]].
  apply bind_ok_inv in H. destruct H as [d [H _]].
  apply max_diff_length in H. apply H.
Qed.






(* ------------------------------------------------------------------ *)
(** ** Finite scores *)






(* ------------------------------------------------------------------ *)
(** ** Too few samples *)

Lemma check_input_raise (X : matrix) (y : list Z) (names : option (list string)) (e : exn) :
  _check_input X y names = Raise e -> exists msg, e = ValueError msg.
Proof.
  unfold _check_input.
  destruct (negb _); [intros H; inversion H; eexists; reflexivity |].
  destruct (negb _); [intros H; inversion H; eexists; reflexivity |].
  destruct names as [l |]; [destruct (length l =? n_features X) |];
    intros H; inversion H; eexists; reflexivity.
Qed.

(** One row of distances, one label and [k >= 1]: the sample has no hit,
    and stacking the indexes with the hits fails. *)
Lemma find_neighbors_single (xrow : list Q) (y0 : Z) (k : Z) :
  (1 <= k)%Z ->
  exists msg, find_neighbors argsort [xrow] [y0] k = Raise (ValueError msg).
Proof.
  intros Hk. unfold find_neighbors, distance_matrix.
  rewrite (max_diff_ok [xrow]) by (simpl; lia).
  rewrite (np_min_axis0_ok [xrow]) by (simpl; lia). cbn [bind].
  set (v := assign_where_zero _). set (mn := map _ _).
  unfold normalize. cbn [map]. set (srow := zip_with _ _ v).
  unfold pairwise_distances. destruct srow as [| z rest] eqn:Es.
  { eexists. reflexivity. }
  rewrite <- Es. destruct (forallb _ _); cbn [bind]; [| eexists; reflexivity].
  cbn [map n_samples length seq mapM py_index nth_error bind].
  rewrite (k_nearest_eq [y0] k [euclidean srow srow]) by (simpl; lia).
  pose proof (argsort_perm dist_leb [euclidean srow srow]) as Hperm.
  apply Permutation_sym, Permutation_length_1_inv in Hperm.
  fold (nearest argsort [euclidean srow srow]) in Hperm. rewrite Hperm.
  cbn [hd nth labelled map filter snd]. rewrite Z.eqb_refl. cbn [negb].
  unfold py_slice. cbn [length]. 
  change (Z.to_nat (py_clamp (Z.of_nat 1) 1)) with 1.
  cbn [skipn]. rewrite !firstn_nil.
  cbn [bind map fst snd concat app flat_map]. rewrite app_nil_r.
  unfold column_stack. rewrite repeat_length. cbn [length].
  destruct (Z.to_nat k) as [| K] eqn:EK; [lia |].
  cbn [Nat.eqb bind]. eexists. reflexivity.
Qed.

Lemma find_neighbors_few (X : matrix) (y : list Z) (k : Z) :
  n_samples X <= 1 -> length y = n_samples X -> (1 <= k)%Z ->
  exists msg, find_neighbors argsort X y k = Raise (ValueError msg).
Proof.
  intros Hn Hy Hk. destruct X as [| xrow [| xrow' X']].
  - eexists. reflexivity.
  - destruct y as [| y0 [| y1 y']]; simpl in Hy; try discriminate.
    apply find_neighbors_single. exact Hk.
  - simpl in Hn. lia.
Qed.

(** C8, as amended.  With zero or one samples and [k >= 1], [fit] fails
    with a [ValueError]: from the validation, from the reduction over no
    rows, from [pairwise_distances], or, for one sample, from stacking the
    sample's index with its empty hit list. *)
Theorem fit_few_samples (X : matrix) (y : list Z) (names : option (list string))
  (k : Z) (self : STIR) :
  n_samples X <= 1 -> (1 <= k)%Z ->
  exists msg, fst (fit argsort X y names k self) = Raise (ValueError msg).
Proof.
  intros Hn Hk. unfold fit.
  destruct (_check_input X y names) as [[[X' y'] fn] | e] eqn:Ec.
  - apply check_input_inv in Ec. destruct Ec as [-> [-> [_ Hy]]].
    unfold compute_scores.
    destruct (find_neighbors_few X y k Hn Hy Hk) as [msg Hmsg].
    rewrite Hmsg. exists msg. reflexivity.
  - apply check_input_raise in Ec. destruct Ec as [msg ->]. exists msg. reflexivity.
Qed.

(* ------------------------------------------------------------------ *)
(** ** [fit_transform] *)

(** C10.  On clean input that meets the neighbour precondition,
    [fit_transform] returns the matrix that [transform] returns after
    [fit] on the same object, the columns of [X] at the selected features
    in their rank order, and leaves the object [fit] leaves. *)
Theorem fit_transform_fit_then_transform (X : matrix) (y : list Z)
  (names : option (list string)) (k : Z) (self : STIR) :
  clean_input X y names -> neighbor_precondition y k ->
  exists M self' selected,
    fit_transform argsort X y names k self = (Ok M, self') /\
    fit argsort X y names k self = (Ok tt, self') /\
    transform X self' = (Ok M, self') /\
    selected_features self' = Some selected /\
    M = map (fun row => map (fun i => nth i row 0%Q) selected) X.
Proof.
  intros Hclean Hpre.
  destruct (fit_ok X y names k self Hclean Hpre)
    as [hp [mp [scores [fn [_ [Hlen [_ Hfit]]]]]]].
  destruct Hclean as [_ [_ [Hrect _]]].
  set (selected := py_slice 0 (n_features_to_keep self)
                     (rev (argsort float64 np_leb scores))) in *.
  assert (Htr : mapM (fun row => mapM (py_index row) selected) X =
                Ok (map (fun row => map (fun i => nth i row 0%Q) selected) X)).
  { apply mapM_ok_map. intros row Hrow. apply mapM_ok_map. intros i Hi.
    apply py_index_ok. rewrite Forall_forall in Hrect. rewrite (Hrect row Hrow).
    subst selected. apply py_slice_incl, in_rev in Hi.
    apply (argsort_lt np_leb) in Hi. lia. }
  do 2 eexists. exists selected.
  split; [| split; [exact Hfit | split; [| split; reflexivity]]].
  - unfold fit_transform, then_. rewrite Hfit. unfold transform.
    cbn [selected_features set_selected_features]. rewrite Htr. reflexivity.
  - unfold transform. cbn [selected_features set_selected_features].
    rewrite Htr. reflexivity.
Qed.

End Properties.

(* ------------------------------------------------------------------ *)
(** ** The range vector of [fit] and the one of [distance_matrix] *)

(** C9.  The range vector that [fit] gives to the aggregation is, for every
    [X], the vector that [distance_matrix] divides by: [distance_matrix]
    normalises with [scaling_vec X], [compute_scores] aggregates with
    [range_vec X], and the two are equal (both fail on no rows, and agree
    entry for entry otherwise). *)
Theorem range_vec_is_scaling_vec (X : matrix) :
  range_vec X = scaling_vec X /\
  (forall j, match range_vec X, scaling_vec X with
             | Ok r, Ok v => nth_error r j = nth_error v j
             | Raise e, Raise e' => e = e'
             | _, _ => False
             end) /\
  distance_matrix X =
    (v <- scaling_vec X ;; min_vec <- np_min_axis0 X ;;
     pairwise_distances (normalize X min_vec v)) /\
  (forall argsort y k feats,
     compute_scores argsort X y k feats =
     (neighbors_index <- find_neighbors argsort X y k ;;
      r <- range_vec X ;;
      aggregate X neighbors_index r feats)).
Proof.
  split; [reflexivity |]. split; [| split].
  - intros j. unfold range_vec, scaling_vec.
    destruct (max_diff X) as [d | e]; reflexivity.
  - unfold distance_matrix, scaling_vec.
    destruct (max_diff X) as [d | e]; reflexivity.
  - intros argsort y k feats. reflexivity.
Qed.

(* ------------------------------------------------------------------ *)
(** ** [transform] before [fit] *)

(** C7, as amended.  On an instance on which [fit] was never called,
    [transform] raises the [AttributeError] of the missing attribute
    [selected_features], whatever [X] is, and leaves the instance as it
    was. *)
Theorem transform_before_fit (n : Z) (X : matrix) :
  transform X (__init__ n) = (Raise (AttributeError "selected_features"), __init__ n).
Proof.
  unfold transform. cbn [selected_features __init__]. reflexivity.
Qed.

(** C7 as stated fails: the error of [transform] on a fresh instance is
    not a "model not fitted" error. *)
Lemma transform_unfitted_error :
  fst (transform X_demo (__init__ 10)) = Raise (AttributeError "selected_features") /\
  fst (transform X_demo (__init__ 10)) <> Raise NotFittedError.
Proof.
  split; [reflexivity | discriminate].
Qed.

(* ------------------------------------------------------------------ *)
(** ** Runs on the concrete inputs *)

(** C2 fails on [X_dup], whose samples 0 and 1 coincide.  With labels
    [y_alt] the hit of sample 1 is sample 2, of the other class, and its
    miss is sample 1 itself; with labels [y_blocks] the hit of sample 1 is
    sample 1 itself. *)
Theorem find_neighbors_duplicate_rows :
  find_neighbors argsort_stable X_dup y_alt 1 =
    Ok ([(0, 2); (1, 2); (2, 0); (3, 0)], [(0, 1); (1, 1); (2, 3); (3, 3)]) /\
  find_neighbors argsort_stable X_dup y_blocks 1 =
    Ok ([(0, 1); (1, 1); (2, 3); (3, 3)], [(0, 2); (1, 2); (2, 0); (3, 0)]).
Proof.
  split; vm_compute; reflexivity.
Qed.

(** C3 as stated fails: the two features of [X_twin] get the same score,
    and the selection lists feature 1 before feature 0. *)
Lemma selection_ties_reversed :
  exists self' s,
    fit argsort_stable X_twin y_blocks None 1 (__init__ 2) = (Ok tt, self') /\
    feature_scores self' = Some [s; s] /\
    selected_features self' = Some [1; 0].
Proof.
  do 2 eexists. vm_compute. repeat split.
Qed.

(** C5 as stated fails: in the sorted order of sample 1 of [X_dup] the
    first position holds sample 0; and the order of the two samples at
    distance 0 is not fixed by the contract of [np.argsort]:
    [argsort_last_first] meets it and puts sample 1 before sample 0. *)
Lemma nearest_first_not_self :
  exists D row,
    distance_matrix X_dup = Ok D /\ nth_error D 1 = Some row /\
    nearest argsort_stable row = [0; 1; 2; 3] /\
    nth_error (nearest argsort_stable row) 0 <> Some 1 /\
    argsort_spec argsort_last_first /\
    nearest argsort_last_first row = [1; 0; 3; 2] /\
    ~ ties_by_index dist_leb row (nearest argsort_last_first row).
Proof.
  do 2 eexists. split; [vm_compute; reflexivity |].
  split; [reflexivity |]. split; [reflexivity |].
  split; [discriminate |]. split; [apply argsort_last_first_spec |].
  split; [reflexivity |].
  intros H.
  specialize (H 0 1 1 0 (Sqrt 0) (Sqrt 0) (Nat.lt_0_succ 0)
                eq_refl eq_refl eq_refl eq_refl eq_refl).
  lia.
Qed.

(** C8 as stated fails: with one sample and [k = 1], [fit] builds the
    distance matrix of the single sample and fails later, with the
    [ValueError] of [np.column_stack]; with [k = 0] it returns. *)
Lemma fit_single_sample :
  distance_matrix X_single = Ok [[Sqrt 0]] /\
  fst (fit argsort_stable X_single [1%Z] None 1 (__init__ 10)) =
    Raise (ValueError "all the input array dimensions except for the concatenation axis must match exactly") /\
  fst (fit argsort_stable X_single [1%Z] None 1 (__init__ 10)) <>
    Raise InsufficientSamplesError /\
  fst (fit argsort_stable X_single [1%Z] None 0 (__init__ 10)) = Ok tt.
Proof.
  split; [vm_compute; reflexivity |].
  split; [vm_compute; reflexivity |].
  split; [vm_compute; discriminate |].
  vm_compute; reflexivity.
Qed.

(* ------------------------------------------------------------------ *)
(** ** The sample itself in the sorted order *)

Section SelfFirst.

Variable argsort : argsort_fn.
Hypothesis argsort_ok : argsort_spec argsort.

(** X1.  When the sorted order of sample [i] starts with [i] itself, the
    hits of [i] carry the label of [i], its misses carry another label,
    neither list holds [i], and no sample is in both. *)
Theorem k_nearest_self_first (y : list Z) (k : Z) (row : list dist) (i : nat)
  (h m : list nat) :
  length row = length y -> i < length y ->
  nth_error (nearest argsort row) 0 = Some i ->
  k_nearest argsort y k row = Ok (h, m) ->
  (forall j, In j h -> j < length y /\ nth j y 0%Z = nth i y 0%Z /\ j <> i) /\
  (forall j, In j m -> j < length y /\ nth j y 0%Z <> nth i y 0%Z /\ j <> i) /\
  (forall j, In j h -> ~ In j m).
Proof.
  intros Hlen Hi Hfirst Hk.
  rewrite (k_nearest_eq argsort argsort_ok y k row Hlen) in Hk by lia.
  pose proof (argsort_perm argsort argsort_ok dist_leb row) as Hperm.
  fold (nearest argsort row) in Hperm. rewrite Hlen in Hperm.
  destruct (nearest argsort row) as [| i0 rest] eqn:En; [discriminate |].
  simpl in Hfirst. inversion Hfirst. subst i0. clear Hfirst.
  assert (Hnd : NoDup (i :: rest)).
  { apply (Permutation_NoDup (Permutation_sym Hperm)). apply seq_NoDup. }
  assert (Hlt : forall j, In j (i :: rest) -> j < length y).
  { intros j Hj. apply (Permutation_in _ Hperm) in Hj. apply in_seq in Hj. lia. }
  cbn [hd labelled map filter snd] in Hk. rewrite Z.eqb_refl in Hk. cbn [negb] in Hk.
  fold (labelled y rest) in Hk. injection Hk as Hh Hm.
  assert (Hhit : forall j, In j h -> j < length y /\ nth j y 0%Z = nth i y 0%Z /\ j <> i).
  { intros j Hj. rewrite <- Hh in Hj. apply in_map_iff in Hj.
    destruct Hj as [r [<- Hr]]. apply py_slice_from_one in Hr.
    apply filter_In in Hr. destruct Hr as [Hr Heq].
    apply labelled_fst in Hr. destruct Hr as [Hin Hlab].
    apply Z.eqb_eq in Heq. split; [apply Hlt; right; exact Hin |].
    split; [congruence |].
    intros E. inversion Hnd as [| ? ? Hni _]. apply Hni. rewrite <- E. exact Hin. }
  assert (Hmiss : forall j, In j m ->
                    j < length y /\ nth j y 0%Z <> nth i y 0%Z /\ j <> i).
  { intros j Hj. rewrite <- Hm in Hj. apply in_map_iff in Hj.
    destruct Hj as [r [<- Hr]]. apply py_slice_incl in Hr.
    apply filter_In in Hr. destruct Hr as [Hr Hne].
    assert (Hr' : In r (labelled y (i :: rest))) by (right; exact Hr).
    apply labelled_fst in Hr'. destruct Hr' as [Hin Hlab].
    apply negb_true_iff, Z.eqb_neq in Hne.
    split; [apply Hlt; exact Hin |].
    assert (Hlab' : nth (fst r) y 0%Z <> nth i y 0%Z) by congruence.
    split; [exact Hlab' |]. intros E. apply Hlab'. rewrite E. reflexivity. }
  split; [exact Hhit |]. split; [exact Hmiss |].
  intros j Hjh Hjm. destruct (Hhit j Hjh) as [_ [E _]].
  destruct (Hmiss j Hjm) as [_ [N _]]. contradiction.
Qed.

End SelfFirst.

(* ------------------------------------------------------------------ *)
(** ** Duplicate rows, for every argsort *)

Lemma NoDup4 (a b c d : nat) :
  NoDup [a; b; c; d] -> a <> b /\ a <> c /\ a <> d /\ b <> c /\ b <> d /\ c <> d.
Proof.
  intros H. inversion H as [| ? ? Ha H1]; subst. inversion H1 as [| ? ? Hb H2]; subst.
  inversion H2 as [| ? ? Hc H3]; subst. simpl in *. intuition.
Qed.

(** An argsort of four keys lists four distinct indices below 4, and a
    relation that the keys force between an earlier and a later index
    holds between any two positions. *)
Lemma argsort_four (argsort : argsort_fn) (row : list dist) (P : nat -> nat -> Prop) :
  argsort_spec argsort -> length row = 4 ->
  (forall i j ki kj, nth_error row i = Some ki -> nth_error row j = Some kj ->
                     dist_leb ki kj = true -> P i j) ->
  exists a b c d,
    nearest argsort row = [a; b; c; d] /\
    (a < 4 /\ b < 4 /\ c < 4 /\ d < 4) /\
    (a <> b /\ a <> c /\ a <> d /\ b <> c /\ b <> d /\ c <> d) /\
    (P a b /\ P a c /\ P a d /\ P b c /\ P b d /\ P c d).
Proof.
  intros Hspec Hrow HP. destruct (Hspec dist dist_leb row) as [Hperm Hasc].
  specialize (Hasc dist_leb_total_preorder).
  unfold nearest. set (pi := argsort dist dist_leb row) in *.
  pose proof (Permutation_length Hperm) as Hlen. rewrite length_seq, Hrow in Hlen.
  destruct pi as [| a [| b [| c [| d [| e rest]]]]]; try discriminate.
  exists a, b, c, d. split; [reflexivity |].
  assert (Hin : forall x, In x [a; b; c; d] -> x < 4).
  { intros x Hx. apply (Permutation_in _ Hperm) in Hx. apply in_seq in Hx. lia. }
  assert (Hkey : forall p q i j, p <= q -> nth_error [a; b; c; d] p = Some i ->
                   nth_error [a; b; c; d] q = Some j -> P i j).
  { intros p q i j Hpq Hi Hj.
    pose proof (Hin i (nth_error_In _ _ Hi)) as Hi4.
    pose proof (Hin j (nth_error_In _ _ Hj)) as Hj4.
    destruct (nth_error row i) as [ki |] eqn:Eki;
      [| apply nth_error_None in Eki; lia].
    destruct (nth_error row j) as [kj |] eqn:Ekj;
      [| apply nth_error_None in Ekj; lia].
    exact (HP i j ki kj Eki Ekj (Hasc p q i j ki kj Hpq Hi Hj Eki Ekj)). }
  split; [repeat split; apply Hin; simpl; auto |].
  split.
  - apply NoDup4. apply (Permutation_NoDup (Permutation_sym Hperm)). apply seq_NoDup.
  - repeat split;
      [ apply (Hkey 0 1) | apply (Hkey 0 2) | apply (Hkey 0 3)
      | apply (Hkey 1 2) | apply (Hkey 1 3) | apply (Hkey 2 3) ];
      first [lia | reflexivity].
Qed.

Lemma near_first (row : list dist) (near : nat -> bool) :
  row = map (fun i => if near i then Sqrt 0 else Sqrt 1) [0; 1; 2; 3] ->
  forall i j ki kj, nth_error row i = Some ki -> nth_error row j = Some kj ->
                    dist_leb ki kj = true -> near j = true -> near i = true.
Proof.
  intros -> i j ki kj Hi Hj Hle Hj1.
  assert (Hi4 : i < 4).
  { change 4 with (length (map (fun i : nat => if near i then Sqrt 0 else Sqrt 1)
                             [0; 1; 2; 3])).
    apply nth_error_Some. rewrite Hi. discriminate. }
  assert (Hj4 : j < 4).
  { change 4 with (length (map (fun i : nat => if near i then Sqrt 0 else Sqrt 1)
                             [0; 1; 2; 3])).
    apply nth_error_Some. rewrite Hj. discriminate. }
  destruct i as [| [| [| [| i]]]]; try lia;
    destruct j as [| [| [| [| j]]]]; try lia;
    simpl in Hi, Hj; inversion Hi; inversion Hj; subst; clear Hi Hj;
    rewrite Hj1 in Hle;
    match goal with |- near ?x = true => destruct (near x); [reflexivity | discriminate] end.
Qed.

(** X2.  Whatever order [np.argsort] gives to equal distances, on [X_dup]
    with the labels [y_blocks] some sample is returned as its own hit:
    samples 0 and 1 have the same row of distances, hence the same sorted
    order and the same hit. *)
Theorem duplicate_rows_any_argsort (argsort : argsort_fn) :
  argsort_spec argsort ->
  exists hp mp i, find_neighbors argsort X_dup y_blocks 1 = Ok (hp, mp) /\ In (i, i) hp.
Proof.
  intros Hspec.
  destruct (argsort_four argsort [Sqrt 0; Sqrt 0; Sqrt 1; Sqrt 1]
              (fun i j => Nat.ltb j 2 = true -> Nat.ltb i 2 = true) Hspec eq_refl
              (near_first _ (fun i => Nat.ltb i 2) eq_refl))
    as [a [b [c [d [E1 [B1 [N1 O1]]]]]]].
  destruct (argsort_four argsort [Sqrt 1; Sqrt 1; Sqrt 0; Sqrt 0]
              (fun i j => Nat.leb 2 j = true -> Nat.leb 2 i = true) Hspec eq_refl
              (near_first _ (fun i => Nat.leb 2 i) eq_refl))
    as [a' [b' [c' [d' [E2 [B2 [N2 O2]]]]]]].
  assert (C1 : (a = 0 /\ b = 1 \/ a = 1 /\ b = 0) /\ (c = 2 /\ d = 3 \/ c = 3 /\ d = 2)).
  { rewrite !Nat.ltb_lt in O1.
    destruct B1 as [Ha [Hb [Hc Hd]]].
    destruct N1 as [Nab [Nac [Nad [Nbc [Nbd Ncd]]]]].
    destruct O1 as [Oab [Oac [Oad [Obc [Obd Ocd]]]]].
    assert (b < 2).
    { destruct (Nat.lt_ge_cases b 2) as [L | G]; [exact L |].
      assert (2 <= c) by (destruct (Nat.lt_ge_cases c 2) as [L | G']; [specialize (Obc L) |]; lia).
      assert (2 <= d) by (destruct (Nat.lt_ge_cases d 2) as [L | G']; [specialize (Obd L) |]; lia).
      clear - Hb Hc Hd Nbc Nbd Ncd G H H0. lia. }
    assert (a < 2) by (apply Oab; assumption).
    assert (2 <= c) by (clear - Ha Hb Nab Nac Nbc H H0; lia).
    assert (2 <= d) by (clear - Ha Hb Nab Nad Nbd H H0; lia).
    clear - Ha Hb Hc Hd Nab Ncd H H0 H1 H2. lia. }
  assert (C2 : (a' = 2 /\ b' = 3 \/ a' = 3 /\ b' = 2) /\ (c' = 0 /\ d' = 1 \/ c' = 1 /\ d' = 0)).
  { rewrite !Nat.leb_le in O2.
    destruct B2 as [Ha [Hb [Hc Hd]]].
    destruct N2 as [Nab [Nac [Nad [Nbc [Nbd Ncd]]]]].
    destruct O2 as [Oab [Oac [Oad [Obc [Obd Ocd]]]]].
    assert (2 <= b').
    { destruct (Nat.lt_ge_cases b' 2) as [L | G]; [| exact G].
      assert (c' < 2) by (destruct (Nat.lt_ge_cases c' 2) as [L' | G]; [| specialize (Obc G)]; lia).
      assert (d' < 2) by (destruct (Nat.lt_ge_cases d' 2) as [L' | G]; [| specialize (Obd G)]; lia).
      clear - Nbc Nbd Ncd L H H0. lia. }
    assert (2 <= a') by (apply Oab; assumption).
    assert (c' < 2) by (clear - Ha Hb Hc Nab Nac Nbc H H0; lia).
    assert (d' < 2) by (clear - Ha Hb Hd Nab Nad Nbd H H0; lia).
    clear - Ha Hb Hc Hd Nab Ncd H H0 H1 H2. lia. }
  unfold find_neighbors.
  replace (distance_matrix X_dup)
    with (@Ok (list (list dist))
            [[Sqrt 0; Sqrt 0; Sqrt 1; Sqrt 1]; [Sqrt 0; Sqrt 0; Sqrt 1; Sqrt 1];
             [Sqrt 1; Sqrt 1; Sqrt 0; Sqrt 0]; [Sqrt 1; Sqrt 1; Sqrt 0; Sqrt 0]])
    by (vm_compute; reflexivity).
  cbn [bind n_samples X_dup length seq mapM py_index nth_error].
  unfold k_nearest. rewrite E1, E2.
  exists [(0, b); (1, b); (2, b'); (3, b')], [(0, c); (1, c); (2, c'); (3, c')], b.
  split.
  - destruct C1 as [[[-> ->] | [-> ->]] [[-> ->] | [-> ->]]];
      destruct C2 as [[[-> ->] | [-> ->]] [[-> ->] | [-> ->]]];
      vm_compute; reflexivity.
  - destruct C1 as [[[-> ->] | [-> ->]] _]; simpl; auto.
Qed.

(* ------------------------------------------------------------------ *)
(** ** [max_diff]: the ranges of the columns *)

Lemma fold_Qmax_const (l : list Q) (x v : Q) :
  (x == v)%Q -> (forall z, In z l -> (z == v)%Q) -> (fold_left Qmax l x == v)%Q.
Proof.
  revert x. induction l as [| y l IH]; intros x Hx Hl; simpl; [exact Hx |].
  apply IH.
  - rewrite Hx, (Hl y (or_introl eq_refl)). apply Q.max_id.
  - intros z Hz. apply Hl. right. exact Hz.
Qed.

Lemma fold_Qmin_const (l : list Q) (x v : Q) :
  (x == v)%Q -> (forall z, In z l -> (z == v)%Q) -> (fold_left Qmin l x == v)%Q.
Proof.
  revert x. induction l as [| y l IH]; intros x Hx Hl; simpl; [exact Hx |].
  apply IH.
  - rewrite Hx, (Hl y (or_introl eq_refl)). apply Q.min_id.
  - intros z Hz. apply Hl. right. exact Hz.
Qed.

Lemma col_range_nonneg (X : matrix) (j : nat) :
  0 < n_samples X -> (0 <= col_range X j)%Q.
Proof.
  intros Hn. unfold col_range.
  destruct (column X j) as [| x c] eqn:Ec.
  - pose proof (column_length X j) as HL. rewrite Ec in HL. simpl in HL. lia.
  - pose proof (list_max_ge (x :: c) x (or_introl eq_refl)).
    pose proof (list_min_le (x :: c) x (or_introl eq_refl)). lra.
Qed.

Lemma col_range_zero_iff (X : matrix) (j : nat) :
  0 < n_samples X ->
  ((col_range X j == 0)%Q <->
   forall x x', In x (column X j) -> In x' (column X j) -> (x == x')%Q).
Proof.
  intros Hn. unfold col_range. split.
  - intros H x x' Hx Hx'.
    pose proof (zero_range_constant (column X j) x H Hx).
    pose proof (zero_range_constant (column X j) x' H Hx'). lra.
  - intros H. destruct (column X j) as [| x c] eqn:Ec.
    + pose proof (column_length X j) as HL. rewrite Ec in HL. simpl in HL. lia.
    + assert (Hmax : (list_max (x :: c) == x)%Q).
      { simpl. apply fold_Qmax_const; [reflexivity |].
        intros z Hz. apply H; [right; exact Hz | left; reflexivity]. }
      assert (Hmin : (list_min (x :: c) == x)%Q).
      { simpl. apply fold_Qmin_const; [reflexivity |].
        intros z Hz. apply H; [right; exact Hz | left; reflexivity]. }
      rewrite Hmax, Hmin. ring.
Qed.

(** X3.  [max_diff] raises [ValueError] on a matrix without rows.  On any
    other matrix it returns one range per feature; a range is never
    negative, and it is 0 exactly when all values of the feature are
    equal. *)
Theorem max_diff_ranges (X : matrix) :
  (n_samples X = 0 -> exists msg, max_diff X = Raise (ValueError msg)) /\
  (0 < n_samples X ->
   exists d,
     max_diff X = Ok d /\ length d = n_features X /\
     forall j r, nth_error d j = Some r ->
       (0 <= r)%Q /\
       ((r == 0)%Q <->
        forall x x', In x (column X j) -> In x' (column X j) -> (x == x')%Q)).
Proof.
  split.
  - destruct X as [| r X']; [| discriminate]. intros _. eexists. reflexivity.
  - intros Hn. rewrite (max_diff_ok X Hn). eexists. split; [reflexivity |].
    split; [rewrite length_map, length_seq; reflexivity |].
    intros j r Hj. rewrite nth_error_map, nth_error_seq in Hj.
    destruct (Nat.ltb j (n_features X)); [| discriminate].
    simpl in Hj. inversion Hj. subst r.
    split; [apply col_range_nonneg; exact Hn | apply col_range_zero_iff; exact Hn].
Qed.

(* ------------------------------------------------------------------ *)
(** ** The normalised matrix and the distances *)

Lemma distance_matrix_inv_full (X : matrix) (D : list (list dist)) :
  distance_matrix X = Ok D ->
  0 < n_samples X /\
  D = map (fun a => map (fun b => euclidean a b)
                      (normalize X (map (fun f => list_min (column X f))
                                        (seq 0 (n_features X)))
                                 (assign_where_zero
                                    (astype_float64
                                       (map (col_range X) (seq 0 (n_features X)))))))
          (normalize X (map (fun f => list_min (column X f)) (seq 0 (n_features X)))
                     (assign_where_zero
                        (astype_float64 (map (col_range X) (seq 0 (n_features X)))))).
Proof.
  intros H.
  assert (Hn : 0 < n_samples X).
  { unfold distance_matrix in H. apply bind_ok_inv in H. destruct H as [d [Hd _]].
    apply max_diff_length in Hd. apply Hd. }
  split; [exact Hn |].
  unfold distance_matrix in H.
  rewrite (max_diff_ok X Hn), (np_min_axis0_ok X Hn) in H. cbn [bind] in H.
  apply pairwise_distances_inv. exact H.
Qed.

(** Every entry of the normalised matrix lies between 0 and 1. *)
Lemma normalize_unit_interval (X : matrix) (row : list float64) (z : float64) :
  0 < n_samples X ->
  In row (normalize X (map (fun f => list_min (column X f)) (seq 0 (n_features X)))
                    (assign_where_zero
                       (astype_float64 (map (col_range X) (seq 0 (n_features X)))))) ->
  In z row ->
  exists q, z = Fin q /\ (0 <= q <= 1)%Q.
Proof.
  intros Hn Hrow Hz. unfold normalize in Hrow. rewrite map_map in Hrow.
  apply in_map_iff in Hrow. destruct Hrow as [xrow [<- Hx]].
  destruct (In_nth_error _ _ Hz) as [j Hj].
  apply zip_with_nth_error in Hj. destruct Hj as [c [g [Hc [Hg ->]]]].
  apply zip_with_nth_error in Hc. destruct Hc as [x [m [Hxj [Hm ->]]]].
  rewrite guard_nth_error, nth_error_map, nth_error_seq in Hg.
  rewrite nth_error_map, nth_error_seq in Hm.
  destruct (Nat.ltb j (n_features X)); [| discriminate].
  simpl in Hg, Hm. inversion Hg. inversion Hm. subst g m. clear Hg Hm.
  assert (Hin : In x (column X j)).
  { unfold column. apply in_map_iff. exists xrow. split; [| exact Hx].
    apply nth_error_nth. exact Hxj. }
  pose proof (list_max_ge _ _ Hin) as Hmax.
  pose proof (list_min_le _ _ Hin) as Hmin.
  destruct (Qeq_bool (col_range X j) 0) eqn:E.
  - rewrite np_div_fin by reflexivity. eexists. split; [reflexivity |].
    apply Qeq_bool_eq in E.
    rewrite (zero_range_constant (column X j) x E Hin). unfold Qdiv.
    rewrite Qmult_0_l. split; [apply Qle_refl | discriminate].
  - rewrite np_div_fin by exact E. eexists. split; [reflexivity |].
    apply Qeq_bool_neq in E. unfold col_range in *.
    assert (Hpos : (0 < list_max (column X j) - list_min (column X j))%Q).
    { destruct (Qlt_le_dec 0 (list_max (column X j) - list_min (column X j)))
        as [L | G]; [exact L |].
      exfalso. apply E. lra. }
    split.
    + apply Qle_shift_div_l; [exact Hpos |]. lra.
    + apply Qle_shift_div_r; [exact Hpos |]. lra.
Qed.

Lemma normalize_row_length (X : matrix) (mn : list Q) (v : list float64)
  (row : list float64) :
  In row (normalize X mn v) -> length row <= length v.
Proof.
  unfold normalize. rewrite map_map. intros H. apply in_map_iff in H.
  destruct H as [xrow [<- _]]. rewrite zip_with_length. apply Nat.le_min_r.
Qed.

Lemma Qsum_le_length (l : list Q) :
  (forall x, In x l -> (x <= 1)%Q) -> (Qsum l <= inject_Z (Z.of_nat (length l)))%Q.
Proof.
  induction l as [| x l IH]; intros H.
  - simpl. apply Qle_refl.
  - cbn [Qsum fold_right length]. rewrite Nat2Z.inj_succ. unfold Z.succ.
    rewrite inject_Z_plus. fold (Qsum l).
    pose proof (H x (or_introl eq_refl)).
    pose proof (IH (fun z Hz => H z (or_intror Hz))).
    change (inject_Z 1) with 1%Q. lra.
Qed.

Lemma square_le_one (t : Q) : (-1 <= t <= 1)%Q -> (t * t <= 1)%Q.
Proof.
  intros Ht. destruct (Qlt_le_dec t 0) as [L | G].
  - assert (H : ((- t) * (- t) <= 1 * 1)%Q)
      by (apply Qmult_le_compat_nonneg; split; lra).
    setoid_replace (t * t)%Q with ((- t) * (- t))%Q by ring. lra.
  - assert (H : (t * t <= 1 * 1)%Q)
      by (apply Qmult_le_compat_nonneg; split; lra).
    lra.
Qed.

Lemma sq_diff_unit (p q : Q) :
  (0 <= p <= 1)%Q -> (0 <= q <= 1)%Q -> (sq_diff (Fin p) (Fin q) <= 1)%Q.
Proof.
  intros Hp Hq. unfold sq_diff, fin_val. apply square_le_one. lra.
Qed.

Lemma euclidean_sym (a b : list float64) :
  (radicand (euclidean a b) == radicand (euclidean b a))%Q.
Proof.
  unfold euclidean. cbn [radicand]. rewrite !fold_left_Qplus.
  apply Qplus_comp; [reflexivity |].
  revert b. induction a as [| x a IH]; intros [| y b]; simpl; try reflexivity.
  rewrite (IH b). unfold sq_diff. ring.
Qed.

Lemma euclidean_bounded (a b : list float64) :
  (forall z, In z a -> exists q, z = Fin q /\ (0 <= q <= 1)%Q) ->
  (forall z, In z b -> exists q, z = Fin q /\ (0 <= q <= 1)%Q) ->
  (radicand (euclidean a b) <= inject_Z (Z.of_nat (length a)))%Q.
Proof.
  intros Ha Hb. unfold euclidean. cbn [radicand]. rewrite fold_left_Qplus.
  assert (Hle : (Qsum (zip_with sq_diff a b)
                 <= inject_Z (Z.of_nat (length (zip_with sq_diff a b))))%Q).
  { apply Qsum_le_length. intros x Hx. destruct (In_nth_error _ _ Hx) as [j Hj].
    apply zip_with_nth_error in Hj. destruct Hj as [u [w [Hu [Hw ->]]]].
    destruct (Ha u (nth_error_In _ _ Hu)) as [p [-> Hp]].
    destruct (Hb w (nth_error_In _ _ Hw)) as [q [-> Hq]].
    apply sq_diff_unit; assumption. }
  assert (Hlen : (inject_Z (Z.of_nat (length (zip_with sq_diff a b)))
                  <= inject_Z (Z.of_nat (length a)))%Q).
  { rewrite <- Zle_Qle. apply Nat2Z.inj_le. rewrite zip_with_length. apply Nat.le_min_l. }
  lra.
Qed.

(** X4.  On a matrix with at least one sample and one feature
    [distance_matrix] returns a square matrix of the size of the sample:
    it is symmetric, its diagonal is 0, and no distance is negative or
    exceeds [sqrt(n_features)]. *)
Theorem distance_matrix_metric (X : matrix) :
  0 < n_samples X -> 0 < n_features X ->
  exists D,
    distance_matrix X = Ok D /\
    length D = n_samples X /\
    (forall row, In row D -> length row = n_samples X) /\
    (forall i j ri rj dij dji,
       nth_error D i = Some ri -> nth_error D j = Some rj ->
       nth_error ri j = Some dij -> nth_error rj i = Some dji ->
       (radicand dij == radicand dji)%Q) /\
    (forall i ri dii,
       nth_error D i = Some ri -> nth_error ri i = Some dii -> (radicand dii == 0)%Q) /\
    (forall row d, In row D -> In d row ->
       (0 <= radicand d <= inject_Z (Z.of_nat (n_features X)))%Q).
Proof.
  intros Hn Hm. destruct (distance_matrix_ok X Hn Hm) as [S0 [_ HD]].
  exists (map (fun a => map (fun b => euclidean a b) S0) S0). split; [exact HD |].
  destruct (distance_matrix_inv_full X _ HD) as [_ E].
  set (S := normalize X _ _) in E. rewrite E. clear E HD S0.
  assert (HS : length S = n_samples X) by apply normalize_length.
  assert (Hrow : forall i ri, nth_error (map (fun a => map (fun b => euclidean a b) S) S) i
                              = Some ri ->
                 exists a, nth_error S i = Some a /\ ri = map (fun b => euclidean a b) S).
  { intros i ri H. rewrite nth_error_map in H.
    destruct (nth_error S i) as [a |]; [| discriminate].
    exists a. split; [reflexivity |]. inversion H. reflexivity. }
  split; [rewrite length_map; exact HS |].
  split; [intros row Hr; apply in_map_iff in Hr; destruct Hr as [a [<- _]];
          rewrite length_map; exact HS |].
  split; [| split].
  - intros i j ri rj dij dji Hi Hj Hij Hji.
    destruct (Hrow i ri Hi) as [a [Ha ->]]. destruct (Hrow j rj Hj) as [b [Hb ->]].
    rewrite (map_nth_error (fun c => euclidean a c) j S Hb) in Hij.
    rewrite (map_nth_error (fun c => euclidean b c) i S Ha) in Hji.
    inversion Hij. inversion Hji. apply euclidean_sym.
  - intros i ri dii Hi Hii. destruct (Hrow i ri Hi) as [a [Ha ->]].
    rewrite (map_nth_error (fun c => euclidean a c) i S Ha) in Hii.
    inversion Hii. apply euclidean_self.
  - intros row d Hr Hd. apply in_map_iff in Hr. destruct Hr as [a [<- Ha]].
    apply in_map_iff in Hd. destruct Hd as [b [<- Hb]].
    split; [apply euclidean_nonneg |].
    eapply Qle_trans.
    + apply euclidean_bounded; intros z Hz;
        [apply (normalize_unit_interval X a z Hn Ha Hz)
        | apply (normalize_unit_interval X b z Hn Hb Hz)].
    + rewrite <- Zle_Qle. apply Nat2Z.inj_le.
      pose proof (normalize_row_length X _ _ a Ha) as HL.
      rewrite guard_length, length_map, length_seq in HL. exact HL.
Qed.

Lemma guard_as_spec_range (X : matrix) :
  assign_where_zero (astype_float64 (map (col_range X) (seq 0 (n_features X)))) =
  map Fin (map (spec_range X) (seq 0 (n_features X))).
Proof.
  unfold assign_where_zero, astype_float64. rewrite !map_map.
  apply map_ext. intros j. unfold spec_range. simpl.
  destruct (Qeq_bool (col_range X j) 0); reflexivity.
Qed.






(* ------------------------------------------------------------------ *)
(** ** The loop body of [find_neighbors], in general *)

Lemma py_slice_length_le {A : Type} (start stop : Z) (l : list A) :
  (0 <= start)%Z -> (0 <= stop)%Z ->
  length (py_slice start stop l) <= Z.to_nat (stop - start).
Proof.
  intros Hs Ht. unfold py_slice. rewrite length_firstn, length_skipn. unfold py_clamp.
  destruct (Z.ltb_spec start 0); [lia |].
  destruct (Z.ltb_spec stop 0); lia.
Qed.

Lemma NoDup_firstn {A : Type} (n : nat) (l : list A) : NoDup l -> NoDup (firstn n l).
Proof.
  intros H. rewrite <- (firstn_skipn n l) in H. apply NoDup_app_remove_r in H. exact H.
Qed.

Lemma NoDup_skipn {A : Type} (n : nat) (l : list A) : NoDup l -> NoDup (skipn n l).
Proof.
  intros H. rewrite <- (firstn_skipn n l) in H. apply NoDup_app_remove_l in H. exact H.
Qed.

Lemma NoDup_py_slice {A : Type} (start stop : Z) (l : list A) :
  NoDup l -> NoDup (py_slice start stop l).
Proof.
  intros H. unfold py_slice. apply NoDup_firstn, NoDup_skipn. exact H.
Qed.

Lemma NoDup_filter {A : Type} (p : A -> bool) (l : list A) : NoDup l -> NoDup (filter p l).
Proof.
  induction 1 as [| x l Hx _ IH]; simpl; [constructor |].
  destruct (p x); [constructor; [| exact IH] | exact IH].
  intros H. apply Hx. apply filter_In in H. apply H.
Qed.

Lemma labelled_map_fst (y : list Z) (order : list nat) :
  map fst (labelled y order) = order.
Proof.
  unfold labelled. rewrite map_map. simpl. apply map_id.
Qed.

Lemma NoDup_map_fst_sub (y : list Z) (order : list nat) (l : list (nat * Z)) :
  NoDup order -> NoDup l -> (forall r, In r l -> In r (labelled y order)) ->
  NoDup (map fst l).
Proof.
  intros Ho Hl Hsub. induction Hl as [| r l Hr _ IH]; simpl; [constructor |].
  constructor.
  - intros H. apply in_map_iff in H. destruct H as [r' [E Hr']].
    apply Hr.
    destruct (labelled_fst y order r (Hsub r (or_introl eq_refl))) as [_ E1].
    destruct (labelled_fst y order r' (Hsub r' (or_intror Hr'))) as [_ E2].
    destruct r as [a la], r' as [b lb]. simpl in *. subst. exact Hr'.
  - apply IH. intros r' Hr'. apply Hsub. right. exact Hr'.
Qed.

Lemma NoDup_labelled (y : list Z) (order : list nat) :
  NoDup order -> NoDup (labelled y order).
Proof.
  intros H. apply (NoDup_map_inv fst). rewrite labelled_map_fst. exact H.
Qed.

Section LoopBody.

Variable argsort : argsort_fn.
Hypothesis argsort_ok : argsort_spec argsort.

(** The hits and the misses of one row, by label. *)
Lemma k_nearest_split (y : list Z) (k : Z) (row : list dist) (h m : list nat) :
  length row = length y -> 0 < length y -> (0 <= k)%Z ->
  k_nearest argsort y k row = Ok (h, m) ->
  length h <= Z.to_nat k /\ length m <= Z.to_nat k /\ NoDup h /\ NoDup m /\
  (forall j, In j h ->
     j < length y /\ nth j y 0%Z = nth (hd 0 (nearest argsort row)) y 0%Z /\
     j <> hd 0 (nearest argsort row)) /\
  (forall j, In j m ->
     j < length y /\ nth j y 0%Z <> nth (hd 0 (nearest argsort row)) y 0%Z) /\
  (forall j, In j h -> ~ In j m).
Proof.
  intros Hlen Hpos Hk Hkn.
  rewrite (k_nearest_eq argsort argsort_ok y k row Hlen Hpos) in Hkn.
  injection Hkn as Hh Hm.
  pose proof (argsort_perm argsort argsort_ok dist_leb row) as Hperm.
  fold (nearest argsort row) in Hperm. rewrite Hlen in Hperm.
  set (order := nearest argsort row) in *.
  set (ref := nth (hd 0 order) y 0%Z) in *.
  assert (Hnd : NoDup order).
  { apply (Permutation_NoDup (Permutation_sym Hperm)). apply seq_NoDup. }
  assert (Hlt : forall j, In j order -> j < length y).
  { intros j Hj. apply (Permutation_in _ Hperm) in Hj. apply in_seq in Hj. lia. }
  assert (Hhit : forall j, In j h -> j < length y /\ nth j y 0%Z = ref /\ j <> hd 0 order).
  { intros j Hj. rewrite <- Hh in Hj. apply in_map_iff in Hj.
    destruct Hj as [r [<- Hr]].
    destruct order as [| i rest] eqn:Eo.
    - unfold py_slice in Hr. simpl in Hr. rewrite firstn_nil in Hr. contradiction.
    - cbn [labelled map filter snd hd] in Hr. subst ref. cbn [hd] in *.
      rewrite Z.eqb_refl in Hr. fold (labelled y rest) in Hr.
      apply py_slice_from_one in Hr. apply filter_In in Hr. destruct Hr as [Hr Heq].
      apply labelled_fst in Hr. destruct Hr as [Hin Hlab]. apply Z.eqb_eq in Heq.
      split; [apply Hlt; right; exact Hin |]. split; [congruence |].
      intros E. inversion Hnd as [| ? ? Hni _]. apply Hni. rewrite <- E. exact Hin. }
  assert (Hmiss : forall j, In j m -> j < length y /\ nth j y 0%Z <> ref).
  { intros j Hj. rewrite <- Hm in Hj. apply in_map_iff in Hj.
    destruct Hj as [r [<- Hr]]. apply py_slice_incl in Hr.
    apply filter_In in Hr. destruct Hr as [Hr Hne].
    apply labelled_fst in Hr. destruct Hr as [Hin Hlab].
    apply negb_true_iff, Z.eqb_neq in Hne.
    split; [apply Hlt; exact Hin | congruence]. }
  split; [| split; [| split; [| split; [| split; [exact Hhit | split; [exact Hmiss |]]]]]].
  - rewrite <- Hh, length_map.
    pose proof (py_slice_length_le 1 (k + 1)
                  (filter (fun r => Z.eqb (snd r) ref) (labelled y order))).
    replace (k + 1 - 1)%Z with k in H by lia. apply H; lia.
  - rewrite <- Hm, length_map.
    pose proof (py_slice_length_le 0 k
                  (filter (fun r => negb (Z.eqb (snd r) ref)) (labelled y order))).
    rewrite Z.sub_0_r in H. apply H; lia.
  - rewrite <- Hh. apply (NoDup_map_fst_sub y order); [exact Hnd | |].
    + apply NoDup_py_slice, NoDup_filter, NoDup_labelled. exact Hnd.
    + intros r Hr. apply py_slice_incl, filter_In in Hr. apply Hr.
  - rewrite <- Hm. apply (NoDup_map_fst_sub y order); [exact Hnd | |].
    + apply NoDup_py_slice, NoDup_filter, NoDup_labelled. exact Hnd.
    + intros r Hr. apply py_slice_incl, filter_In in Hr. apply Hr.
  - intros j Hjh Hjm. destruct (Hhit j Hjh) as [_ [E _]].
    destruct (Hmiss j Hjm) as [_ N]. contradiction.
Qed.

(** X6.  Whatever the sorted order is, the hits that the loop body returns
    for a row of distances carry the label of the sample in the first
    sorted position and are not that sample, the misses carry another
    label, so no sample is both; each list has at most [k] entries, all of
    them distinct sample indices. *)
Theorem k_nearest_partition (y : list Z) (k : Z) (row : list dist) (h m : list nat) :
  length row = length y -> 0 < length y -> (0 <= k)%Z ->
  k_nearest argsort y k row = Ok (h, m) ->
  length h <= Z.to_nat k /\ length m <= Z.to_nat k /\ NoDup h /\ NoDup m /\
  (forall j, In j h ->
     j < length y /\ nth j y 0%Z = nth (hd 0 (nearest argsort row)) y 0%Z /\
     j <> hd 0 (nearest argsort row)) /\
  (forall j, In j m ->
     j < length y /\ nth j y 0%Z <> nth (hd 0 (nearest argsort row)) y 0%Z) /\
  (forall j, In j h -> ~ In j m).
Proof.
  exact (k_nearest_split y k row h m).
Qed.


Lemma ascending_tail {A : Type} (leb : A -> A -> bool) (keys : list A) (x : nat)
  (order : list nat) :
  ascending leb keys (x :: order) -> ascending leb keys order.
Proof.
  intros H p q i j a b Hpq Hi Hj Ha Hb.
  apply (H (S p) (S q) i j a b); [lia | exact Hi | exact Hj | exact Ha | exact Hb].
Qed.

(** The relation that an ascending order puts between an earlier and a
    later index. *)
Lemma ascending_StronglySorted {A : Type} (leb : A -> A -> bool) (keys : list A)
  (order : list nat) :
  ascending leb keys order ->
  StronglySorted (fun i j => forall a b, nth_error keys i = Some a ->
                                         nth_error keys j = Some b -> leb a b = true)
                 order.
Proof.
  induction order as [| x order IH]; intros H; [constructor |].
  constructor; [apply IH; eapply ascending_tail; exact H |].
  apply Forall_forall. intros z Hz a b Ha Hb.
  destruct (In_nth_error _ _ Hz) as [q Hq].
  apply (H 0 (S q) x z a b); [lia | reflexivity | exact Hq | exact Ha | exact Hb].
Qed.

Lemma StronglySorted_unmap {A B : Type} (R : B -> B -> Prop) (f : A -> B) (l : list A) :
  StronglySorted R (map f l) -> StronglySorted (fun a b => R (f a) (f b)) l.
Proof.
  induction l as [| x l IH]; simpl; intros H; [constructor |].
  inversion H as [| ? ? Hs Hall]; subst. constructor; [apply IH; exact Hs |].
  rewrite Forall_forall in *. intros z Hz. apply Hall. apply in_map. exact Hz.
Qed.

Lemma StronglySorted_filter {A : Type} (R : A -> A -> Prop) (p : A -> bool) (l : list A) :
  StronglySorted R l -> StronglySorted R (filter p l).
Proof.
  induction 1 as [| x l Hs IH Hall]; simpl; [constructor |].
  destruct (p x); [| exact IH]. constructor; [exact IH |].
  rewrite Forall_forall in *. intros z Hz. apply filter_In in Hz. apply Hall, Hz.
Qed.

Lemma StronglySorted_app_cross {A : Type} (R : A -> A -> Prop) (l1 l2 : list A) :
  StronglySorted R (l1 ++ l2) -> forall a b, In a l1 -> In b l2 -> R a b.
Proof.
  induction l1 as [| x l1 IH]; simpl; intros H a b Ha Hb; [contradiction |].
  inversion H as [| ? ? Hs Hall]; subst. destruct Ha as [-> | Ha].
  - rewrite Forall_forall in Hall. apply Hall. apply in_or_app. right. exact Hb.
  - apply (IH Hs a b Ha Hb).
Qed.

(** In a sorted list of rows, a row kept by a prefix of a filter is at most
    as far as a row the filter keeps but the prefix leaves out. *)
Lemma prefix_of_filter_nearest (R : nat * Z -> nat * Z -> Prop) (p : nat * Z -> bool)
  (n : nat) (l : list (nat * Z)) (a b : nat * Z) :
  StronglySorted R l ->
  In a (firstn n (filter p l)) -> In b (filter p l) -> ~ In b (firstn n (filter p l)) ->
  R a b.
Proof.
  intros Hs Ha Hb Hnb.
  apply (StronglySorted_app_cross R (firstn n (filter p l)) (skipn n (filter p l))).
  - rewrite firstn_skipn. apply StronglySorted_filter. exact Hs.
  - exact Ha.
  - rewrite <- (firstn_skipn n (filter p l)) in Hb. apply in_app_or in Hb.
    destruct Hb as [Hb | Hb]; [contradiction | exact Hb].
Qed.

(** X7.  The hits are the nearest: a sample with the reference label that
    is neither the first of the sorted order nor among the hits is at
    least as far away as every hit.  Likewise a sample with another label
    that is not among the misses is at least as far away as every miss. *)
Theorem k_nearest_are_nearest (y : list Z) (k : Z) (row : list dist) (h m : list nat) :
  length row = length y -> 0 < length y ->
  k_nearest argsort y k row = Ok (h, m) ->
  (forall j j' dj dj',
     In j h -> j' < length y ->
     nth j' y 0%Z = nth (hd 0 (nearest argsort row)) y 0%Z ->
     j' <> hd 0 (nearest argsort row) -> ~ In j' h ->
     nth_error row j = Some dj -> nth_error row j' = Some dj' ->
     dist_leb dj dj' = true) /\
  (forall j j' dj dj',
     In j m -> j' < length y ->
     nth j' y 0%Z <> nth (hd 0 (nearest argsort row)) y 0%Z -> ~ In j' m ->
     nth_error row j = Some dj -> nth_error row j' = Some dj' ->
     dist_leb dj dj' = true).
Proof.
  intros Hlen Hpos Hkn.
  rewrite (k_nearest_eq argsort argsort_ok y k row Hlen Hpos) in Hkn.
  injection Hkn as Hh Hm.
  destruct (argsort_ok dist dist_leb row) as [Hperm Hasc].
  specialize (Hasc dist_leb_total_preorder).
  fold (nearest argsort row) in Hperm, Hasc. rewrite Hlen in Hperm.
  set (order := nearest argsort row) in *.
  set (ref := nth (hd 0 order) y 0%Z) in *.
  set (R := fun r r' : nat * Z =>
              forall a b, nth_error row (fst r) = Some a ->
                          nth_error row (fst r') = Some b -> dist_leb a b = true).
  assert (Hsorted : StronglySorted R (labelled y order)).
  { apply (StronglySorted_unmap
             (fun i j => forall a b, nth_error row i = Some a ->
                                     nth_error row j = Some b -> dist_leb a b = true) fst).
    rewrite labelled_map_fst. apply ascending_StronglySorted. exact Hasc. }
  assert (Hin : forall j, j < length y -> In (j, nth j y 0%Z) (labelled y order)).
  { intros j Hj. unfold labelled. apply in_map_iff. exists j. split; [reflexivity |].
    apply (Permutation_in _ (Permutation_sym Hperm)). apply in_seq. lia. }
  split.
  - intros j j' dj dj' Hj Hj' Hlab Hne Hnot Hdj Hdj'.
    rewrite <- Hh in Hj, Hnot. apply in_map_iff in Hj. destruct Hj as [r [Er Hr]].
    destruct order as [| i rest] eqn:Eo.
    { unfold py_slice in Hr. simpl in Hr. rewrite firstn_nil in Hr. contradiction. }
    cbn [hd] in *. cbn [labelled map filter snd] in Hr, Hnot.
    fold ref in Hr, Hnot. rewrite Z.eqb_refl in Hr, Hnot.
    fold (labelled y rest) in Hr, Hnot.
    unfold py_slice in Hr, Hnot.
    replace (Z.to_nat (py_clamp (Z.of_nat (length ((i, ref)
               :: filter (fun r => Z.eqb (snd r) ref) (labelled y rest)))) 1))
      with 1 in Hr, Hnot by (unfold py_clamp; cbn [Z.ltb Z.compare length]; lia).
    cbn [skipn] in Hr, Hnot.
    assert (Hs' : StronglySorted R (labelled y rest)).
    { cbn [labelled map] in Hsorted. inversion Hsorted; assumption. }
    assert (Hb : In (j', nth j' y 0%Z)
                    (filter (fun r => Z.eqb (snd r) ref) (labelled y rest))).
    { apply filter_In. split.
      - destruct (Hin j' Hj') as [E | Hx]; [inversion E; congruence | exact Hx].
      - simpl. apply Z.eqb_eq. exact Hlab. }
    pose proof (prefix_of_filter_nearest R _ _ _ r (j', nth j' y 0%Z) Hs' Hr Hb) as HR.
    subst j. apply HR; [| exact Hdj | exact Hdj'].
    intros Hc. apply Hnot. apply in_map_iff. exists (j', nth j' y 0%Z). auto.
  - intros j j' dj dj' Hj Hj' Hlab Hnot Hdj Hdj'.
    rewrite <- Hm in Hj, Hnot. apply in_map_iff in Hj. destruct Hj as [r [Er Hr]].
    destruct (py_slice_prefix k
                (filter (fun r => negb (Z.eqb (snd r) ref)) (labelled y order)))
      as [n Hn].
    rewrite Hn in Hr, Hnot.
    assert (Hb : In (j', nth j' y 0%Z)
                    (filter (fun r => negb (Z.eqb (snd r) ref)) (labelled y order))).
    { apply filter_In. split; [apply Hin; exact Hj' |].
      simpl. apply negb_true_iff, Z.eqb_neq. exact Hlab. }
    pose proof (prefix_of_filter_nearest R _ _ _ r (j', nth j' y 0%Z) Hsorted Hr Hb) as HR.
    subst j. apply HR; [| exact Hdj | exact Hdj'].
    intros Hc. apply Hnot. apply in_map_iff. exists (j', nth j' y 0%Z). auto.
Qed.

End LoopBody.

(* ------------------------------------------------------------------ *)
(** ** The arrays that [find_neighbors] returns *)

Lemma combine_app_eq {A B : Type} (a a' : list A) (b b' : list B) :
  length a = length b -> combine (a ++ a') (b ++ b') = combine a b ++ combine a' b'.
Proof.
  revert b. induction a as [| x a IH]; intros [| z b] H; simpl in *; try discriminate.
  - reflexivity.
  - rewrite IH by lia. reflexivity.
Qed.

Lemma map_fst_combine_eq {A B : Type} (a : list A) (b : list B) :
  length a = length b -> map fst (combine a b) = a.
Proof.
  revert b. induction a as [| x a IH]; intros [| z b] H; simpl in *; try discriminate.
  - reflexivity.
  - rewrite IH by lia. reflexivity.
Qed.

Lemma length_concat_le {A : Type} (c : nat) (ls : list (list A)) :
  Forall (fun l => length l <= c) ls -> length (concat ls) <= length ls * c.
Proof.
  induction 1 as [| l ls Hl _ IH]; simpl; [lia |]. rewrite length_app. lia.
Qed.

Lemma uniform_from_total {A : Type} (c : nat) (ls : list (list A)) :
  Forall (fun l => length l <= c) ls -> length (concat ls) = length ls * c ->
  Forall (fun l => length l = c) ls.
Proof.
  induction 1 as [| l ls Hl Hall IH]; simpl; intros H; [constructor |].
  rewrite length_app in H. pose proof (length_concat_le c ls Hall).
  constructor; [lia | apply IH; lia].
Qed.

Lemma filter_block_self (s : nat) (h : list nat) :
  map snd (filter (fun p => fst p =? s) (combine (repeat s (length h)) h)) = h.
Proof.
  induction h as [| x h IH]; simpl; [reflexivity |].
  rewrite Nat.eqb_refl. simpl. rewrite IH. reflexivity.
Qed.

Lemma filter_fst_none (i : nat) (a b : list nat) :
  ~ In i a -> filter (fun p => fst p =? i) (combine a b) = [].
Proof.
  revert b. induction a as [| x a IH]; intros b H; [reflexivity |].
  destruct b as [| z b]; [reflexivity |]. simpl.
  destruct (Nat.eqb_spec x i) as [E | _].
  - exfalso. apply H. left. exact E.
  - apply IH. intros Hi. apply H. right. exact Hi.
Qed.

Lemma in_blocks (c s n i : nat) :
  In i (flat_map (fun j => repeat j c) (seq s n)) -> s <= i < s + n.
Proof.
  intros H. apply in_flat_map in H. destruct H as [j [Hj Hi]].
  apply repeat_spec in Hi. subst i. apply in_seq in Hj. exact Hj.
Qed.

(** Stacking the index blocks with per-sample lists of one length, the
    pairs of sample [s + p] are the entries of the [p]-th list. *)
Lemma neighbors_of_blocks (c : nat) (hs : list (list nat)) (s p : nat) (h : list nat) :
  Forall (fun l => length l = c) hs -> nth_error hs p = Some h ->
  neighbors_of (combine (flat_map (fun j => repeat j c) (seq s (length hs))) (concat hs))
               (s + p) = h.
Proof.
  unfold neighbors_of. intros Hall. revert s p.
  induction Hall as [| l hs Hl Hall IH]; intros s p Hp; [destruct p; discriminate |].
  cbn [length seq flat_map concat].
  rewrite combine_app_eq by (rewrite repeat_length; symmetry; exact Hl).
  rewrite filter_app, map_app. destruct p as [| p]; simpl in Hp.
  - inversion Hp. subst l. rewrite Nat.add_0_r, <- Hl, filter_block_self.
    rewrite filter_fst_none; [apply app_nil_r |].
    intros Hi. apply in_blocks in Hi. lia.
  - rewrite (filter_fst_none (s + S p) (repeat s c)).
    + simpl. replace (s + S p) with (S s + p) by lia. apply IH. exact Hp.
    + intros Hi. apply repeat_spec in Hi. lia.
Qed.

Section NeighborArrays.

Variable argsort : argsort_fn.
Hypothesis argsort_ok : argsort_spec argsort.

Lemma k_nearest_sub (y : list Z) (k : Z) (row : list dist) (h m : list nat) :
  k_nearest argsort y k row = Ok (h, m) ->
  forall j, In j h \/ In j m -> In j (nearest argsort row).
Proof.
  unfold k_nearest. intros H. apply bind_ok_inv in H. destruct H as [labels [_ H]].
  injection H as Hh Hm. intros j [Hj | Hj]; [rewrite <- Hh in Hj | rewrite <- Hm in Hj];
    apply in_map_iff in Hj; destruct Hj as [[a la] [<- Hr]];
    apply py_slice_incl, filter_In in Hr; destruct Hr as [Hr _];
    apply in_combine_l in Hr; exact Hr.
Qed.

Lemma k_nearest_lengths (y : list Z) (k : Z) (row : list dist) (h m : list nat) :
  (0 <= k)%Z -> k_nearest argsort y k row = Ok (h, m) ->
  length h <= Z.to_nat k /\ length m <= Z.to_nat k.
Proof.
  intros Hk. unfold k_nearest. intros H.
  apply bind_ok_inv in H. destruct H as [labels [_ H]]. injection H as Hh Hm.
  rewrite <- Hh, <- Hm, !length_map. split.
  - match goal with |- length (py_slice 1 (k + 1) ?l) <= _ =>
      pose proof (py_slice_length_le 1 (k + 1) l) as HL end.
    replace (k + 1 - 1)%Z with k in HL by lia. apply HL; lia.
  - match goal with |- length (py_slice 0 k ?l) <= _ =>
      pose proof (py_slice_length_le 0 k l) as HL end.
    rewrite Z.sub_0_r in HL. apply HL; lia.
Qed.

(** What a search that returns has computed. *)
Lemma find_neighbors_inv (X : matrix) (y : list Z) (k : Z) (hp mp : list (nat * nat)) :
  find_neighbors argsort X y k = Ok (hp, mp) ->
  exists D ps,
    distance_matrix X = Ok D /\
    mapM (fun i => distances <- py_index D i ;; k_nearest argsort y k distances)
         (seq 0 (n_samples X)) = Ok ps /\
    length (concat (map fst ps)) = n_samples X * Z.to_nat k /\
    length (concat (map snd ps)) = n_samples X * Z.to_nat k /\
    hp = combine (flat_map (fun i => repeat i (Z.to_nat k)) (seq 0 (n_samples X)))
                 (concat (map fst ps)) /\
    mp = combine (flat_map (fun i => repeat i (Z.to_nat k)) (seq 0 (n_samples X)))
                 (concat (map snd ps)).
Proof.
  unfold find_neighbors. intros H.
  apply bind_ok_inv in H. destruct H as [D [HD H]].
  apply bind_ok_inv in H. destruct H as [ps [Hps H]].
  apply bind_ok_inv in H. destruct H as [hp' [Hhp H]].
  apply bind_ok_inv in H. destruct H as [mp' [Hmp H]].
  injection H as -> ->.
  unfold column_stack in Hhp, Hmp.
  destruct (Nat.eqb_spec
              (length (flat_map (fun i => repeat i (Z.to_nat k)) (seq 0 (n_samples X))))
              (length (concat (map fst ps)))) as [E1 | _]; [| discriminate].
  destruct (Nat.eqb_spec
              (length (flat_map (fun i => repeat i (Z.to_nat k)) (seq 0 (n_samples X))))
              (length (concat (map snd ps)))) as [E2 | _]; [| discriminate].
  rewrite length_flat_map_repeat, length_seq in E1, E2.
  injection Hhp as <-. injection Hmp as <-.
  exists D, ps. repeat split; auto.
Qed.

(** The two arrays, sample after sample. *)
Lemma find_neighbors_layout (X : matrix) (y : list Z) (k : Z) (hp mp : list (nat * nat)) :
  (0 <= k)%Z ->
  find_neighbors argsort X y k = Ok (hp, mp) ->
  map fst hp = flat_map (fun i => repeat i (Z.to_nat k)) (seq 0 (n_samples X)) /\
  map fst mp = flat_map (fun i => repeat i (Z.to_nat k)) (seq 0 (n_samples X)) /\
  (forall p, In p hp \/ In p mp -> snd p < n_samples X) /\
  exists D,
    distance_matrix X = Ok D /\
    forall i row, nth_error D i = Some row ->
      k_nearest argsort y k row = Ok (neighbors_of hp i, neighbors_of mp i) /\
      length (neighbors_of hp i) = Z.to_nat k /\
      length (neighbors_of mp i) = Z.to_nat k.
Proof.
  intros Hk Hfn.
  destruct (find_neighbors_inv X y k hp mp Hfn) as [D [ps [HD [Hps [Lh [Lm [-> ->]]]]]]].
  pose proof (mapM_length _ _ _ Hps) as Hlen. rewrite length_seq in Hlen.
  pose proof (mapM_inv _ _ _ Hps) as HF.
  destruct (distance_matrix_inv X D HD) as [S [HS ED]].
  assert (Hrows : forall i hm, nth_error ps i = Some hm ->
            exists row, nth_error D i = Some row /\ length row = n_samples X /\
                        k_nearest argsort y k row = Ok hm).
  { intros i hm Hi.
    assert (Hlt : i < n_samples X) by (rewrite <- Hlen; apply nth_error_Some; congruence).
    destruct (Forall2_seq_nth_error _ 0 (n_samples X) ps i HF Hlt) as [hm' [Hhm' Hf]].
    assert (hm' = hm) by congruence. subst hm'. simpl in Hf.
    apply bind_ok_inv in Hf. destruct Hf as [row [Hrow Hkn]].
    apply py_index_inv in Hrow. exists row. split; [exact Hrow |].
    split; [| exact Hkn]. rewrite ED in Hrow.
    rewrite (distance_row_length S i row Hrow). exact HS. }
  assert (Hle : Forall (fun hm => length (fst hm) <= Z.to_nat k /\
                                  length (snd hm) <= Z.to_nat k) ps).
  { apply Forall_forall. intros [h m] Hin. destruct (In_nth_error _ _ Hin) as [i Hi].
    destruct (Hrows i (h, m) Hi) as [row [_ [_ Hkn]]].
    apply (k_nearest_lengths y k row h m Hk Hkn). }
  assert (Uh : Forall (fun l => length l = Z.to_nat k) (map fst ps)).
  { apply uniform_from_total; [| rewrite length_map, Hlen; exact Lh].
    apply Forall_map. eapply Forall_impl; [| exact Hle]. intros a Ha. apply Ha. }
  assert (Um : Forall (fun l => length l = Z.to_nat k) (map snd ps)).
  { apply uniform_from_total; [| rewrite length_map, Hlen; exact Lm].
    apply Forall_map. eapply Forall_impl; [| exact Hle]. intros a Ha. apply Ha. }
  split; [apply map_fst_combine_eq;
          rewrite length_flat_map_repeat, length_seq; symmetry; exact Lh |].
  split; [apply map_fst_combine_eq;
          rewrite length_flat_map_repeat, length_seq; symmetry; exact Lm |].
  split.
  - intros [s j] Hp. simpl.
    assert (Hj : exists hm, In hm ps /\ (In j (fst hm) \/ In j (snd hm))).
    { destruct Hp as [Hp | Hp]; apply in_combine_r, in_concat in Hp;
        destruct Hp as [l [Hl Hj]]; apply in_map_iff in Hl;
        destruct Hl as [hm [<- Hhm]]; exists hm; auto. }
    destruct Hj as [[h m] [Hin Hj]]. destruct (In_nth_error _ _ Hin) as [i Hi].
    destruct (Hrows i (h, m) Hi) as [row [_ [Hrl Hkn]]].
    apply (k_nearest_sub y k row h m Hkn) in Hj.
    apply (argsort_lt argsort argsort_ok dist_leb) in Hj. lia.
  - exists D. split; [exact HD |]. intros i row Hrow.
    assert (Hlt : i < n_samples X).
    { rewrite ED in Hrow. rewrite <- HS.
      rewrite <- (length_map (fun a => map (fun b => euclidean a b) S) S).
      apply nth_error_Some. congruence. }
    destruct (nth_error ps i) as [[h m] |] eqn:Ei;
      [| apply nth_error_None in Ei; lia].
    destruct (Hrows i (h, m) Ei) as [row' [Hrow' [_ Hkn]]].
    assert (row' = row) by congruence. subst row'.
    assert (Eh : neighbors_of
                   (combine (flat_map (fun j => repeat j (Z.to_nat k))
                                      (seq 0 (n_samples X)))
                            (concat (map fst ps))) i = h).
    { rewrite <- Hlen, <- (length_map fst ps).
      apply (neighbors_of_blocks (Z.to_nat k) (map fst ps) 0 i h Uh).
      rewrite nth_error_map, Ei. reflexivity. }
    assert (Em : neighbors_of
                   (combine (flat_map (fun j => repeat j (Z.to_nat k))
                                      (seq 0 (n_samples X)))
                            (concat (map snd ps))) i = m).
    { rewrite <- Hlen, <- (length_map snd ps).
      apply (neighbors_of_blocks (Z.to_nat k) (map snd ps) 0 i m Um).
      rewrite nth_error_map, Ei. reflexivity. }
    rewrite Eh, Em. split; [exact Hkn |].
    rewrite Forall_forall in Uh, Um. split.
    + apply Uh. apply in_map_iff. exists (h, m). split; [reflexivity |].
      eapply nth_error_In; exact Ei.
    + apply Um. apply in_map_iff. exists (h, m). split; [reflexivity |].
      eapply nth_error_In; exact Ei.
Qed.

(** X8.  When [find_neighbors] returns (with [k >= 0]), both arrays have
    [n_samples * k] rows, sample after sample: the pairs of sample [i] are
    exactly the [k] hits, and the [k] misses, that the loop body computed
    from row [i] of the distance matrix, and every neighbour is a sample
    index. *)
Theorem find_neighbors_rows (X : matrix) (y : list Z) (k : Z) (hp mp : list (nat * nat)) :
  (0 <= k)%Z ->
  find_neighbors argsort X y k = Ok (hp, mp) ->
  map fst hp = flat_map (fun i => repeat i (Z.to_nat k)) (seq 0 (n_samples X)) /\
  map fst mp = flat_map (fun i => repeat i (Z.to_nat k)) (seq 0 (n_samples X)) /\
  (forall p, In p hp \/ In p mp -> snd p < n_samples X) /\
  exists D,
    distance_matrix X = Ok D /\
    forall i row, nth_error D i = Some row ->
      k_nearest argsort y k row = Ok (neighbors_of hp i, neighbors_of mp i) /\
      length (neighbors_of hp i) = Z.to_nat k /\
      length (neighbors_of mp i) = Z.to_nat k.
Proof.
  exact (find_neighbors_layout X y k hp mp).
Qed.

End NeighborArrays.

(* ------------------------------------------------------------------ *)
(** ** What [fit] raises, and when *)

Lemma distance_matrix_raise (X : matrix) (e : exn) :
  distance_matrix X = Raise e -> exists msg, e = ValueError msg.
Proof.
  unfold distance_matrix, max_diff, np_max_axis0, np_min_axis0.
  destruct X as [| r X']; [intros H; inversion H; eexists; reflexivity |].
  cbn [bind]. unfold pairwise_distances.
  destruct (normalize _ _ _) as [| [| z row] S'];
    try (intros H; inversion H; eexists; reflexivity).
  destruct (forallb _ _); intros H; inversion H. eexists; reflexivity.
Qed.

Section FitErrors.

Variable argsort : argsort_fn.
Hypothesis argsort_ok : argsort_spec argsort.

(** With a label for every sample the loop never raises: only the
    distance matrix and the stacking can. *)
Lemma find_neighbors_raise (X : matrix) (y : list Z) (k : Z) (e : exn) :
  length y = n_samples X ->
  find_neighbors argsort X y k = Raise e -> exists msg, e = ValueError msg.
Proof.
  intros Hy. unfold find_neighbors.
  destruct (distance_matrix X) as [D | e'] eqn:HD;
    [| intros H; inversion H; subst; eapply distance_matrix_raise; exact HD].
  cbn [bind].
  destruct (distance_matrix_inv X D HD) as [S [HS ED]].
  assert (Hn : 0 < n_samples X).
  { unfold distance_matrix in HD. apply bind_ok_inv in HD. destruct HD as [d [Hd _]].
    apply max_diff_length in Hd. apply Hd. }
  destruct (mapM_ok_exists
              (fun i => distances <- py_index D i ;; k_nearest argsort y k distances)
              (fun _ => True) (seq 0 (n_samples X))) as [ps [Hps _]].
  { intros i Hi. apply in_seq in Hi.
    destruct (nth_error D i) as [row |] eqn:Erow.
    - unfold py_index. rewrite Erow. cbn [bind].
      rewrite ED in Erow. apply distance_row_length in Erow.
      rewrite (k_nearest_eq argsort argsort_ok y k row) by lia.
      eexists. split; [reflexivity | exact I].
    - apply nth_error_None in Erow. rewrite ED, length_map in Erow. lia. }
  rewrite Hps. cbn [bind]. unfold column_stack.
  destruct (_ =? _); cbn [bind]; [| intros H; inversion H; eexists; reflexivity].
  destruct (_ =? _); cbn [bind]; intros H; inversion H. eexists; reflexivity.
Qed.

Lemma find_neighbors_bounds (X : matrix) (y : list Z) (k : Z) (hp mp : list (nat * nat)) :
  find_neighbors argsort X y k = Ok (hp, mp) ->
  forall p, In p hp \/ In p mp -> fst p < n_samples X /\ snd p < n_samples X.
Proof.
  intros Hfn.
  destruct (find_neighbors_inv argsort X y k hp mp Hfn)
    as [D [ps [HD [Hps [_ [_ [-> ->]]]]]]].
  destruct (distance_matrix_inv X D HD) as [S [HS ED]].
  intros [s j] Hp. simpl. split.
  - assert (Hs : In s (flat_map (fun i => repeat i (Z.to_nat k)) (seq 0 (n_samples X))))
      by (destruct Hp as [Hp | Hp]; eapply in_combine_l; exact Hp).
    apply in_blocks in Hs. lia.
  - assert (Hj : exists hm, In hm ps /\ (In j (fst hm) \/ In j (snd hm))).
    { destruct Hp as [Hp | Hp]; apply in_combine_r, in_concat in Hp;
        destruct Hp as [l [Hl Hj]]; apply in_map_iff in Hl;
        destruct Hl as [hm [<- Hhm]]; exists hm; auto. }
    destruct Hj as [[h m] [Hin Hj]].
    destruct (mapM_In_inv _ _ _ _ Hps Hin) as [i [_ Hf]].
    apply bind_ok_inv in Hf. destruct Hf as [row [Hrow Hkn]].
    apply py_index_inv in Hrow. rewrite ED in Hrow.
    apply distance_row_length in Hrow.
    apply (k_nearest_sub argsort y k row h m Hkn) in Hj.
    apply (argsort_lt argsort argsort_ok dist_leb) in Hj. lia.
Qed.

(** Once the neighbours are found, the scores are computed without
    failure, and are the scores of the specification. *)
Lemma compute_scores_after_neighbors (X : matrix) (y : list Z) (k : Z)
  (hp mp : list (nat * nat)) :
  find_neighbors argsort X y k = Ok (hp, mp) ->
  exists scores,
    compute_scores argsort X y k (generate_features X) = Ok scores /\
    length scores = n_features X /\
    forall f, f < n_features X ->
      exists s, nth_error scores f = Some s /\ float_eq s (Fin (spec_score X hp mp f)).
Proof.
  intros Hfn.
  pose proof (find_neighbors_nonempty argsort X y k _ Hfn) as Hn.
  pose proof (find_neighbors_bounds X y k hp mp Hfn) as Hb.
  destruct (aggregate_ok X hp mp Hn) as [scores [Hagg Hsc]].
  - intros p Hp. apply Hb. left. exact Hp.
  - intros p Hp. apply Hb. right. exact Hp.
  - exists scores. split; [| exact Hsc].
    unfold compute_scores. rewrite Hfn. cbn [bind].
    rewrite (range_vec_ok X Hn). cbn [bind]. exact Hagg.
Qed.

Lemma fit_returns_inv (X : matrix) (y : list Z) (names : option (list string)) (k : Z)
  (self self' : STIR) :
  fit argsort X y names k self = (Ok tt, self') ->
  exists fn hp mp scores,
    _check_input X y names = Ok (X, y, fn) /\
    find_neighbors argsort X y k = Ok (hp, mp) /\
    compute_scores argsort X y k (generate_features X) = Ok scores /\
    self' =
    set_selected_features
      (set_feature_scores
         (set_feature_names self (combine (generate_features X) fn)) scores)
      (py_slice 0 (n_features_to_keep self) (rev (argsort float64 np_leb scores))).
Proof.
  intros Hfit.
  destruct (fit_inv argsort argsort_ok X y names k self self' Hfit)
    as [fn0 [scores [Hcs [_ _]]]].
  unfold fit in Hfit.
  destruct (_check_input X y names) as [[[X' y'] fn] | e] eqn:Ec; [| inversion Hfit].
  destruct (check_input_inv X y names X' y' fn Ec) as [-> [-> _]].
  rewrite Hcs in Hfit.
  cbn [n_features_to_keep set_feature_scores set_feature_names] in Hfit.
  pose proof (compute_scores_length argsort X y k _ _ Hcs) as Hlen.
  unfold generate_features in Hlen. rewrite length_seq in Hlen.
  unfold generate_features in Hfit at 2.
  rewrite (select_features_ok argsort argsort_ok _ scores _ Hlen) in Hfit.
  injection Hfit as <-.
  pose proof Hcs as Hcs'. unfold compute_scores in Hcs'.
  destruct (find_neighbors argsort X y k) as [[hp mp] | e] eqn:Hfn; [| discriminate].
  exists fn, hp, mp, scores. repeat split; auto.
Qed.

(** After the validation, [fit] raises nothing but [ValueError]. *)
Lemma fit_raise_inv (X : matrix) (y : list Z) (names : option (list string))
  (k : Z) (self : STIR) (fn : list feature_name) (e : exn) :
  _check_input X y names = Ok (X, y, fn) ->
  fst (fit argsort X y names k self) = Raise e -> exists msg, e = ValueError msg.
Proof.
  intros Ec. unfold fit. rewrite Ec.
  destruct (check_input_inv X y names X y fn Ec) as [_ [_ [_ Hy]]].
  destruct (find_neighbors argsort X y k) as [[hp mp] | e'] eqn:Hfn.
  - destruct (compute_scores_after_neighbors X y k hp mp Hfn) as [scores [Hcs [Hlen _]]].
    rewrite Hcs. cbn [n_features_to_keep set_feature_scores set_feature_names].
    unfold generate_features at 2.
    rewrite (select_features_ok argsort argsort_ok _ scores _ Hlen). discriminate.
  - unfold compute_scores. rewrite Hfn. cbn [bind fst]. intros H. inversion H. subst e'.
    apply (find_neighbors_raise X y k e Hy Hfn).
Qed.

(** X9.  Whenever [fit] returns, with or without the neighbour
    precondition, the score it stores for every feature is the score of
    the specification over the pairs [find_neighbors] returned. *)
Theorem fit_scores_whenever_returns (X : matrix) (y : list Z)
  (names : option (list string)) (k : Z) (self self' : STIR) :
  fit argsort X y names k self = (Ok tt, self') ->
  exists hit_pairs miss_pairs scores,
    find_neighbors argsort X y k = Ok (hit_pairs, miss_pairs) /\
    feature_scores self' = Some scores /\
    length scores = n_features X /\
    forall f, f < n_features X ->
      exists s, nth_error scores f = Some s /\
                float_eq s (Fin (spec_score X hit_pairs miss_pairs f)).
Proof.
  intros Hfit.
  destruct (fit_returns_inv X y names k self self' Hfit)
    as [fn [hp [mp [scores [_ [Hfn [Hcs ->]]]]]]].
  destruct (compute_scores_after_neighbors X y k hp mp Hfn) as [scores' [Hcs' Hsc]].
  assert (scores' = scores) by congruence. subst scores'.
  exists hp, mp, scores. split; [exact Hfn |]. split; [reflexivity | exact Hsc].
Qed.


End FitErrors.

(* ------------------------------------------------------------------ *)
(** ** Labels with which [fit] cannot succeed *)

Section FitEdges.

Variable argsort : argsort_fn.
Hypothesis argsort_ok : argsort_spec argsort.

Lemma hd_nearest_lt (row : list dist) :
  0 < length row -> hd 0 (nearest argsort row) < length row.
Proof.
  intros Hpos. apply (argsort_lt argsort argsort_ok dist_leb).
  pose proof (argsort_length argsort argsort_ok dist_leb row) as HL.
  unfold nearest. destruct (argsort dist dist_leb row); [simpl in HL; lia |].
  left. reflexivity.
Qed.

(** A [fit] with [k >= 1] that returns has found, for the first sample, a
    hit and a miss: two different samples with one label and a sample
    with another label. *)
Lemma fit_returns_has_neighbors (X : matrix) (y : list Z) (names : option (list string))
  (k : Z) (self self' : STIR) :
  (1 <= k)%Z ->
  fit argsort X y names k self = (Ok tt, self') ->
  exists first jh jm,
    first < length y /\ jh < length y /\ jm < length y /\
    nth jh y 0%Z = nth first y 0%Z /\ jh <> first /\
    nth jm y 0%Z <> nth first y 0%Z.
Proof.
  intros Hk Hfit.
  destruct (fit_returns_inv argsort argsort_ok X y names k self self' Hfit)
    as [fn [hp [mp [scores [Hc [Hfn _]]]]]].
  destruct (check_input_inv X y names X y fn Hc) as [_ [_ [_ Hy]]].
  pose proof (find_neighbors_nonempty argsort X y k _ Hfn) as Hn.
  destruct (find_neighbors_layout argsort argsort_ok X y k hp mp) as [_ [_ [_ [D [HD Hrows]]]]];
    [lia | exact Hfn |].
  destruct (distance_matrix_inv X D HD) as [S [HS ED]].
  destruct (nth_error D 0) as [row |] eqn:Erow;
    [| apply nth_error_None in Erow; rewrite ED, length_map in Erow; lia].
  destruct (Hrows 0 row Erow) as [Hkn [Lh Lm]].
  assert (Hrl : length row = length y).
  { rewrite ED in Erow. rewrite (distance_row_length S 0 row Erow). lia. }
  destruct (k_nearest_split argsort argsort_ok y k row
              (neighbors_of hp 0) (neighbors_of mp 0) Hrl ltac:(lia) ltac:(lia) Hkn)
    as [_ [_ [_ [_ [Hh [Hm _]]]]]].
  destruct (neighbors_of hp 0) as [| jh resth]; [simpl in Lh; lia |].
  destruct (neighbors_of mp 0) as [| jm restm]; [simpl in Lm; lia |].
  destruct (Hh jh (or_introl eq_refl)) as [H1 [H2 H3]].
  destruct (Hm jm (or_introl eq_refl)) as [H4 H5].
  exists (hd 0 (nearest argsort row)), jh, jm.
  repeat split; try assumption.
  rewrite <- Hrl. apply hd_nearest_lt. lia.
Qed.

(** X11.  With a single class and [k >= 1], [fit] fails with a
    [ValueError] on input the validation accepts: no sample has a miss. *)
Theorem fit_single_class (X : matrix) (y : list Z) (names : option (list string))
  (k : Z) (self : STIR) (fn : list feature_name) :
  _check_input X y names = Ok (X, y, fn) ->
  (forall c c', In c y -> In c' y -> c = c') -> (1 <= k)%Z ->
  exists msg, fst (fit argsort X y names k self) = Raise (ValueError msg).
Proof.
  intros Hc Hone Hk.
  destruct (fit argsort X y names k self) as [[[] | e] self'] eqn:Hfit.
  - exfalso.
    destruct (fit_returns_has_neighbors X y names k self self' Hk Hfit)
      as [first [jh [jm [Hf [_ [Hjm [_ [_ Hne]]]]]]]].
    apply Hne. apply Hone; apply nth_In; assumption.
  - destruct (fit_raise_inv argsort argsort_ok X y names k self fn e Hc)
      as [msg ->]; [rewrite Hfit; reflexivity |].
    exists msg. reflexivity.
Qed.

(** X12.  When all class labels are different and [k >= 1], [fit] fails
    with a [ValueError] on input the validation accepts: no sample has a
    hit. *)
Theorem fit_distinct_labels (X : matrix) (y : list Z) (names : option (list string))
  (k : Z) (self : STIR) (fn : list feature_name) :
  _check_input X y names = Ok (X, y, fn) ->
  NoDup y -> (1 <= k)%Z ->
  exists msg, fst (fit argsort X y names k self) = Raise (ValueError msg).
Proof.
  intros Hc Hnd Hk.
  destruct (fit argsort X y names k self) as [[[] | e] self'] eqn:Hfit.
  - exfalso.
    destruct (fit_returns_has_neighbors X y names k self self' Hk Hfit)
      as [first [jh [jm [Hf [Hjh [_ [Heq [Hne _]]]]]]]].
    apply Hne. apply (proj1 (NoDup_nth y 0%Z) Hnd); assumption.
  - destruct (fit_raise_inv argsort argsort_ok X y names k self fn e Hc)
      as [msg ->]; [rewrite Hfit; reflexivity |].
    exists msg. reflexivity.
Qed.

(* ------------------------------------------------------------------ *)
(** ** [k = 0] *)

Lemma spec_score_no_pairs (X : matrix) (f : nat) : (spec_score X [] [] f == 0)%Q.
Proof.
  unfold spec_score, spec_mu. simpl. unfold Qdiv. ring.
Qed.

(** X13.  With [k = 0], on clean input, [fit] looks for no neighbours
    and returns: both arrays of pairs are empty and every score is 0. *)
Theorem fit_without_neighbors (X : matrix) (y : list Z) (names : option (list string))
  (self : STIR) :
  clean_input X y names ->
  exists self' scores,
    find_neighbors argsort X y 0 = Ok ([], []) /\
    fit argsort X y names 0 self = (Ok tt, self') /\
    feature_scores self' = Some scores /\
    length scores = n_features X /\
    forall s, In s scores -> float_eq s (Fin 0).
Proof.
  intros Hclean.
  assert (Hpre : neighbor_precondition y 0).
  { split; [lia |]. intros c Hc. split.
    - pose proof (count_label_pos y c Hc). lia.
    - exists (c + 1)%Z. split; lia. }
  destruct (fit_ok argsort argsort_ok X y names 0 self Hclean Hpre)
    as [hp [mp [scores [fn [Hfn [Hlen [Hsc Hfit]]]]]]].
  destruct (find_neighbors_layout argsort argsort_ok X y 0 hp mp) as [Hh [Hm _]];
    [lia | exact Hfn |].
  assert (Hnil : flat_map (fun i => repeat i (Z.to_nat 0)) (seq 0 (n_samples X)) = []).
  { apply length_zero_iff_nil. rewrite length_flat_map_repeat. simpl. lia. }
  rewrite Hnil in Hh, Hm. apply map_eq_nil in Hh, Hm. subst hp mp.
  eexists. exists scores. split; [exact Hfn |]. split; [exact Hfit |].
  split; [reflexivity |]. split; [exact Hlen |].
  intros s Hs. destruct (In_nth_error _ _ Hs) as [f Hf].
  assert (Hlt : f < n_features X) by (rewrite <- Hlen; apply nth_error_Some; congruence).
  destruct (Hsc f Hlt) as [s' [Hs' Heq]].
  assert (s' = s) by congruence. subst s'.
  destruct s as [q | | |]; simpl in Heq |- *; try contradiction.
  rewrite Heq. apply spec_score_no_pairs.
Qed.

End FitEdges.

(* ------------------------------------------------------------------ *)
(** ** The selection of [fit] *)

Lemma py_slice_drop_last_length {A : Type} (stop : Z) (l : list A) :
  (stop < 0)%Z ->
  Z.of_nat (length (py_slice 0 stop l)) = Z.max 0 (Z.of_nat (length l) + stop).
Proof.
  intros Hneg. unfold py_slice, py_clamp.
  change (0 <? 0)%Z with false. cbv iota.
  destruct (Z.ltb_spec stop 0) as [_ | H]; [| lia].
  replace (Z.min 0 (Z.of_nat (length l))) with 0%Z by lia.
  change (Z.to_nat 0) with 0. rewrite skipn_O, length_firstn. lia.
Qed.

Lemma In_firstn_position {A : Type} (m : nat) (l : list A) (x : A) :
  In x (firstn m l) -> exists p, p < m /\ nth_error l p = Some x.
Proof.
  intros Hin. destruct (In_nth_error _ _ Hin) as [p Hp].
  rewrite nth_error_firstn in Hp.
  destruct (Nat.ltb_spec p m); [| discriminate]. exists p. split; assumption.
Qed.

Section Selection.

Variable argsort : argsort_fn.
Hypothesis argsort_ok : argsort_spec argsort.

Lemma selection_order (scores : list float64) :
  NoDup (rev (argsort float64 np_leb scores)) /\
  forall f, In f (rev (argsort float64 np_leb scores)) <-> f < length scores.
Proof.
  pose proof (argsort_perm argsort argsort_ok np_leb scores) as Hperm.
  split.
  - apply NoDup_rev. apply (Permutation_NoDup (Permutation_sym Hperm)). apply seq_NoDup.
  - intros f. rewrite <- in_rev. split.
    + intros Hf. apply (Permutation_in _ Hperm) in Hf. apply in_seq in Hf. lia.
    + intros Hf. apply (Permutation_in _ (Permutation_sym Hperm)). apply in_seq. lia.
Qed.

(** X14.  After every [fit] that returns, the selection holds distinct
    feature indices of [X]; with a negative [n_features_to_keep] the slice
    [[:n_features_to_keep]] drops that many features from the low end of
    the ranking instead of keeping none. *)
Theorem selection_valid (X : matrix) (y : list Z) (names : option (list string))
  (k : Z) (self self' : STIR) :
  fit argsort X y names k self = (Ok tt, self') ->
  exists selected,
    selected_features self' = Some selected /\
    NoDup selected /\
    (forall f, In f selected -> f < n_features X) /\
    ((n_features_to_keep self < 0)%Z ->
     Z.of_nat (length selected) =
     Z.max 0 (Z.of_nat (n_features X) + n_features_to_keep self)).
Proof.
  intros Hfit.
  destruct (fit_inv argsort argsort_ok _ _ _ _ _ _ Hfit) as [fn [scores [_ [Hlen ->]]]].
  destruct (selection_order scores) as [Hnd Hin].
  eexists. split; [reflexivity |]. split; [| split].
  - apply NoDup_py_slice. exact Hnd.
  - intros f Hf. apply py_slice_incl in Hf. apply Hin in Hf. lia.
  - intros Hneg. rewrite (py_slice_drop_last_length _ _ Hneg).
    rewrite length_rev, (argsort_length argsort argsort_ok), Hlen. reflexivity.
Qed.

(** X15.  After every [fit] that returns, no feature left out of the
    selection has a higher score than a selected one. *)
Theorem selection_top (X : matrix) (y : list Z) (names : option (list string))
  (k : Z) (self self' : STIR) :
  fit argsort X y names k self = (Ok tt, self') ->
  exists scores selected,
    feature_scores self' = Some scores /\
    selected_features self' = Some selected /\
    forall i j si sj,
      In i selected -> j < n_features X -> ~ In j selected ->
      nth_error scores i = Some si -> nth_error scores j = Some sj ->
      np_leb sj si = true.
Proof.
  intros Hfit.
  destruct (fit_inv argsort argsort_ok _ _ _ _ _ _ Hfit) as [fn [scores [_ [Hlen ->]]]].
  destruct (py_slice_prefix (n_features_to_keep self)
              (rev (argsort float64 np_leb scores))) as [m Hm].
  destruct (selection_order scores) as [_ Hin].
  exists scores. eexists. split; [reflexivity |]. split; [reflexivity |].
  rewrite Hm. intros i j si sj Hi Hj Hnj Hsi Hsj.
  destruct (In_firstn_position _ _ _ Hi) as [p [Hpm Hp]].
  assert (Hjin : In j (rev (argsort float64 np_leb scores))) by (apply Hin; lia).
  destruct (In_nth_error _ _ Hjin) as [q Hq].
  assert (Hmq : m <= q).
  { destruct (Nat.lt_ge_cases q m) as [Hlt | Hge]; [| exact Hge].
    exfalso. apply Hnj. apply (nth_error_In _ q).
    rewrite nth_error_firstn. destruct (Nat.ltb_spec q m); [exact Hq | lia]. }
  rewrite nth_error_rev in Hp, Hq.
  destruct (Nat.ltb_spec p (length (argsort float64 np_leb scores))); [| discriminate].
  destruct (Nat.ltb_spec q (length (argsort float64 np_leb scores))); [| discriminate].
  destruct (argsort_ok float64 np_leb scores) as [_ Hasc].
  apply (Hasc np_leb_total_preorder
           (length (argsort float64 np_leb scores) - S q)
           (length (argsort float64 np_leb scores) - S p) j i sj si);
    [lia | assumption | assumption | assumption | assumption].
Qed.

(* ------------------------------------------------------------------ *)
(** ** The attributes that [fit] assigns *)

(** X16.  [fit] never assigns [n_features_to_keep] or [top_features].
    When it raises, [feature_scores] and [selected_features] hold what
    they held before the call, so it stores scores and selection together
    or not at all; [feature_names] however is assigned as soon as the
    validation has accepted the input, also when [fit] raises later. *)
Theorem fit_state_on_failure (X : matrix) (y : list Z) (names : option (list string))
  (k : Z) (self self' : STIR) (r : result unit) :
  fit argsort X y names k self = (r, self') ->
  n_features_to_keep self' = n_features_to_keep self /\
  top_features self' = top_features self /\
  (forall e, r = Raise e ->
     feature_scores self' = feature_scores self /\
     selected_features self' = selected_features self) /\
  (forall fn, _check_input X y names = Ok (X, y, fn) ->
     feature_names self' = Some (combine (generate_features X) fn)).
Proof.
  unfold fit.
  destruct (_check_input X y names) as [[[X' y'] fn] | e0] eqn:Ec.
  - destruct (check_input_inv X y names X' y' fn Ec) as [-> [-> _]].
    destruct (compute_scores argsort X y k (generate_features X)) as [scores | e1] eqn:Hcs.
    + pose proof (compute_scores_length argsort X y k _ _ Hcs) as Hlen.
      unfold generate_features in Hlen. rewrite length_seq in Hlen.
      cbn [n_features_to_keep set_feature_scores set_feature_names].
      unfold generate_features at 2.
      rewrite (select_features_ok argsort argsort_ok _ scores _ Hlen).
      intros H. injection H as <- <-. cbn.
      repeat split; try reflexivity; try discriminate.
      intros fn' Hfn'. injection Hfn' as <-. reflexivity.
    + intros H. injection H as <- <-. cbn.
      repeat split; try reflexivity.
      intros fn' Hfn'. injection Hfn' as <-. reflexivity.
  - intros H. injection H as <- <-.
    repeat split; try reflexivity. intros fn' Hfn'. discriminate.
Qed.

End Selection.

(* ------------------------------------------------------------------ *)
(** ** [transform] *)

Lemma mapM_raise_index {A B : Type} (f : A -> result B) (l : list A) :
  (forall x e, In x l -> f x = Raise e -> exists msg, e = IndexError msg) ->
  (exists x e, In x l /\ f x = Raise e) ->
  exists msg, mapM f l = Raise (IndexError msg).
Proof.
  induction l as [| a l IH]; intros Hall [x [e [Hin Hx]]]; [destruct Hin |].
  cbn [mapM]. destruct (f a) as [b | e'] eqn:Ea.
  - cbn [bind].
    destruct IH as [msg Hmsg].
    + intros x' e1 Hin' Hx'. apply (Hall x' e1); [right; exact Hin' | exact Hx'].
    + destruct Hin as [-> | Hin]; [congruence |]. exists x, e. split; assumption.
    + rewrite Hmsg. exists msg. reflexivity.
  - destruct (Hall a e' (or_introl eq_refl) Ea) as [msg ->]. exists msg. reflexivity.
Qed.

(** X17.  [transform] of an array with [m] columns: when every selected
    index is below [m] it returns, for every sample, the selected columns
    in the order of the selection, and leaves the object as it was; when
    some selected index is not below [m] (and there is a sample) it raises
    [IndexError]. *)
Theorem transform_columns (X : matrix) (m : nat) (self : STIR) (selected : list nat) :
  selected_features self = Some selected ->
  Forall (fun row => length row = m) X ->
  ((forall i, In i selected -> i < m) ->
   transform X self =
   (Ok (map (fun row => map (fun i => nth i row 0%Q) selected) X), self)) /\
  (0 < n_samples X -> (exists i, In i selected /\ m <= i) ->
   exists msg, transform X self = (Raise (IndexError msg), self)).
Proof.
  intros Hsel Hrect. unfold transform. rewrite Hsel.
  rewrite Forall_forall in Hrect. split.
  - intros Hin. f_equal. apply mapM_ok_map. intros row Hrow.
    apply mapM_ok_map. intros i Hi. apply py_index_ok.
    rewrite (Hrect row Hrow). apply Hin. exact Hi.
  - intros Hn [i [Hi Hmi]].
    destruct X as [| row X']; [simpl in Hn; lia |].
    assert (Hrow : exists msg, mapM (py_index row) selected = Raise (IndexError msg)).
    { apply mapM_raise_index.
      - intros x e _. unfold py_index. destruct (nth_error row x); [discriminate |].
        intros H. injection H as <-. eexists. reflexivity.
      - exists i. unfold py_index.
        destruct (nth_error row i) eqn:E.
        + exfalso. assert (i < length row) by (apply nth_error_Some; congruence).
          rewrite (Hrect row (or_introl eq_refl)) in H. lia.
        + eexists. split; [exact Hi | reflexivity]. }
    destruct Hrow as [msg Hmsg]. exists msg. cbn [mapM]. rewrite Hmsg. reflexivity.
Qed.

Section FitThenTransform.

Variable argsort : argsort_fn.
Hypothesis argsort_ok : argsort_spec argsort.

(** X18.  Whenever [fit] returns, with or without the neighbour
    precondition, the fitted object transforms every array with the
    number of columns of the training data: the result holds the selected
    columns of each sample, in rank order.  [fit_transform] then returns
    this for the training data itself. *)
Theorem fit_then_transform (X : matrix) (y : list Z) (names : option (list string))
  (k : Z) (self self' : STIR) :
  fit argsort X y names k self = (Ok tt, self') ->
  exists selected,
    selected_features self' = Some selected /\
    (forall X', Forall (fun row => length row = n_features X) X' ->
       transform X' self' =
       (Ok (map (fun row => map (fun i => nth i row 0%Q) selected) X'), self')) /\
    fit_transform argsort X y names k self =
    (Ok (map (fun row => map (fun i => nth i row 0%Q) selected) X), self').
Proof.
  intros Hfit.
  destruct (fit_returns_inv argsort argsort_ok X y names k self self' Hfit)
    as [fn [hp [mp [scores [Hc [_ [Hcs Eself]]]]]]].
  destruct (check_input_inv X y names X y fn Hc) as [_ [_ [Hrect _]]].
  pose proof (compute_scores_length argsort X y k _ _ Hcs) as Hlen.
  unfold generate_features in Hlen. rewrite length_seq in Hlen.
  set (selected := py_slice 0 (n_features_to_keep self)
                     (rev (argsort float64 np_leb scores))) in *.
  assert (Hsel : selected_features self' = Some selected) by (subst self'; reflexivity).
  assert (Hin : forall i, In i selected -> i < n_features X).
  { intros i Hi. apply py_slice_incl in Hi. apply in_rev in Hi.
    apply (argsort_lt argsort argsort_ok) in Hi. lia. }
  assert (Htr : forall X', Forall (fun row => length row = n_features X) X' ->
            transform X' self' =
            (Ok (map (fun row => map (fun i => nth i row 0%Q) selected) X'), self')).
  { intros X' HX'. unfold transform. rewrite Hsel. f_equal.
    rewrite Forall_forall in HX'.
    apply mapM_ok_map. intros row Hrow.
    apply mapM_ok_map. intros i Hi. apply py_index_ok.
    rewrite (HX' row Hrow). apply Hin. exact Hi. }
  exists selected. split; [exact Hsel |]. split; [exact Htr |].
  unfold fit_transform, then_. rewrite Hfit. apply Htr. exact Hrect.
Qed.

End FitThenTransform.

(* ------------------------------------------------------------------ *)
(** ** The size of the scores *)

Lemma entry_in_column (X : matrix) (s f : nat) :
  s < n_samples X -> In (entry X s f) (column X f).
Proof.
  intros Hs. rewrite <- column_nth. apply nth_In. rewrite column_length. exact Hs.
Qed.




Lemma spec_mu_constant (X : matrix) (pairs : list (nat * nat)) (f : nat) :
  (forall p, In p pairs -> fst p < n_samples X /\ snd p < n_samples X) ->
  (forall s s', s < n_samples X -> s' < n_samples X -> (entry X s f == entry X s' f)%Q) ->
  (spec_mu X pairs f == 0)%Q.
Proof.
  intros Hb Hconst. unfold spec_mu.
  rewrite Qsum_zero; [unfold Qdiv; ring |].
  intros x Hx. apply in_map_iff in Hx. destruct Hx as [p [<- Hp]].
  destruct (Hb p Hp) as [H1 H2].
  rewrite (Hconst _ _ H1 H2).
  setoid_replace (entry X (snd p) f - entry X (snd p) f)%Q with 0%Q by ring.
  unfold Qdiv. simpl Qabs. ring.
Qed.

Section Scores.

Variable argsort : argsort_fn.
Hypothesis argsort_ok : argsort_spec argsort.


(** The scores [fit] stored, next to the pairs they were computed from. *)
Lemma fit_scores_inv (X : matrix) (y : list Z) (names : option (list string)) (k : Z)
  (self self' : STIR) :
  fit argsort X y names k self = (Ok tt, self') ->
  exists hp mp scores,
    find_neighbors argsort X y k = Ok (hp, mp) /\
    0 < n_samples X /\
    (forall p, In p hp \/ In p mp -> fst p < n_samples X /\ snd p < n_samples X) /\
    feature_scores self' = Some scores /\
    length scores = n_features X /\
    forall f, f < n_features X ->
      exists s, nth_error scores f = Some s /\ float_eq s (Fin (spec_score X hp mp f)).
Proof.
  intros Hfit.
  destruct (fit_returns_inv argsort argsort_ok X y names k self self' Hfit)
    as [fn [hp [mp [scores [_ [Hfn [Hcs ->]]]]]]].
  destruct (compute_scores_after_neighbors argsort argsort_ok X y k hp mp Hfn)
    as [scores' [Hcs' [Hlen Hsc]]].
  assert (scores' = scores) by congruence. subst scores'.
  exists hp, mp, scores. split; [exact Hfn |].
  split; [exact (find_neighbors_nonempty argsort X y k _ Hfn) |].
  split; [exact (find_neighbors_bounds argsort argsort_ok X y k hp mp Hfn) |].
  split; [reflexivity |]. split; assumption.
Qed.

(** X19.  After every [fit] that returns, a feature that has one value on
    all samples has the score 0. *)
Theorem fit_constant_feature (X : matrix) (y : list Z) (names : option (list string))
  (k : Z) (self self' : STIR) (f : nat) :
  fit argsort X y names k self = (Ok tt, self') ->
  f < n_features X ->
  (forall s s', s < n_samples X -> s' < n_samples X ->
     (entry X s f == entry X s' f)%Q) ->
  exists scores s,
    feature_scores self' = Some scores /\ nth_error scores f = Some s /\
    float_eq s (Fin 0).
Proof.
  intros Hfit Hf Hconst.
  destruct (fit_scores_inv X y names k self self' Hfit)
    as [hp [mp [scores [_ [_ [Hb [Hfs [_ Hsc]]]]]]]].
  destruct (Hsc f Hf) as [s [Hs Heq]].
  exists scores, s. split; [exact Hfs |]. split; [exact Hs |].
  destruct s as [q | | |]; simpl in Heq |- *; try contradiction.
  rewrite Heq. unfold spec_score.
  rewrite (spec_mu_constant X mp f), (spec_mu_constant X hp f); auto.
  unfold Qdiv. ring.
Qed.


End Scores.

(* ------------------------------------------------------------------ *)
(** ** The distances in closed form *)

Lemma Qsum_cons (x : Q) (l : list Q) : Qsum (x :: l) = (x + Qsum l)%Q.
Proof.
  reflexivity.
Qed.

Lemma scaled_rows_formula (n : nat) (xi xj mn : list Q) (g : nat -> Q) :
  length xi = n -> length xj = n -> length mn = n ->
  (forall f, Qeq_bool (g f) 0 = false) ->
  (Qsum (zip_with sq_diff
           (zip_with (fun c r => np_div (Fin c) r) (zip_with Qminus xi mn)
                     (map Fin (map g (seq 0 n))))
           (zip_with (fun c r => np_div (Fin c) r) (zip_with Qminus xj mn)
                     (map Fin (map g (seq 0 n)))))
   == Qsum (map (fun f => let t := ((nth f xi 0 - nth f xj 0) / g f)%Q in (t * t)%Q)
                (seq 0 n)))%Q.
Proof.
  revert xi xj mn g. induction n as [| n IH]; intros xi xj mn g Hi Hj Hm Hg.
  - destruct xi, xj; try discriminate. reflexivity.
  - destruct xi as [| x xi], xj as [| x' xj], mn as [| m mn]; try discriminate.
    simpl in Hi, Hj, Hm.
    rewrite <- cons_seq, <- seq_shift.
    cbn [zip_with map]. rewrite !Qsum_cons, !map_map. cbn [nth].
    rewrite !np_div_fin by apply Hg.
    unfold sq_diff at 1. cbn [fin_val].
    specialize (IH xi xj mn (fun f => g (S f))).
    rewrite !map_map in IH. cbv zeta in IH |- *.
    rewrite IH; try lia; [| intros f; apply Hg].
    pose proof (Hg 0) as H0. apply Qeq_bool_neq in H0.
    apply Qplus_comp; [field; exact H0 | reflexivity].
Qed.

(** One entry of the distance matrix. *)
Lemma distance_formula (X : matrix) (D : list (list dist)) (i j : nat)
  (ri : list dist) (d : dist) :
  Forall (fun row => length row = n_features X) X ->
  distance_matrix X = Ok D ->
  nth_error D i = Some ri -> nth_error ri j = Some d ->
  (radicand d == spec_sq_distance X i j)%Q.
Proof.
  intros Hrect HD Hri Hd.
  destruct (distance_matrix_inv_full X D HD) as [Hn ->].
  rewrite guard_as_spec_range in Hri. unfold normalize in Hri.
  rewrite !(map_map (fun row : list Q => zip_with Qminus row _)) in Hri.
  rewrite map_map in Hri.
  destruct (nth_error X i) as [xi |] eqn:Hxi;
    [| rewrite nth_error_map, Hxi in Hri; discriminate].
  rewrite (map_nth_error _ i X Hxi) in Hri. inversion Hri. subst ri. clear Hri.
  rewrite map_map in Hd.
  destruct (nth_error X j) as [xj |] eqn:Hxj;
    [| rewrite nth_error_map, Hxj in Hd; discriminate].
  rewrite (map_nth_error _ j X Hxj) in Hd. inversion Hd. subst d. clear Hd.
  unfold euclidean. cbn [radicand]. rewrite fold_left_Qplus, Qplus_0_l.
  rewrite Forall_forall in Hrect.
  rewrite (scaled_rows_formula (n_features X) xi xj _ (spec_range X)).
  - unfold spec_sq_distance, entry.
    rewrite (nth_error_nth X i [] Hxi), (nth_error_nth X j [] Hxj). reflexivity.
  - apply Hrect. eapply nth_error_In; exact Hxi.
  - apply Hrect. eapply nth_error_In; exact Hxj.
  - rewrite length_map, length_seq. reflexivity.
  - apply spec_range_nonzero.
Qed.

(** X21.  The distance matrix in closed form: for a rectangular [X] the
    entry for samples [i] and [j] is the square root of the sum over the
    features of [((X[i,f] - X[j,f]) / range_f)^2], with the guarded range
    of the specification; the column minima of the centring cancel. *)
Theorem distance_matrix_formula (X : matrix) (D : list (list dist)) (i j : nat)
  (ri : list dist) (d : dist) :
  Forall (fun row => length row = n_features X) X ->
  distance_matrix X = Ok D ->
  nth_error D i = Some ri -> nth_error ri j = Some d ->
  (radicand d == spec_sq_distance X i j)%Q.
Proof.
  exact (distance_formula X D i j ri d).
Qed.

(* ------------------------------------------------------------------ *)
(** ** Changing the unit of a feature *)

Lemma fold_Qmax_attained (l : list Q) (x : Q) :
  exists z, (z = x \/ In z l) /\ (fold_left Qmax l x == z)%Q.
Proof.
  revert x. induction l as [| y l IH]; intros x; simpl.
  - exists x. split; [left; reflexivity | reflexivity].
  - destruct (IH (Qmax x y)) as [z [[-> | Hz] Ez]].
    + destruct (Q.max_spec x y) as [[_ E] | [_ E]].
      * exists y. split; [right; left; reflexivity | rewrite Ez; exact E].
      * exists x. split; [left; reflexivity | rewrite Ez; exact E].
    + exists z. split; [right; right; exact Hz | exact Ez].
Qed.

Lemma fold_Qmin_attained (l : list Q) (x : Q) :
  exists z, (z = x \/ In z l) /\ (fold_left Qmin l x == z)%Q.
Proof.
  revert x. induction l as [| y l IH]; intros x; simpl.
  - exists x. split; [left; reflexivity | reflexivity].
  - destruct (IH (Qmin x y)) as [z [[-> | Hz] Ez]].
    + destruct (Q.min_spec x y) as [[_ E] | [_ E]].
      * exists x. split; [left; reflexivity | rewrite Ez; exact E].
      * exists y. split; [right; left; reflexivity | rewrite Ez; exact E].
    + exists z. split; [right; right; exact Hz | exact Ez].
Qed.

Lemma list_max_attained (c : list Q) :
  0 < length c -> exists z, In z c /\ (list_max c == z)%Q.
Proof.
  destruct c as [| x l]; simpl; [lia |]. intros _.
  destruct (fold_Qmax_attained l x) as [z [Hz Ez]]. exists z. split; [| exact Ez].
  destruct Hz as [-> | Hz]; [left; reflexivity | right; exact Hz].
Qed.

Lemma list_min_attained (c : list Q) :
  0 < length c -> exists z, In z c /\ (list_min c == z)%Q.
Proof.
  destruct c as [| x l]; simpl; [lia |]. intros _.
  destruct (fold_Qmin_attained l x) as [z [Hz Ez]]. exists z. split; [| exact Ez].
  destruct Hz as [-> | Hz]; [left; reflexivity | right; exact Hz].
Qed.

Lemma in_column_entry (X : matrix) (f : nat) (z : Q) :
  In z (column X f) -> exists s, s < n_samples X /\ z = entry X s f.
Proof.
  intros Hz. destruct (In_nth _ _ 0%Q Hz) as [s [Hs E]].
  rewrite column_length in Hs. rewrite column_nth in E. exists s. auto.
Qed.

Section Rescaling.

Variables X X' : matrix.
Variables (a b : Q) (f : nat).

Hypothesis same_samples : n_samples X' = n_samples X.
Hypothesis some_sample : 0 < n_samples X.
Hypothesis a_pos : (0 < a)%Q.
Hypothesis rescaled :
  forall s, s < n_samples X -> (entry X' s f == a * entry X s f + b)%Q.

Lemma list_max_rescaled : (list_max (column X' f) == a * list_max (column X f) + b)%Q.
Proof.
  apply Qle_antisym.
  - destruct (list_max_attained (column X' f)) as [z [Hz ->]];
      [rewrite column_length; lia |].
    destruct (in_column_entry X' f z Hz) as [s [Hs ->]].
    rewrite same_samples in Hs. rewrite (rescaled s Hs).
    pose proof (list_max_ge _ _ (entry_in_column X s f Hs)) as H.
    assert (Ha : (a * entry X s f <= a * list_max (column X f))%Q)
      by (apply Qmult_le_l; assumption).
    lra.
  - destruct (list_max_attained (column X f)) as [z [Hz ->]];
      [rewrite column_length; lia |].
    destruct (in_column_entry X f z Hz) as [s [Hs ->]].
    rewrite <- (rescaled s Hs). apply list_max_ge, entry_in_column.
    rewrite same_samples. exact Hs.
Qed.

Lemma list_min_rescaled : (list_min (column X' f) == a * list_min (column X f) + b)%Q.
Proof.
  apply Qle_antisym.
  - destruct (list_min_attained (column X f)) as [z [Hz ->]];
      [rewrite column_length; lia |].
    destruct (in_column_entry X f z Hz) as [s [Hs ->]].
    rewrite <- (rescaled s Hs). apply list_min_le, entry_in_column.
    rewrite same_samples. exact Hs.
  - destruct (list_min_attained (column X' f)) as [z [Hz ->]];
      [rewrite column_length; lia |].
    destruct (in_column_entry X' f z Hz) as [s [Hs ->]].
    rewrite same_samples in Hs. rewrite (rescaled s Hs).
    pose proof (list_min_le _ _ (entry_in_column X s f Hs)) as H.
    assert (Ha : (a * list_min (column X f) <= a * entry X s f)%Q)
      by (apply Qmult_le_l; assumption).
    lra.
Qed.

Lemma col_range_rescaled : (col_range X' f == a * col_range X f)%Q.
Proof.
  unfold col_range. rewrite list_max_rescaled, list_min_rescaled. ring.
Qed.

(** One term of the squared distance does not change. *)
Lemma sq_term_rescaled (i j : nat) :
  i < n_samples X -> j < n_samples X ->
  (((entry X' i f - entry X' j f) / spec_range X' f)
   * ((entry X' i f - entry X' j f) / spec_range X' f)
   == ((entry X i f - entry X j f) / spec_range X f)
      * ((entry X i f - entry X j f) / spec_range X f))%Q.
Proof.
  intros Hi Hj. rewrite (rescaled i Hi), (rescaled j Hj).
  pose proof col_range_rescaled as Hr.
  pose proof (col_range_nonneg X f some_sample) as Hnn.
  unfold spec_range.
  destruct (Qeq_bool (col_range X f) 0) eqn:E; destruct (Qeq_bool (col_range X' f) 0) eqn:E'.
  - apply Qeq_bool_iff in E.
    assert (Hc : (entry X i f == entry X j f)%Q).
    { apply (proj1 (col_range_zero_iff X f some_sample) E); apply entry_in_column; assumption. }
    rewrite Hc. unfold Qdiv.
    setoid_replace (a * entry X j f + b - (a * entry X j f + b))%Q with 0%Q by ring.
    setoid_replace (entry X j f - entry X j f)%Q with 0%Q by ring. ring.
  - apply Qeq_bool_iff in E. apply Qeq_bool_neq in E'. exfalso. apply E'.
    rewrite Hr, E. ring.
  - apply Qeq_bool_neq in E. apply Qeq_bool_iff in E'. exfalso.
    rewrite Hr in E'. destruct (Qmult_integral _ _ E') as [H | H]; [lra | contradiction].
  - apply Qeq_bool_neq in E. rewrite Hr. field. split; [exact E | lra].
Qed.

End Rescaling.

(** X22.  Changing the unit of the features does not change the
    distances: when every feature [f] of [X'] is [a_f * X[:,f] + b_f] with
    [a_f > 0], the distance matrices of [X] and [X'] have the same
    entries. *)
Theorem distance_matrix_rescaling (X X' : matrix) (a b : nat -> Q)
  (D D' : list (list dist)) (i j : nat) (ri ri' : list dist) (d d' : dist) :
  Forall (fun row => length row = n_features X) X ->
  Forall (fun row => length row = n_features X') X' ->
  n_samples X' = n_samples X -> n_features X' = n_features X ->
  (forall f, f < n_features X -> (0 < a f)%Q) ->
  (forall s f, s < n_samples X -> f < n_features X ->
     (entry X' s f == a f * entry X s f + b f)%Q) ->
  distance_matrix X = Ok D -> distance_matrix X' = Ok D' ->
  nth_error D i = Some ri -> nth_error ri j = Some d ->
  nth_error D' i = Some ri' -> nth_error ri' j = Some d' ->
  (radicand d' == radicand d)%Q.
Proof.
  intros Hrect Hrect' Hn Hm Ha Hresc HD HD' Hri Hd Hri' Hd'.
  rewrite (distance_formula X D i j ri d Hrect HD Hri Hd).
  rewrite (distance_formula X' D' i j ri' d' Hrect' HD' Hri' Hd').
  destruct (distance_matrix_inv_full X D HD) as [Hpos ED].
  assert (Hi : i < n_samples X).
  { assert (H : i < length D) by (apply nth_error_Some; congruence).
    rewrite ED, length_map in H. unfold normalize in H. rewrite !length_map in H. exact H. }
  assert (Hj : j < n_samples X).
  { rewrite ED in Hri. rewrite nth_error_map in Hri.
    destruct (nth_error _ i); [| discriminate]. simpl in Hri. inversion Hri. subst ri.
    assert (H : j < length (map (fun b0 => euclidean l b0)
                               (normalize X (map (fun f => list_min (column X f))
                                                 (seq 0 (n_features X)))
                                  (assign_where_zero
                                     (astype_float64
                                        (map (col_range X) (seq 0 (n_features X))))))))
      by (apply nth_error_Some; congruence).
    rewrite length_map in H. unfold normalize in H. rewrite !length_map in H. exact H. }
  unfold spec_sq_distance. rewrite Hm. apply Qsum_ext.
  intros f Hf. apply in_seq in Hf. cbv zeta.
  apply (sq_term_rescaled X X' (a f) (b f) f Hn Hpos); try assumption.
  - apply Ha. lia.
  - intros s Hs. apply Hresc; [exact Hs | lia].
Qed.

(* ------------------------------------------------------------------ *)
(** ** Input without duplicate rows *)


Section DistinctRows.

Variable argsort : argsort_fn.
Hypothesis argsort_ok : argsort_spec argsort.

Variable X : matrix.
Hypothesis rectangular : Forall (fun row => length row = n_features X) X.
Hypothesis distinct_rows :
  forall i j xi xj,
    nth_error X i = Some xi -> nth_error X j = Some xj -> Forall2 Qeq xi xj -> i = j.



End DistinctRows.

(* ------------------------------------------------------------------ *)
(** ** Renaming the classes *)

Lemma py_slice_map {A B : Type} (f : A -> B) (start stop : Z) (l : list A) :
  py_slice start stop (map f l) = map f (py_slice start stop l).
Proof.
  unfold py_slice. rewrite length_map, skipn_map, firstn_map. reflexivity.
Qed.

Lemma mapM_index_map {A B : Type} (g : A -> B) (y : list A) (l : list nat) :
  mapM (py_index (map g y)) l =
  match mapM (py_index y) l with
  | Ok labels => Ok (map g labels)
  | Raise e => Raise e
  end.
Proof.
  induction l as [| i l IH]; [reflexivity |].
  cbn [mapM]. unfold py_index at 1 3. rewrite nth_error_map.
  destruct (nth_error y i) as [a |]; cbn [option_map bind]; [| reflexivity].
  rewrite IH. destruct (mapM (py_index y) l); reflexivity.
Qed.

Lemma filter_combine_map {A : Type} (g : Z -> Z) (P P' : A * Z -> bool)
  (l : list A) (labels : list Z) :
  (forall a c, P' (a, g c) = P (a, c)) ->
  filter P' (combine l (map g labels))
  = map (fun p => (fst p, g (snd p))) (filter P (combine l labels)).
Proof.
  intros HP. revert labels. induction l as [| a l IH]; intros [| c labels];
    try reflexivity.
  cbn [map combine filter]. rewrite HP, IH.
  destruct (P (a, c)); reflexivity.
Qed.

Section Renaming.

Variable argsort : argsort_fn.
Variable g : Z -> Z.
Hypothesis g_injective : forall c c', g c = g c' -> c = c'.

Lemma eqb_renamed (c c' : Z) : (g c =? g c')%Z = (c =? c')%Z.
Proof.
  destruct (Z.eqb_spec c c') as [-> | Hne]; [apply Z.eqb_refl |].
  apply Z.eqb_neq. intros H. apply Hne, g_injective, H.
Qed.

Lemma k_nearest_renamed (y : list Z) (k : Z) (row : list dist) :
  k_nearest argsort (map g y) k row = k_nearest argsort y k row.
Proof.
  unfold k_nearest. rewrite mapM_index_map.
  destruct (mapM (py_index y) (nearest argsort row)) as [labels | e]; [| reflexivity].
  cbn [bind].
  destruct (nearest argsort row) as [| i0 rest]; [reflexivity |].
  destruct labels as [| c0 labels]; [reflexivity |].
  cbn [map combine hd snd].
  change ((i0, g c0) :: combine rest (map g labels))
    with (combine (i0 :: rest) (map g (c0 :: labels))).
  change ((i0, c0) :: combine rest labels) with (combine (i0 :: rest) (c0 :: labels)).
  rewrite (filter_combine_map g (fun r => (snd r =? c0)%Z) (fun r => (snd r =? g c0)%Z))
    by (intros a c; apply eqb_renamed).
  rewrite (filter_combine_map g (fun r => negb (snd r =? c0)%Z)
             (fun r => negb (snd r =? g c0)%Z))
    by (intros a c; cbn [snd]; rewrite eqb_renamed; reflexivity).
  rewrite !py_slice_map, !map_map. reflexivity.
Qed.

Lemma find_neighbors_renamed (X : matrix) (y : list Z) (k : Z) :
  find_neighbors argsort X (map g y) k = find_neighbors argsort X y k.
Proof.
  unfold find_neighbors.
  destruct (distance_matrix X) as [D | e]; [| reflexivity]. cbn [bind].
  assert (E : mapM (fun i => distances <- py_index D i ;;
                             k_nearest argsort (map g y) k distances)
                   (seq 0 (n_samples X))
              = mapM (fun i => distances <- py_index D i ;; k_nearest argsort y k distances)
                     (seq 0 (n_samples X))).
  { induction (seq 0 (n_samples X)) as [| i l IH]; [reflexivity |].
    cbn [mapM]. rewrite IH.
    destruct (py_index D i) as [row |]; [| reflexivity].
    cbn [bind]. rewrite k_nearest_renamed. reflexivity. }
  rewrite E. reflexivity.
Qed.

(** X24.  The labels matter only through equality: renaming the classes
    by an injective map changes neither what [find_neighbors] returns nor
    what [fit] returns and stores. *)
Theorem fit_label_renaming (X : matrix) (y : list Z) (names : option (list string))
  (k : Z) (self : STIR) :
  find_neighbors argsort X (map g y) k = find_neighbors argsort X y k /\
  fit argsort X (map g y) names k self = fit argsort X y names k self.
Proof.
  split; [apply find_neighbors_renamed |].
  unfold fit, _check_input. rewrite length_map.
  destruct (negb (forallb _ X)); [reflexivity |].
  destruct (negb (length y =? n_samples X)); [reflexivity |].
  destruct names as [l |]; [destruct (length l =? n_features X) |];
    try reflexivity; unfold compute_scores; rewrite find_neighbors_renamed; reflexivity.
Qed.

End Renaming.

(* ------------------------------------------------------------------ *)
(** ** The theorems at concrete inputs, with the stable argsort *)

Ltac solve_clean_input :=
  unfold clean_input; cbn;
  repeat split; try lia; repeat constructor.

Ltac solve_precondition :=
  split; [lia |];
  let c := fresh "c" in
  let Hc := fresh "Hc" in
  intros c Hc; cbn in Hc;
  repeat (destruct Hc as [Hc | Hc]; [subst c; split; [cbn; lia |] |]);
  [exists (-1)%Z; split; [discriminate | cbn; lia]
  | exists (-1)%Z; split; [discriminate | cbn; lia]
  | exists 1%Z; split; [discriminate | cbn; lia]
  | exists 1%Z; split; [discriminate | cbn; lia]
  | contradiction].


(** C4 on [X_demo], keeping two of its three features. *)
Lemma selection_size_witness :
  exists selected,
    selected_features (snd (fit argsort_stable X_demo y_blocks None 1 (__init__ 2)))
      = Some selected /\
    Z.of_nat (length selected) = Z.min 2 (Z.of_nat (n_features X_demo)) /\
    ((Z.of_nat (n_features X_demo) <= 2)%Z ->
     Permutation selected (seq 0 (n_features X_demo))).
Proof.
  apply (selection_size argsort_stable argsort_stable_spec
           X_demo y_blocks None 1 (__init__ 2)).
  - cbn. lia.
  - vm_compute. reflexivity.
Defined.

(** C3, as amended, on [X_twin]. *)
Lemma selection_descending_witness :
  exists scores selected m,
    feature_scores (snd (fit argsort_stable X_twin y_blocks None 1 (__init__ 2)))
      = Some scores /\
    selected_features (snd (fit argsort_stable X_twin y_blocks None 1 (__init__ 2)))
      = Some selected /\
    selected = firstn m (rev (argsort_stable np_leb scores)) /\
    forall p q i j si sj,
      p <= q ->
      nth_error selected p = Some i -> nth_error selected q = Some j ->
      nth_error scores i = Some si -> nth_error scores j = Some sj ->
      np_leb sj si = true.
Proof.
  apply (selection_descending argsort_stable argsort_stable_spec
           X_twin y_blocks None 1 (__init__ 2)).
  vm_compute. reflexivity.
Defined.

(** C5, as amended, on sample 1 of [X_dup]. *)
Lemma nearest_sorted_witness :
  Permutation (nearest argsort_stable [Sqrt 0; Sqrt 0; Sqrt 1; Sqrt 1])
              (seq 0 (n_samples X_dup)) /\
  ascending dist_leb [Sqrt 0; Sqrt 0; Sqrt 1; Sqrt 1]
            (nearest argsort_stable [Sqrt 0; Sqrt 0; Sqrt 1; Sqrt 1]) /\
  exists j d,
    nth_error (nearest argsort_stable [Sqrt 0; Sqrt 0; Sqrt 1; Sqrt 1]) 0 = Some j /\
    nth_error [Sqrt 0; Sqrt 0; Sqrt 1; Sqrt 1] j = Some d /\
    (radicand d == 0)%Q.
Proof.
  apply (nearest_sorted argsort_stable argsort_stable_spec X_dup
           [[Sqrt 0; Sqrt 0; Sqrt 1; Sqrt 1]; [Sqrt 0; Sqrt 0; Sqrt 1; Sqrt 1];
            [Sqrt 1; Sqrt 1; Sqrt 0; Sqrt 0]; [Sqrt 1; Sqrt 1; Sqrt 0; Sqrt 0]] 1).
  - vm_compute. reflexivity.
  - reflexivity.
Defined.


(** C8, as amended, on the single sample [X_single]. *)
Lemma fit_few_samples_witness :
  exists msg,
    fst (fit argsort_stable X_single [1%Z] None 1 (__init__ 10)) = Raise (ValueError msg).
Proof.
  apply (fit_few_samples argsort_stable argsort_stable_spec
           X_single [1%Z] None 1 (__init__ 10)).
  - cbn. lia.
  - lia.
Defined.

(** C10 on [X_demo]. *)
Lemma fit_transform_witness :
  exists M self' selected,
    fit_transform argsort_stable X_demo y_blocks None 1 (__init__ 2) = (Ok M, self') /\
    fit argsort_stable X_demo y_blocks None 1 (__init__ 2) = (Ok tt, self') /\
    transform X_demo self' = (Ok M, self') /\
    selected_features self' = Some selected /\
    M = map (fun row => map (fun i => nth i row 0%Q) selected) X_demo.
Proof.
  apply (fit_transform_fit_then_transform argsort_stable argsort_stable_spec
           X_demo y_blocks None 1 (__init__ 2)).
  - solve_clean_input.
  - solve_precondition.
Defined.

(** X1 on sample 0 of [X_dup] with the labels [y_blocks]: its hit is
    sample 1 and its miss is sample 2. *)
Lemma k_nearest_self_first_witness :
  (forall j, In j [1] ->
     j < length y_blocks /\ nth j y_blocks 0%Z = nth 0 y_blocks 0%Z /\ j <> 0) /\
  (forall j, In j [2] ->
     j < length y_blocks /\ nth j y_blocks 0%Z <> nth 0 y_blocks 0%Z /\ j <> 0) /\
  (forall j, In j [1] -> ~ In j [2]).
Proof.
  apply (k_nearest_self_first argsort_stable argsort_stable_spec
           y_blocks 1 [Sqrt 0; Sqrt 0; Sqrt 1; Sqrt 1] 0 [1] [2]).
  - reflexivity.
  - cbn. lia.
  - reflexivity.
  - vm_compute. reflexivity.
Defined.

(** X2 with the stable argsort. *)
Lemma duplicate_rows_witness :
  exists hp mp i,
    find_neighbors argsort_stable X_dup y_blocks 1 = Ok (hp, mp) /\ In (i, i) hp.
Proof.
  exact (duplicate_rows_any_argsort argsort_stable argsort_stable_spec).
Defined.

(** X4 on [X_demo]. *)
Lemma distance_matrix_metric_witness :
  exists D,
    distance_matrix X_demo = Ok D /\
    length D = n_samples X_demo /\
    (forall row, In row D -> length row = n_samples X_demo) /\
    (forall i j ri rj dij dji,
       nth_error D i = Some ri -> nth_error D j = Some rj ->
       nth_error ri j = Some dij -> nth_error rj i = Some dji ->
       (radicand dij == radicand dji)%Q) /\
    (forall i ri dii,
       nth_error D i = Some ri -> nth_error ri i = Some dii -> (radicand dii == 0)%Q) /\
    (forall row d, In row D -> In d row ->
       (0 <= radicand d <= inject_Z (Z.of_nat (n_features X_demo)))%Q).
Proof.
  apply (distance_matrix_metric X_demo); cbn; lia.
Defined.


(** X6 on sample 0 of [X_dup] with the labels [y_blocks]. *)
Lemma k_nearest_partition_witness :
  length [1] <= Z.to_nat 1 /\ length [2] <= Z.to_nat 1 /\ NoDup [1] /\ NoDup [2] /\
  (forall j, In j [1] ->
     j < length y_blocks /\
     nth j y_blocks 0%Z
     = nth (hd 0 (nearest argsort_stable [Sqrt 0; Sqrt 0; Sqrt 1; Sqrt 1])) y_blocks 0%Z /\
     j <> hd 0 (nearest argsort_stable [Sqrt 0; Sqrt 0; Sqrt 1; Sqrt 1])) /\
  (forall j, In j [2] ->
     j < length y_blocks /\
     nth j y_blocks 0%Z
     <> nth (hd 0 (nearest argsort_stable [Sqrt 0; Sqrt 0; Sqrt 1; Sqrt 1])) y_blocks 0%Z) /\
  (forall j, In j [1] -> ~ In j [2]).
Proof.
  apply (k_nearest_partition argsort_stable argsort_stable_spec
           y_blocks 1 [Sqrt 0; Sqrt 0; Sqrt 1; Sqrt 1] [1] [2]).
  - reflexivity.
  - cbn. lia.
  - lia.
  - vm_compute. reflexivity.
Defined.

(** X7 on sample 0 of [X_dup] with the labels [y_blocks]. *)
Lemma k_nearest_are_nearest_witness :
  (forall j j' dj dj',
     In j [1] -> j' < length y_blocks ->
     nth j' y_blocks 0%Z
     = nth (hd 0 (nearest argsort_stable [Sqrt 0; Sqrt 0; Sqrt 1; Sqrt 1])) y_blocks 0%Z ->
     j' <> hd 0 (nearest argsort_stable [Sqrt 0; Sqrt 0; Sqrt 1; Sqrt 1]) -> ~ In j' [1] ->
     nth_error [Sqrt 0; Sqrt 0; Sqrt 1; Sqrt 1] j = Some dj ->
     nth_error [Sqrt 0; Sqrt 0; Sqrt 1; Sqrt 1] j' = Some dj' ->
     dist_leb dj dj' = true) /\
  (forall j j' dj dj',
     In j [2] -> j' < length y_blocks ->
     nth j' y_blocks 0%Z
     <> nth (hd 0 (nearest argsort_stable [Sqrt 0; Sqrt 0; Sqrt 1; Sqrt 1])) y_blocks 0%Z ->
     ~ In j' [2] ->
     nth_error [Sqrt 0; Sqrt 0; Sqrt 1; Sqrt 1] j = Some dj ->
     nth_error [Sqrt 0; Sqrt 0; Sqrt 1; Sqrt 1] j' = Some dj' ->
     dist_leb dj dj' = true).
Proof.
  apply (k_nearest_are_nearest argsort_stable argsort_stable_spec
           y_blocks 1 [Sqrt 0; Sqrt 0; Sqrt 1; Sqrt 1] [1] [2]).
  - reflexivity.
  - cbn. lia.
  - vm_compute. reflexivity.
Defined.

(** X8 on [X_demo] with the labels [y_blocks]. *)
Lemma find_neighbors_rows_witness :
  map fst [(0, 1); (1, 0); (2, 3); (3, 2)]
  = flat_map (fun i => repeat i (Z.to_nat 1)) (seq 0 (n_samples X_demo)) /\
  map fst [(0, 2); (1, 3); (2, 0); (3, 1)]
  = flat_map (fun i => repeat i (Z.to_nat 1)) (seq 0 (n_samples X_demo)) /\
  (forall p, In p [(0, 1); (1, 0); (2, 3); (3, 2)] \/ In p [(0, 2); (1, 3); (2, 0); (3, 1)] ->
     snd p < n_samples X_demo) /\
  exists D,
    distance_matrix X_demo = Ok D /\
    forall i row, nth_error D i = Some row ->
      k_nearest argsort_stable y_blocks 1 row
      = Ok (neighbors_of [(0, 1); (1, 0); (2, 3); (3, 2)] i,
            neighbors_of [(0, 2); (1, 3); (2, 0); (3, 1)] i) /\
      length (neighbors_of [(0, 1); (1, 0); (2, 3); (3, 2)] i) = Z.to_nat 1 /\
      length (neighbors_of [(0, 2); (1, 3); (2, 0); (3, 1)] i) = Z.to_nat 1.
Proof.
  apply (find_neighbors_rows argsort_stable argsort_stable_spec X_demo y_blocks 1).
  - lia.
  - vm_compute. reflexivity.
Defined.

(** X9 on [X_dup] with the labels [y_lone], which do not meet the
    neighbour precondition. *)
Lemma fit_scores_whenever_returns_witness :
  exists hit_pairs miss_pairs scores,
    find_neighbors argsort_stable X_dup y_lone 1 = Ok (hit_pairs, miss_pairs) /\
    feature_scores (snd (fit argsort_stable X_dup y_lone None 1 (__init__ 2)))
    = Some scores /\
    length scores = n_features X_dup /\
    forall f, f < n_features X_dup ->
      exists s, nth_error scores f = Some s /\
                float_eq s (Fin (spec_score X_dup hit_pairs miss_pairs f)).
Proof.
  apply (fit_scores_whenever_returns argsort_stable argsort_stable_spec
           X_dup y_lone None 1 (__init__ 2)).
  vm_compute. reflexivity.
Defined.


(** X11 on [X_demo] with one class. *)
Lemma fit_single_class_witness :
  exists msg,
    fst (fit argsort_stable X_demo [1; 1; 1; 1]%Z None 1 (__init__ 2))
    = Raise (ValueError msg).
Proof.
  apply (fit_single_class argsort_stable argsort_stable_spec
           X_demo [1; 1; 1; 1]%Z None 1 (__init__ 2)
           (map Generated (generate_features X_demo))).
  - reflexivity.
  - intros c c' Hc Hc'. simpl in Hc, Hc'. lia.
  - lia.
Defined.

(** X12 on [X_demo] with four classes. *)
Lemma fit_distinct_labels_witness :
  exists msg,
    fst (fit argsort_stable X_demo [0; 1; 2; 3]%Z None 1 (__init__ 2))
    = Raise (ValueError msg).
Proof.
  apply (fit_distinct_labels argsort_stable argsort_stable_spec
           X_demo [0; 1; 2; 3]%Z None 1 (__init__ 2)
           (map Generated (generate_features X_demo))).
  - reflexivity.
  - repeat (constructor; [simpl; lia |]). constructor.
  - lia.
Defined.

(** X13 on [X_demo]. *)
Lemma fit_without_neighbors_witness :
  exists self' scores,
    find_neighbors argsort_stable X_demo y_blocks 0 = Ok ([], []) /\
    fit argsort_stable X_demo y_blocks None 0 (__init__ 2) = (Ok tt, self') /\
    feature_scores self' = Some scores /\
    length scores = n_features X_demo /\
    forall s, In s scores -> float_eq s (Fin 0).
Proof.
  apply (fit_without_neighbors argsort_stable argsort_stable_spec
           X_demo y_blocks None (__init__ 2)).
  solve_clean_input.
Defined.

(** X14 on [X_demo] with [n_features_to_keep = -1]: two of the three
    features are selected. *)
Lemma selection_valid_witness :
  exists selected,
    selected_features (snd (fit argsort_stable X_demo y_blocks None 1 (__init__ (-1))))
    = Some selected /\
    NoDup selected /\
    (forall f, In f selected -> f < n_features X_demo) /\
    ((n_features_to_keep (__init__ (-1)) < 0)%Z ->
     Z.of_nat (length selected) =
     Z.max 0 (Z.of_nat (n_features X_demo) + n_features_to_keep (__init__ (-1)))).
Proof.
  apply (selection_valid argsort_stable argsort_stable_spec
           X_demo y_blocks None 1 (__init__ (-1))).
  vm_compute. reflexivity.
Defined.

(** X15 on [X_demo], keeping one feature. *)
Lemma selection_top_witness :
  exists scores selected,
    feature_scores (snd (fit argsort_stable X_demo y_blocks None 1 (__init__ 1)))
    = Some scores /\
    selected_features (snd (fit argsort_stable X_demo y_blocks None 1 (__init__ 1)))
    = Some selected /\
    forall i j si sj,
      In i selected -> j < n_features X_demo -> ~ In j selected ->
      nth_error scores i = Some si -> nth_error scores j = Some sj ->
      np_leb sj si = true.
Proof.
  apply (selection_top argsort_stable argsort_stable_spec
           X_demo y_blocks None 1 (__init__ 1)).
  vm_compute. reflexivity.
Defined.

(** X16 on a fitted object that is fitted again with the labels
    [y_lone], with which [fit] raises. *)
Lemma fit_state_on_failure_witness :
  n_features_to_keep
    (snd (fit argsort_stable X_demo y_lone None 1
            (snd (fit argsort_stable X_demo y_blocks None 1 (__init__ 2)))))
  = n_features_to_keep (snd (fit argsort_stable X_demo y_blocks None 1 (__init__ 2))) /\
  top_features
    (snd (fit argsort_stable X_demo y_lone None 1
            (snd (fit argsort_stable X_demo y_blocks None 1 (__init__ 2)))))
  = top_features (snd (fit argsort_stable X_demo y_blocks None 1 (__init__ 2))) /\
  (forall e,
     fst (fit argsort_stable X_demo y_lone None 1
            (snd (fit argsort_stable X_demo y_blocks None 1 (__init__ 2))))
     = Raise e ->
     feature_scores
       (snd (fit argsort_stable X_demo y_lone None 1
               (snd (fit argsort_stable X_demo y_blocks None 1 (__init__ 2)))))
     = feature_scores (snd (fit argsort_stable X_demo y_blocks None 1 (__init__ 2))) /\
     selected_features
       (snd (fit argsort_stable X_demo y_lone None 1
               (snd (fit argsort_stable X_demo y_blocks None 1 (__init__ 2)))))
     = selected_features (snd (fit argsort_stable X_demo y_blocks None 1 (__init__ 2)))) /\
  (forall fn, _check_input X_demo y_lone None = Ok (X_demo, y_lone, fn) ->
     feature_names
       (snd (fit argsort_stable X_demo y_lone None 1
               (snd (fit argsort_stable X_demo y_blocks None 1 (__init__ 2)))))
     = Some (combine (generate_features X_demo) fn)).
Proof.
  apply (fit_state_on_failure argsort_stable argsort_stable_spec X_demo y_lone None 1).
  apply surjective_pairing.
Defined.

(** X17 on [X_demo] and the selection [[2; 0]]. *)
Lemma transform_columns_witness :
  ((forall i, In i [2; 0] -> i < 3) ->
   transform X_demo (set_selected_features (__init__ 2) [2; 0]) =
   (Ok (map (fun row => map (fun i => nth i row 0%Q) [2; 0]) X_demo),
    set_selected_features (__init__ 2) [2; 0])) /\
  (0 < n_samples X_demo -> (exists i, In i [2; 0] /\ 3 <= i) ->
   exists msg,
     transform X_demo (set_selected_features (__init__ 2) [2; 0])
     = (Raise (IndexError msg), set_selected_features (__init__ 2) [2; 0])).
Proof.
  apply (transform_columns X_demo 3 (set_selected_features (__init__ 2) [2; 0]) [2; 0]).
  - reflexivity.
  - repeat constructor.
Defined.

(** X18 on [X_demo]. *)
Lemma fit_then_transform_witness :
  exists selected,
    selected_features (snd (fit argsort_stable X_demo y_blocks None 1 (__init__ 2)))
    = Some selected /\
    (forall X', Forall (fun row => length row = n_features X_demo) X' ->
       transform X' (snd (fit argsort_stable X_demo y_blocks None 1 (__init__ 2))) =
       (Ok (map (fun row => map (fun i => nth i row 0%Q) selected) X'),
        snd (fit argsort_stable X_demo y_blocks None 1 (__init__ 2)))) /\
    fit_transform argsort_stable X_demo y_blocks None 1 (__init__ 2) =
    (Ok (map (fun row => map (fun i => nth i row 0%Q) selected) X_demo),
     snd (fit argsort_stable X_demo y_blocks None 1 (__init__ 2))).
Proof.
  apply (fit_then_transform argsort_stable argsort_stable_spec
           X_demo y_blocks None 1 (__init__ 2)).
  vm_compute. reflexivity.
Defined.

(** X19 on the constant feature 2 of [X_demo]. *)
Lemma fit_constant_feature_witness :
  exists scores s,
    feature_scores (snd (fit argsort_stable X_demo y_blocks None 1 (__init__ 2)))
    = Some scores /\
    nth_error scores 2 = Some s /\ float_eq s (Fin 0).
Proof.
  apply (fit_constant_feature argsort_stable argsort_stable_spec
           X_demo y_blocks None 1 (__init__ 2)).
  - vm_compute. reflexivity.
  - cbn. lia.
  - intros s s' Hs Hs'. cbn in Hs, Hs'.
    destruct s as [| [| [| [| s]]]]; try lia;
      destruct s' as [| [| [| [| s']]]]; try lia; reflexivity.
Defined.


(** X21 on samples 0 and 2 of [X_dup]. *)
Lemma distance_matrix_formula_witness :
  (radicand (Sqrt 1) == spec_sq_distance X_dup 0 2)%Q.
Proof.
  apply (distance_matrix_formula X_dup D_dup 0 2 [Sqrt 0; Sqrt 0; Sqrt 1; Sqrt 1] (Sqrt 1)).
  - repeat constructor.
  - vm_compute. reflexivity.
  - reflexivity.
  - reflexivity.
Defined.

(** X22 on [X_dup] and [X_dup_shifted], samples 0 and 2. *)
Lemma distance_matrix_rescaling_witness :
  exists D' ri' d',
    distance_matrix X_dup_shifted = Ok D' /\
    nth_error D' 0 = Some ri' /\ nth_error ri' 2 = Some d' /\
    (radicand d' == radicand (Sqrt 1))%Q.
Proof.
  eexists. eexists. eexists.
  split; [vm_compute; reflexivity |].
  split; [reflexivity |]. split; [reflexivity |].
  eapply (distance_matrix_rescaling X_dup X_dup_shifted (fun _ => 2%Q) (fun _ => 3%Q)
           D_dup _ 0 2 [Sqrt 0; Sqrt 0; Sqrt 1; Sqrt 1] _ (Sqrt 1)).
  - repeat constructor.
  - repeat constructor.
  - reflexivity.
  - reflexivity.
  - intros f _. reflexivity.
  - intros s f Hs Hf. cbn in Hs, Hf.
    destruct f as [| f]; [| lia].
    destruct s as [| [| [| [| s]]]]; try lia; reflexivity.
  - vm_compute. reflexivity.
  - vm_compute. reflexivity.
  - reflexivity.
  - reflexivity.
  - reflexivity.
  - reflexivity.
Defined.


(** X24 with the classes [y_blocks] renamed by [Z.succ]. *)
Lemma fit_label_renaming_witness :
  find_neighbors argsort_stable X_demo (map Z.succ y_blocks) 1
  = find_neighbors argsort_stable X_demo y_blocks 1 /\
  fit argsort_stable X_demo (map Z.succ y_blocks) None 1 (__init__ 2)
  = fit argsort_stable X_demo y_blocks None 1 (__init__ 2).
Proof.
  apply (fit_label_renaming argsort_stable Z.succ).
  intros c c' H. lia.
Defined.
